(** * SEM simulator: beam model and raster-scan state

    A shallow embedding of [beam_calculation.py] (class [Beam]) and of the
    scan control of [microscope.py] ([Microscope.start_stop],
    [Microscope.scanning]).  The beam properties and the scan tick return
    a [result]: a value, or the exception Python raises.

    Numbers.  Python floats are read as real numbers: rounding and
    overflow of binary64 are outside this development.  Python integers
    are [Z].  What is kept of the float semantics is what can be observed
    without rounding: the division of a Python number by zero raises
    [ZeroDivisionError] instead of producing an infinity; and, where the
    normalisation of the kernel is concerned ([beam_intensity_float]),
    [np.exp] underflows to 0.0 and numpy's division by 0.0 gives NaN.
    The fields of a beam are Python floats, as [Beam.__init__] and the
    slider slots leave them.  *)

From Stdlib Require Import Reals Lra Lia ZArith List Psatz String.
Import ListNotations.
Open Scope R_scope.

(** ** Python results *)

Inductive exn : Set := ZeroDivisionError.

Inductive result (A : Type) : Type :=
| Ok (a : A)
| Raise (e : exn).
Arguments Ok {A} a.
Arguments Raise {A} e.

Definition bind {A B : Type} (c : result A) (k : A -> result B) : result B :=
  match c with
  | Ok a => k a
  | Raise e => Raise e
  end.

Notation "x <- c ;; k" := (bind c (fun x => k))
  (at level 61, c at next level, right associativity).

(** [x / y] on Python numbers. *)
Definition pydiv (x y : R) : result R :=
  if Req_dec_T y 0 then Raise ZeroDivisionError else Ok (x / y).

(** [int(x)]: truncation toward zero. *)
Definition py_int (x : R) : Z :=
  if Rle_dec 0 x then Int_part x else (- Int_part (- x))%Z.

(** [True] and [False] in arithmetic. *)
Definition b2R (b : bool) : R := if b then 1 else 0.

(** ** beam_calculation.py *)

Record Beam : Type := mkBeam {
  z_position : R;
  pixels_per_mm : R;
  astigm_x : R;
  astigm_y : R;
  misalign_x : R;
  misalign_y : R;
  focus : R;
  stigm_x : R;
  stigm_y : R;
  align_x : R;
  align_y : R;
  beam_current : R;
  convergence : R;
  size : nat
}.

Definition defocus (b : Beam) : R := focus b - z_position b.

(** [min(abs(c), cap) * np.sign(c)] *)
Definition clamp_signed (cap c : Z) : Z := (Z.min (Z.abs c) cap * Z.sgn c)%Z.

(** The unclamped shift, as a real number, before [int]. *)
Definition shift_px (b : Beam) (num : R) : result R :=
  q <- pydiv (num * defocus b) (focus b) ;;
  Ok (q * pixels_per_mm b).

Definition center_x (b : Beam) : result Z :=
  s <- shift_px b (align_x b - misalign_x b) ;;
  let c_x := py_int s in
  Ok (clamp_signed 96 c_x).

Definition center_y (b : Beam) : result Z :=
  s <- shift_px b (align_y b - misalign_y b) ;;
  let c_y := py_int s in
  Ok (clamp_signed 49 c_y).

(** [10**-16*(1 + 100*beam_current)**3/4], the second summand of both
    variances. *)
Definition current_floor (b : Beam) : R :=
  / 10 ^ 16 * (1 + 100 * beam_current b) ^ 3 / 4.

Definition sigma2_x_mm (b : Beam) : R :=
  ((defocus b + Rabs (align_x b - misalign_x b) * / 10 ^ 2
    + Rabs (stigm_x b + astigm_x b)) * convergence b) ^ 2
  + current_floor b.

Definition sigma2_y_mm (b : Beam) : R :=
  ((defocus b + Rabs (align_y b - misalign_y b) * / 10 ^ 2
    + Rabs (stigm_y b + astigm_y b)) * convergence b) ^ 2
  + current_floor b.

Definition sigma2_x_px (b : Beam) : R := sigma2_x_mm b * pixels_per_mm b ^ 2.

Definition sigma2_y_px (b : Beam) : R := sigma2_y_mm b * pixels_per_mm b ^ 2.

(** [np.arctan((stigm_x + astigm_x)/(stigm_y + astigm_y))/2].  Both sums
    are Python floats, so the quotient is taken by [pydiv]. *)
Definition astig_angle (b : Beam) : result R :=
  q <- pydiv (stigm_x b + astigm_x b) (stigm_y b + astigm_y b) ;;
  Ok (atan q / 2).

(** The body of the inner function [gauss], at angle [a]; [i] is the row
    index and [j] the column index. *)
Definition gauss (b : Beam) (a : R) (i j : R) : R :=
  let c := INR (size b) / 2 in
  exp (- (j - c) ^ 2 * (cos a ^ 2 / sigma2_x_px b + sin a ^ 2 / sigma2_y_px b)
       - (i - c) ^ 2 * (sin a ^ 2 / sigma2_x_px b + cos a ^ 2 / sigma2_y_px b)
       + (i - c) * (j - c) * sin (2 * a)
         * (1 / sigma2_y_px b - 1 / sigma2_x_px b)).

(** [np.fromfunction(f, (n, m))] *)
Definition fromfunction (f : R -> R -> R) (n m : nat) : list (list R) :=
  map (fun i => map (fun j => f (INR i) (INR j)) (seq 0 m)) (seq 0 n).

Definition row_sum (row : list R) : R := fold_right Rplus 0 row.

(** [array.sum()] of a 2D array. *)
Definition array_sum (k : list (list R)) : R := row_sum (map row_sum k).

(** [array / s] *)
Definition array_div (k : list (list R)) (s : R) : list (list R) :=
  map (map (fun v => v / s)) k.

Definition raw_gauss (b : Beam) (a : R) : list (list R) :=
  fromfunction (gauss b a) (size b) (size b).

(** The property [beam_intensity].  It raises where [gauss] does: at the
    angle, and at [1/sigma2_y_px] and [1/sigma2_x_px], which divide the
    Python integer 1 by a Python float. *)
Definition beam_intensity (b : Beam) : result (list (list R)) :=
  a <- astig_angle b ;;
  _ <- pydiv 1 (sigma2_y_px b) ;;
  _ <- pydiv 1 (sigma2_x_px b) ;;
  Ok (array_div (raw_gauss b a) (array_sum (raw_gauss b a))).

Definition beam_widths (b : Beam) : R * R :=
  (10 ^ 6 * sqrt (sigma2_x_mm b), 10 ^ 6 * sqrt (sigma2_y_mm b)).

(** Entry [(i, j)] of a 2D array; 0 outside is never relied upon. *)
Definition entry (k : list (list R)) (i j : nat) : R := nth j (nth i k []) 0.

(** ** microscope.py: scan control *)

Record Microscope : Type := mkMicroscope {
  resolution : Z * Z;
  frame : list (list R);
  scan_active : bool;
  line : Z;
  speed : Z;
  beam_on : bool;
  hv_target : R;
  h_v : R;
  beam : Beam;
  timer_running : bool;          (* [self.timer], a QTimer *)
  timer_interval : Z;
  start_stop_text : string;      (* label of the start/stop button *)
  contrast_Slider : Z;
  brightness_Slider : Z
}.

Definition set_scan (m : Microscope) (running : bool) (interval : Z)
    (active : bool) (text : string) : Microscope :=
  mkMicroscope (resolution m) (frame m) active (line m) (speed m)
    (beam_on m) (hv_target m) (h_v m) (beam m) running interval text
    (contrast_Slider m) (brightness_Slider m).

Definition start_stop (m : Microscope) : Microscope :=
  if scan_active m then
    set_scan m false (timer_interval m) false "Start scanning"
  else
    set_scan m true (speed m * 10)%Z true "Stop scanning".

Definition set_frame_line (m : Microscope) (f : list (list R)) (l : Z)
    : Microscope :=
  mkMicroscope (resolution m) f (scan_active m) l (speed m)
    (beam_on m) (hv_target m) (h_v m) (beam m) (timer_running m)
    (timer_interval m) (start_stop_text m)
    (contrast_Slider m) (brightness_Slider m).

(** [row[a:b] = v] for [0 <= a <= b <= len(row)], [v] of length [b - a]. *)
Definition assign_range (row : list R) (a b : nat) (v : nat -> R) : list R :=
  firstn a row ++ map v (seq 0 (b - a)) ++ skipn b row.

Fixpoint assign_rows (r : nat) (f : list (list R)) (a b : nat)
    (v : nat -> nat -> R) : list (list R) :=
  match f with
  | [] => []
  | row :: rest => assign_range row a b (v r) :: assign_rows (S r) rest a b v
  end.

(** [frame[:, a:b] = v] *)
Definition assign_columns (f : list (list R)) (a b : Z)
    (v : nat -> nat -> R) : list (list R) :=
  assign_rows 0 f (Z.to_nat a) (Z.to_nat b) v.

(** The scan step, [11 - self.speed]. *)
Definition step_of (m : Microscope) : Z := (11 - speed m)%Z.

(** [int(self.resolution[0]/8)] *)
Definition margin (m : Microscope) : Z := Z.quot (fst (resolution m)) 8.

(** The array [convolution(image[...], kernel).T] as a function of what
    the beam contributes to it: the two centre shifts that place the crop
    and the kernel.  The stored image, the FFT and the crop are outside
    this development; the image is taken large enough for the crop.  So
    is the stride of the crop, [scale = int(512/self.resolution[0])],
    which the source computes at the start of every tick: the width is
    taken from 1 to 512, where neither that division nor the strided
    slice raises. *)
Definition convolved : Type := Z -> Z -> list (list R) -> nat -> nat -> R.

(** The right-hand side of both assignments in [scanning], in the order
    Python evaluates it.  [convT] is the convolved array, read from row
    [margin] and column [line + margin] on; [rand] is the array drawn by
    [np.random.rand].  The quotients [beam_on * h_v / hv_target] and
    [10 * beam_current**0.5 / speed**0.5] are quotients of Python
    numbers. *)
Definition slice (m : Microscope) (convT : convolved)
    (rand : nat -> nat -> R) : result (nat -> nat -> R) :=
  gain <- pydiv (b2R (beam_on m) * h_v m) (hv_target m) ;;
  c_y <- center_y (beam m) ;;
  c_x <- center_x (beam m) ;;
  kernel <- beam_intensity (beam m) ;;
  noise <- pydiv (10 * sqrt (beam_current (beam m))) (sqrt (IZR (speed m))) ;;
  Ok (fun r k : nat =>
        gain
        * (convT c_y c_x kernel
             (Z.to_nat (margin m) + r)%nat
             (Z.to_nat (line m + margin m) + k)%nat
           * beam_current (beam m)
           + noise * rand r k)
        * (IZR (contrast_Slider m) / 30) ^ 2
        + IZR (brightness_Slider m) - 250).

(** [Microscope.scanning], one timer tick.  The display call
    [img.setImage] shows [frame] and changes nothing.  The speed is one of
    1..10, the values of the speed box. *)
Definition scanning (convT : convolved) (rand : nat -> nat -> R)
    (m : Microscope) : result Microscope :=
  let step := step_of m in
  let height := snd (resolution m) in
  if (line m <? height - 1 - step)%Z then
    v <- slice m convT rand ;;
    Ok (set_frame_line m
          (assign_columns (frame m) (line m) (line m + step) v)
          (line m + step)%Z)
  else if (line m <? height - 1)%Z then
    v <- slice m convT rand ;;
    Ok (set_frame_line m
          (assign_columns (frame m) (line m) height v)
          (line m + step)%Z)
  else
    Ok (set_frame_line m (frame m) 0%Z).

(** [n] ticks; tick number [t] (from 0) receives [convT t] and [rand t]. *)
Fixpoint ticks (convT : nat -> convolved) (rand : nat -> nat -> nat -> R)
    (n : nat) (m : Microscope) : result Microscope :=
  match n with
  | O => Ok m
  | S n' => m' <- ticks convT rand n' m ;; scanning (convT n') (rand n') m'
  end.

(** States reached from [m0] by ticks. *)
Inductive reachable (m0 : Microscope) : Microscope -> Prop :=
| reach_start : reachable m0 m0
| reach_tick m m' convT rand :
    reachable m0 m -> scanning convT rand m = Ok m' -> reachable m0 m'.

(** The columns a tick writes: [Some (a, b)] for [frame[:, a:b]]. *)
Definition written (m : Microscope) : option (Z * Z) :=
  let step := step_of m in
  let height := snd (resolution m) in
  if (line m <? height - 1 - step)%Z then Some (line m, (line m + step)%Z)
  else if (line m <? height - 1)%Z then Some (line m, height)
  else None.

(** A frame of the shape [np.zeros(resolution)] has. *)
Definition frame_shape (m : Microscope) : Prop :=
  List.length (frame m) = Z.to_nat (fst (resolution m)) /\
  Forall (fun row => List.length row = Z.to_nat (snd (resolution m))) (frame m).

(** [np.zeros((w, h))] *)
Definition zeros (w h : nat) : list (list R) := repeat (repeat 0 h) w.

(** ** Concrete states *)

(** The beam of a fresh [Beam()] at the documented defaults, the random
    draws being [z_position = 10] and no intrinsic astigmatism or
    misalignment. *)
Definition beam0 : Beam :=
  mkBeam 10 (256 / (5715 / 100) * 100) 0 0 0 0 (1 / 10) 0 0 0 0 1 (1 / 100) 64.

Definition with_stigm (b : Beam) (sx sy : R) : Beam :=
  mkBeam (z_position b) (pixels_per_mm b) (astigm_x b) (astigm_y b)
    (misalign_x b) (misalign_y b) (focus b) sx sy (align_x b) (align_y b)
    (beam_current b) (convergence b) (size b).

Definition with_align (b : Beam) (ax ay : R) : Beam :=
  mkBeam (z_position b) (pixels_per_mm b) (astigm_x b) (astigm_y b)
    (misalign_x b) (misalign_y b) (focus b) (stigm_x b) (stigm_y b) ax ay
    (beam_current b) (convergence b) (size b).

(** Stigmator x slider at 500, stigmator y untouched. *)
Definition beam_stigm_x : Beam := with_stigm beam0 (1 / 2) 0.

(** Both stigmator sliders at 300. *)
Definition beam_round : Beam := with_stigm beam0 (3 / 10) (3 / 10).

(** Stigmator y slider at 300, stigmator x untouched: the angle is 0 and
    the two variances differ. *)
Definition beam_stigm_y : Beam := with_stigm beam0 0 (3 / 10).

(** A beam as [Beam()] can draw it: working distance 10 mm, astigmatism
    0.25 and -0.125, misalignment 0.1 and -0.05. *)
Definition beam_drawn : Beam :=
  mkBeam 10 (256 / (5715 / 100) * 100) (1 / 4) (- (1 / 8)) (1 / 10)
    (- (1 / 20)) (1 / 10) 0 0 0 0 1 (1 / 100) 64.

(** The microscope of [simulator_main.py], [Microscope(57.15, path, 15)],
    before the first start, with the beam [beam_drawn]; the contrast
    slider stands at 30 and the brightness slider at 0. *)
Definition microscope0 : Microscope :=
  mkMicroscope (256, 192)%Z (zeros 256 192) false 0 1 false 15 0 beam_drawn
    false 0 "Start scanning" 30 0.

(** [scan_speed] with the speed box at [s]. *)
Definition with_speed (m : Microscope) (s : Z) : Microscope :=
  mkMicroscope (resolution m) (frame m) (scan_active m) (line m) s
    (beam_on m) (hv_target m) (h_v m) (beam m) (timer_running m)
    (s * 10)%Z (start_stop_text m)
    (contrast_Slider m) (brightness_Slider m).

(** Arrays for the ticks of the concrete runs: a flat grey image and every
    random draw equal to 1/2. *)
Definition flat_conv : nat -> convolved := fun _ _ _ _ _ _ => 100.

Definition half_rand : nat -> nat -> nat -> R := fun _ _ _ => 1 / 2.

(** ** Specification vocabulary *)

(** [z] is [x] truncated toward zero. *)
Definition truncates (x : R) (z : Z) : Prop :=
  (0 <= x -> IZR z <= x < IZR z + 1) /\
  (x <= 0 -> IZR z - 1 < x <= IZR z).

(** [r] is [c] with its magnitude clamped to [cap], sign preserved. *)
Definition clamps (cap c r : Z) : Prop :=
  ((Z.abs c <= cap)%Z -> r = c) /\
  ((cap < c)%Z -> r = cap) /\
  ((c < - cap)%Z -> r = (- cap)%Z).

(** [k] is an [n] by [n] array. *)
Definition square (n : nat) (k : list (list R)) : Prop :=
  List.length k = n /\ Forall (fun row => List.length row = n) k.

Definition nonnegative (k : list (list R)) : Prop :=
  Forall (Forall (fun v => 0 <= v)) k.

(** Parameters at which [beam_intensity] is evaluated without error and
    the beam current is physical. *)
Definition valid (b : Beam) : Prop :=
  0 <= beam_current b /\
  pixels_per_mm b <> 0 /\
  stigm_y b + astigm_y b <> 0.

(** What the beam properties return when they do not raise. *)
Definition center_x_value (b : Beam) : Z :=
  clamp_signed 96
    (py_int ((align_x b - misalign_x b) * defocus b / focus b
             * pixels_per_mm b)).

Definition center_y_value (b : Beam) : Z :=
  clamp_signed 49
    (py_int ((align_y b - misalign_y b) * defocus b / focus b
             * pixels_per_mm b)).

Definition astig_angle_value (b : Beam) : R :=
  atan ((stigm_x b + astigm_x b) / (stigm_y b + astigm_y b)) / 2.

Definition beam_intensity_value (b : Beam) : list (list R) :=
  array_div (raw_gauss b (astig_angle_value b))
    (array_sum (raw_gauss b (astig_angle_value b))).

(** One pixel of the slice a tick writes: [conv_px] is the entry of the
    convolved slice, [rand_px] the entry of the drawn array. *)
Definition pixel (m : Microscope) (conv_px rand_px : R) : R :=
  b2R (beam_on m) * h_v m / hv_target m
  * (conv_px * beam_current (beam m)
     + 10 * sqrt (beam_current (beam m)) / sqrt (IZR (speed m)) * rand_px)
  * (IZR (contrast_Slider m) / 30) ^ 2
  + IZR (brightness_Slider m) - 250.

(** The entry of the convolved slice at row [r], column [k] of the slice. *)
Definition conv_entry (m : Microscope) (convT : convolved) (r k : nat) : R :=
  convT (center_y_value (beam m)) (center_x_value (beam m))
    (beam_intensity_value (beam m))
    (Z.to_nat (margin m) + r)%nat
    (Z.to_nat (line m + margin m) + k)%nat.

(** The slice a tick writes when nothing raises. *)
Definition slice_value (m : Microscope) (convT : convolved)
    (rand : nat -> nat -> R) (r k : nat) : R :=
  pixel m (conv_entry m convT r k) (rand r k).

(** States in which the right-hand side of a tick is evaluated without
    error: no division by zero in the gain, in the beam properties or in
    the noise amplitude. *)
Definition operable (m : Microscope) : Prop :=
  hv_target m <> 0 /\
  focus (beam m) <> 0 /\
  valid (beam m) /\
  (1 <= speed m)%Z.

(** Two states that differ at most in [frame] and [line]. *)
Definition same_settings (m m' : Microscope) : Prop :=
  resolution m' = resolution m /\
  speed m' = speed m /\
  scan_active m' = scan_active m /\
  beam_on m' = beam_on m /\
  brightness_Slider m' = brightness_Slider m /\
  contrast_Slider m' = contrast_Slider m /\
  h_v m' = h_v m /\
  hv_target m' = hv_target m /\
  beam m' = beam m.

(** ** beam_calculation.py: construction *)

(** What [np.random.random()] and [np.random.rand()] return: a float in
    the half-open interval from 0 to 1. *)
Definition unit_draw (r : R) : Prop := 0 <= r < 1.

(** [Beam.__init__]; the arguments are the five random draws, in the order
    of the calls. *)
Definition Beam_init (r_z r_ax r_ay r_mx r_my : R) : Beam :=
  mkBeam (15 - r_z * 10) (256 / (5715 / 100) * 100)
    (r_ax - 5 / 10) (r_ay - 5 / 10)
    (4 / 10 * r_mx - 2 / 10) (4 / 10 * r_my - 2 / 10)
    (1 / 10) 0 0 0 0 1 (1 / 100) 64.

(** The quadratic form in the exponent of [gauss], written in the rotated
    axes; [x] is the column offset and [y] the row offset from the
    centre. *)
Definition rotated_form (b : Beam) (a x y : R) : R :=
  (x * cos a + y * sin a) ^ 2 / sigma2_x_px b
  + (y * cos a - x * sin a) ^ 2 / sigma2_y_px b.

(** [Microscope.beam_current]'s assignment to the beam, the new current
    being [c]. *)
Definition with_current (b : Beam) (c : R) : Beam :=
  mkBeam (z_position b) (pixels_per_mm b) (astigm_x b) (astigm_y b)
    (misalign_x b) (misalign_y b) (focus b) (stigm_x b) (stigm_y b)
    (align_x b) (align_y b) c (convergence b) (size b).

(** The assignments to [beam.focus] and to [self.beam]. *)
Definition with_focus (b : Beam) (f : R) : Beam :=
  mkBeam (z_position b) (pixels_per_mm b) (astigm_x b) (astigm_y b)
    (misalign_x b) (misalign_y b) f (stigm_x b) (stigm_y b)
    (align_x b) (align_y b) (beam_current b) (convergence b) (size b).

Definition with_beam (m : Microscope) (b : Beam) : Microscope :=
  mkMicroscope (resolution m) (frame m) (scan_active m) (line m) (speed m)
    (beam_on m) (hv_target m) (h_v m) b (timer_running m)
    (timer_interval m) (start_stop_text m)
    (contrast_Slider m) (brightness_Slider m).

(** ** microscope.py: the rest of the control surface *)

(** What a slot ends with: a value, or the exception that leaves it. *)
Inductive failure : Set :=
| IndexError
| ValueError
| Arithmetic (e : exn).

Inductive outcome (A : Type) : Type :=
| Done (a : A)
| Failed (f : failure).
Arguments Done {A} a.
Arguments Failed {A} f.

Definition obind {A B : Type} (c : outcome A) (k : A -> outcome B)
    : outcome B :=
  match c with
  | Done a => k a
  | Failed f => Failed f
  end.

Notation "x <~ c ;; k" := (obind c (fun x => k))
  (at level 61, c at next level, right associativity).

Definition of_result {A : Type} (c : result A) : outcome A :=
  match c with
  | Ok a => Done a
  | Raise e => Failed (Arithmetic e)
  end.

(** [l[i]] on a Python list: negative indices count from the end. *)
Definition getitem (l : list Z) (i : Z) : outcome Z :=
  let n := Z.of_nat (List.length l) in
  if ((0 <=? i) && (i <? n))%Z%bool then Done (nth (Z.to_nat i) l 0%Z)
  else if ((- n <=? i) && (i <? 0))%Z%bool
       then Done (nth (Z.to_nat (i + n)) l 0%Z)
       else Failed IndexError.

(** The microscope beyond the scan: the fields of [Microscope] the scan
    does not read, the slider values that several slots read, and the
    enabled flags of the buttons the slots set.  Labels and the data zone
    are display only and are left out. *)
Record Instrument : Type := mkInstrument {
  scope : Microscope;
  screen_width : R;
  mags : list Z;
  curr_mag : Z;
  vent : bool;
  pressure : R;
  pump_timer_running : bool;
  hv_timer_running : bool;
  wobble_timer_running : bool;
  wobble_time : Z;
  Focus_Slider : Z;
  wobble_amp_Slider : Z;
  beamOn_enabled : bool;
  vent_pump_enabled : bool;
  sample_enabled : bool
}.

Definition set_scope (i : Instrument) (m : Microscope) : Instrument :=
  mkInstrument m (screen_width i) (mags i) (curr_mag i) (vent i)
    (pressure i) (pump_timer_running i) (hv_timer_running i)
    (wobble_timer_running i) (wobble_time i) (Focus_Slider i)
    (wobble_amp_Slider i) (beamOn_enabled i) (vent_pump_enabled i)
    (sample_enabled i).

Definition set_vacuum (i : Instrument) (v : bool) (p : R) (timer : bool)
    (beam_button sample_box : bool) : Instrument :=
  mkInstrument (scope i) (screen_width i) (mags i) (curr_mag i) v p timer
    (hv_timer_running i) (wobble_timer_running i) (wobble_time i)
    (Focus_Slider i) (wobble_amp_Slider i) beam_button
    (vent_pump_enabled i) sample_box.

Definition set_hv (i : Instrument) (m : Microscope) (timer : bool)
    (vent_button : bool) : Instrument :=
  mkInstrument m (screen_width i) (mags i) (curr_mag i) (vent i)
    (pressure i) (pump_timer_running i) timer
    (wobble_timer_running i) (wobble_time i) (Focus_Slider i)
    (wobble_amp_Slider i) (beamOn_enabled i) vent_button
    (sample_enabled i).

Definition set_wobble (i : Instrument) (m : Microscope) (timer : bool)
    (t : Z) : Instrument :=
  mkInstrument m (screen_width i) (mags i) (curr_mag i) (vent i)
    (pressure i) (pump_timer_running i) (hv_timer_running i)
    timer t (Focus_Slider i)
    (wobble_amp_Slider i) (beamOn_enabled i) (vent_pump_enabled i)
    (sample_enabled i).

Definition set_mags (i : Instrument) (m : Microscope) (l : list Z)
    (c : Z) : Instrument :=
  mkInstrument m (screen_width i) l c (vent i)
    (pressure i) (pump_timer_running i) (hv_timer_running i)
    (wobble_timer_running i) (wobble_time i) (Focus_Slider i)
    (wobble_amp_Slider i) (beamOn_enabled i) (vent_pump_enabled i)
    (sample_enabled i).

Definition set_Focus_Slider (i : Instrument) (m : Microscope) (v : Z)
    : Instrument :=
  mkInstrument m (screen_width i) (mags i) (curr_mag i) (vent i)
    (pressure i) (pump_timer_running i) (hv_timer_running i)
    (wobble_timer_running i) (wobble_time i) v
    (wobble_amp_Slider i) (beamOn_enabled i) (vent_pump_enabled i)
    (sample_enabled i).

(** The assignments to [beam_on] and [h_v], to the scan geometry, and to
    the fields of the beam. *)
Definition with_hv (m : Microscope) (on : bool) (v : R) : Microscope :=
  mkMicroscope (resolution m) (frame m) (scan_active m) (line m) (speed m)
    on (hv_target m) v (beam m) (timer_running m)
    (timer_interval m) (start_stop_text m)
    (contrast_Slider m) (brightness_Slider m).

Definition with_resolution (m : Microscope) (w h : Z) (b : Beam)
    : Microscope :=
  mkMicroscope (w, h) (zeros (Z.to_nat w) (Z.to_nat h)) (scan_active m)
    0%Z (speed m) (beam_on m) (hv_target m) (h_v m) b (timer_running m)
    (timer_interval m) (start_stop_text m)
    (contrast_Slider m) (brightness_Slider m).

Definition with_scale (b : Beam) (ppm : R) (n : nat) : Beam :=
  mkBeam (z_position b) ppm (astigm_x b) (astigm_y b)
    (misalign_x b) (misalign_y b) (focus b) (stigm_x b) (stigm_y b)
    (align_x b) (align_y b) (beam_current b) (convergence b) n.

(** [update_datazone]: the text it builds reads [self.mags[self.curr_mag]],
    which is all that can make it fail. *)
Definition update_datazone (i : Instrument) : outcome Instrument :=
  _ <~ getitem (mags i) (curr_mag i) ;;
  Done i.

(** [self.resolution[0] * self.mags[self.curr_mag] / self.screen_width],
    computed alike by [sample_loading], [magnification] and
    [resolution_choice]; [w] is the width and [c] the index. *)
Definition pixel_scale (i : Instrument) (w c : Z) : outcome R :=
  mag <~ getitem (mags i) c ;;
  of_result (pydiv (IZR w * IZR mag) (screen_width i)).

Definition vent_pump (i : Instrument) : Instrument :=
  if vent i then
    set_vacuum i false 760 true (beamOn_enabled i) false
  else
    set_vacuum i true (pressure i) false false true.

(** [__pump]; [r] is the draw of [np.random.rand()]. *)
Definition pump (r : R) (i : Instrument) : Instrument :=
  if Rlt_dec (/ 10 ^ 5) (pressure i) then
    set_vacuum i (vent i) (pressure i * (5 / 10 + 5 / 10 * r))
      (pump_timer_running i) (beamOn_enabled i) (sample_enabled i)
  else
    set_vacuum i (vent i) (pressure i) false true (sample_enabled i).

Definition beam_on_off (i : Instrument) : outcome Instrument :=
  if beam_on (scope i) then
    i' <~ update_datazone
            (set_scope i (with_hv (scope i) false 0)) ;;
    Done (set_hv i' (scope i') (hv_timer_running i') true)
  else
    Done (set_hv i (with_hv (scope i) true (h_v (scope i))) true false).

(** [__hv_rise]; [r] is the draw of [np.random.rand()]. *)
Definition hv_rise (r : R) (i : Instrument) : outcome Instrument :=
  let m := scope i in
  if Rlt_dec (h_v m) (hv_target m) then
    let v := h_v m + r in
    let f := Rmax (1 / 10) (IZR (Focus_Slider i) / 1000 - hv_target m + v) in
    update_datazone
      (set_scope i (with_beam (with_hv m (beam_on m) v)
                      (with_focus (beam m) f)))
  else
    update_datazone
      (set_hv i (with_beam (with_hv m (beam_on m) (hv_target m))
                   (with_focus (beam m) (IZR (Focus_Slider i) / 1000)))
         false (vent_pump_enabled i)).

(** [magnification]; [v] is the value of the magnification slider.  The
    scale bar text divides by the magnification. *)
Definition magnification (v : Z) (i : Instrument) : outcome Instrument :=
  let m := scope i in
  ppm <~ pixel_scale i (fst (resolution m)) v ;;
  let i1 := set_mags i (with_beam m (with_scale (beam m) ppm (size (beam m))))
              (mags i) v in
  i2 <~ update_datazone i1 ;;
  mag <~ getitem (mags i2) (curr_mag i2) ;;
  _ <~ of_result (pydiv (screen_width i2 * 1000 * (672 / 10) / 768)
                    (IZR mag)) ;;
  Done i2.

(** [resolution_choice]; [(w, h)] is the resolution read from the box,
    two non-negative integers. *)
Definition resolution_choice (w h : Z) (i : Instrument)
    : outcome Instrument :=
  let m := scope i in
  ppm <~ pixel_scale i w (curr_mag i) ;;
  Done (set_scope i
          (with_resolution m w h
             (with_scale (beam m) ppm (Z.to_nat (Z.quot w 4))))).

(** [scan_speed]; [s] is the speed read from the box. *)
Definition scan_speed (s : Z) (i : Instrument) : Instrument :=
  set_scope i (with_speed (scope i) s).

(** [wobble]; [checked] is the state of the wobble box. *)
Definition wobble (checked : bool) (i : Instrument) : Instrument :=
  if checked then
    set_wobble i (scope i) true 0%Z
  else
    set_wobble i
      (with_beam (scope i)
         (with_focus (beam (scope i)) (IZR (Focus_Slider i) / 1000)))
      false 0%Z.

(** [wobble_defocus].  The focus it writes is a numpy float; it is read
    like the Python floats of the other slots, which differs only when it
    is exactly 0, where numpy's division raises nothing. *)
Definition wobble_defocus (i : Instrument) : Instrument :=
  set_wobble i
    (with_beam (scope i)
       (with_focus (beam (scope i))
          (IZR (Focus_Slider i) / 1000
           + IZR (wobble_amp_Slider i) / 100 * sin (IZR (wobble_time i)))))
    (wobble_timer_running i) (wobble_time i + 1)%Z.

(** [Microscope.focus]; [v] is the new value of the focus slider. *)
Definition Microscope_focus (v : Z) (i : Instrument) : outcome Instrument :=
  update_datazone
    (set_Focus_Slider i
       (with_beam (scope i) (with_focus (beam (scope i)) (IZR v / 1000)))
       v).

(** [Microscope.stigm_x], [stigm_y], [align_x], [align_y]; [v] is the
    value of the slider of that slot. *)
Definition Microscope_stigm_x (v : Z) (i : Instrument) : Instrument :=
  set_scope i
    (with_beam (scope i)
       (with_stigm (beam (scope i)) (IZR v / 1000)
          (stigm_y (beam (scope i))))).

Definition Microscope_stigm_y (v : Z) (i : Instrument) : Instrument :=
  set_scope i
    (with_beam (scope i)
       (with_stigm (beam (scope i)) (stigm_x (beam (scope i)))
          (IZR v / 1000))).

Definition Microscope_align_x (v : Z) (i : Instrument) : Instrument :=
  set_scope i
    (with_beam (scope i)
       (with_align (beam (scope i)) (IZR v / 200)
          (align_y (beam (scope i))))).

Definition Microscope_align_y (v : Z) (i : Instrument) : Instrument :=
  set_scope i
    (with_beam (scope i)
       (with_align (beam (scope i)) (align_x (beam (scope i)))
          (IZR v / 200))).

(** [Microscope.beam_current]; [v] is the slider value. *)
Definition Microscope_beam_current (v : Z) (i : Instrument)
    : outcome Instrument :=
  update_datazone
    (set_scope i
       (with_beam (scope i) (with_current (beam (scope i)) (IZR v / 100)))).

(** [if self.scan_active: self.start_stop()], the opening of
    [sample_loading] and of a confirmed [save_image]. *)
Definition stop_if_active (m : Microscope) : Microscope :=
  if scan_active m then start_stop m else m.

(** [sample_loading] with [prepare_images]: [found] tells whether the
    sample has detector folders, [new_mags] is the sorted list of the
    magnifications found, [b] the fresh [Beam()], [v] the value of the
    beam current slider.  The index [curr_mag] is not reset. *)
Definition sample_loading (found : bool) (new_mags : list Z) (b : Beam)
    (v : Z) (i : Instrument) : outcome Instrument :=
  let m := stop_if_active (scope i) in
  let l := if found then new_mags else mags i in
  let i1 := set_mags i (with_beam m (with_current b (IZR v / 100)))
              l (curr_mag i) in
  ppm <~ pixel_scale i1 (fst (resolution m)) (curr_mag i1) ;;
  update_datazone
    (set_scope i1
       (with_beam (scope i1)
          (with_scale (beam (scope i1)) ppm (size (beam (scope i1)))))).

(** A confirmed [save_image], as far as the state goes. *)
Definition save_image (i : Instrument) : Instrument :=
  set_scope i (stop_if_active (scope i)).

(** One timer tick of the scan, on the instrument. *)
Definition scan_tick (convT : convolved) (rand : nat -> nat -> R)
    (i : Instrument) : outcome Instrument :=
  m <~ of_result (scanning convT rand (scope i)) ;;
  Done (set_scope i m).

(** The timeouts of the high-voltage timer, one per draw of the list. *)
Fixpoint hv_rises (rs : list R) (i : Instrument) : outcome Instrument :=
  match rs with
  | [] => Done i
  | r :: rs' => i1 <~ hv_rise r i ;; hv_rises rs' i1
  end.

(** The timeouts of the pump timer, one per draw of the list. *)
Fixpoint pumps (rs : list R) (i : Instrument) : Instrument :=
  match rs with
  | [] => i
  | r :: rs' => pumps rs' (pump r i)
  end.

(** What reaches the slots: clicks, moved sliders, chosen box entries and
    timer timeouts, with the values read from the interface and the
    random draws. *)
Inductive event : Type :=
| Click_vent_pump
| Pump_timeout (r : R)
| Click_beamOn
| Hv_timeout (r : R)
| Magnification_moved (v : Z)
| Resolution_chosen (w h : Z)
| Speed_chosen (s : Z)
| Click_start_stop
| Scan_timeout (convT : convolved) (rand : nat -> nat -> R)
| Wobble_toggled (checked : bool)
| Wobble_timeout
| Focus_moved (v : Z)
| Stigm_x_moved (v : Z)
| Stigm_y_moved (v : Z)
| Align_x_moved (v : Z)
| Align_y_moved (v : Z)
| Current_moved (v : Z)
| Sample_chosen (found : bool) (new_mags : list Z)
    (r_z r_ax r_ay r_mx r_my : R) (v : Z)
| Image_saved.

(** Qt delivers a click only from an enabled widget and a timeout only
    from a running timer; the resolution box offers non-negative sizes
    and the speed box the speeds 1 to 10; draws are unit draws. *)
Definition deliverable (e : event) (i : Instrument) : Prop :=
  match e with
  | Click_vent_pump => vent_pump_enabled i = true
  | Pump_timeout r => pump_timer_running i = true /\ unit_draw r
  | Click_beamOn => beamOn_enabled i = true
  | Hv_timeout r => hv_timer_running i = true /\ unit_draw r
  | Resolution_chosen w h => (0 <= w)%Z /\ (0 <= h)%Z
  | Speed_chosen s => (1 <= s <= 10)%Z
  | Scan_timeout _ _ => timer_running (scope i) = true
  | Wobble_timeout => wobble_timer_running i = true
  | Sample_chosen _ _ r_z r_ax r_ay r_mx r_my _ =>
      sample_enabled i = true /\ unit_draw r_z /\ unit_draw r_ax /\
      unit_draw r_ay /\ unit_draw r_mx /\ unit_draw r_my
  | _ => True
  end.

(** The slot connected to each event. *)
Definition handle (e : event) (i : Instrument) : outcome Instrument :=
  match e with
  | Click_vent_pump => Done (vent_pump i)
  | Pump_timeout r => Done (pump r i)
  | Click_beamOn => beam_on_off i
  | Hv_timeout r => hv_rise r i
  | Magnification_moved v => magnification v i
  | Resolution_chosen w h => resolution_choice w h i
  | Speed_chosen s => Done (scan_speed s i)
  | Click_start_stop => Done (set_scope i (start_stop (scope i)))
  | Scan_timeout convT rand => scan_tick convT rand i
  | Wobble_toggled checked => Done (wobble checked i)
  | Wobble_timeout => Done (wobble_defocus i)
  | Focus_moved v => Microscope_focus v i
  | Stigm_x_moved v => Done (Microscope_stigm_x v i)
  | Stigm_y_moved v => Done (Microscope_stigm_y v i)
  | Align_x_moved v => Done (Microscope_align_x v i)
  | Align_y_moved v => Done (Microscope_align_y v i)
  | Current_moved v => Microscope_beam_current v i
  | Sample_chosen found new_mags r_z r_ax r_ay r_mx r_my v =>
      sample_loading found new_mags (Beam_init r_z r_ax r_ay r_mx r_my) v i
  | Image_saved => Done (save_image i)
  end.

(** States the instrument reaches from [i0] through delivered events
    whose slots return. *)
Inductive reaches (i0 : Instrument) : Instrument -> Prop :=
| reaches_start : reaches i0 i0
| reaches_event i e i' :
    reaches i0 i -> deliverable e i -> handle e i = Done i' ->
    reaches i0 i'.

(** The vacuum interlock: the pump timer runs only while pumping, and the
    beam button is enabled, or the beam on, only in a pumped chamber at
    1e-5 Torr or below; while the beam is on the vent button is
    disabled. *)
Definition interlocked (i : Instrument) : Prop :=
  (pump_timer_running i = true -> vent i = false) /\
  (beamOn_enabled i = true ->
     vent i = false /\ pressure i <= / 10 ^ 5) /\
  (beam_on (scope i) = true ->
     vent i = false /\ pressure i <= / 10 ^ 5 /\
     vent_pump_enabled i = false).

(** The scan state every slot keeps. *)
Definition scan_consistent (m : Microscope) : Prop :=
  frame_shape m /\
  (0 <= fst (resolution m))%Z /\ (0 <= snd (resolution m))%Z /\
  (1 <= speed m <= 10)%Z /\
  (0 <= line m <= snd (resolution m) + 8)%Z /\
  scan_active m = timer_running m /\
  (timer_running m = true -> timer_interval m = (speed m * 10)%Z).

(** The instrument as [Microscope.__init__] leaves it, for a screen width,
    a target voltage and the five draws of the beam; [beam_button] is the
    enabled state the beam button has in the interface file, the focus
    slider stands at [f] and the wobble amplitude slider at [a]; the
    contrast slider stands at 30 and the brightness slider at 0, as in
    [microscope0]. *)
Definition Instrument_init (width target : R)
    (r_z r_ax r_ay r_mx r_my : R) (beam_button : bool) (f a : Z)
    : Instrument :=
  mkInstrument
    (mkMicroscope (256, 192)%Z (zeros 256 192) false 0 1 false target 0
       (Beam_init r_z r_ax r_ay r_mx r_my) false 0 "Start scanning" 30 0)
    width [1%Z] 0 true 760 false false false 0 f a beam_button true true.

(** The instrument of [simulator_main.py] with every draw equal to 0.25,
    the beam button disabled and the focus slider at 100. *)
Definition instrument0 : Instrument :=
  Instrument_init (5715 / 100) 15 (1 / 4) (1 / 4) (1 / 4) (1 / 4) (1 / 4)
    false 100 10.

(** Two states with the same high voltage, geometry and beam. *)
Definition same_settings_but_scan (m m' : Microscope) : Prop :=
  resolution m' = resolution m /\
  speed m' = speed m /\
  beam_on m' = beam_on m /\
  h_v m' = h_v m /\
  hv_target m' = hv_target m /\
  beam m' = beam m /\
  line m' = line m /\
  frame m' = frame m.

(** The pressure stays between 5e-6 and 760 Torr. *)
Definition pressure_bounded (i : Instrument) : Prop :=
  / (2 * 10 ^ 5) < pressure i <= 760.

(** The high voltage stays between 0 and less than 1 kV above a
    non-negative target. *)
Definition hv_bounded (i : Instrument) : Prop :=
  0 <= hv_target (scope i) /\
  0 <= h_v (scope i) < hv_target (scope i) + 1.

(** Two states with the same scan fields. *)
Definition same_scan (m m' : Microscope) : Prop :=
  resolution m' = resolution m /\
  frame m' = frame m /\
  speed m' = speed m /\
  line m' = line m /\
  scan_active m' = scan_active m /\
  timer_running m' = timer_running m /\
  timer_interval m' = timer_interval m.

(** [n] timeouts of the wobble timer. *)
Fixpoint wobble_timeouts (n : nat) (i : Instrument) : Instrument :=
  match n with
  | O => i
  | S n' => wobble_timeouts n' (wobble_defocus i)
  end.

(** The beam's scale is the one [sample_loading], [magnification] and
    [resolution_choice] compute from the present width, magnification and
    screen width. *)
Definition scale_consistent (i : Instrument) : Prop :=
  pixel_scale i (fst (resolution (scope i))) (curr_mag i)
  = Done (pixels_per_mm (beam (scope i))).

(** ** image_processing.py *)

(** [np.asarray(Image.open(path))]: an array of shape (rows, columns), or
    of shape (rows, columns, channels) with [channels] values per
    pixel. *)
Inductive image : Type :=
| Plane (a : list (list Z))
| Channels (channels : nat) (a : list (list (list Z))).

(** Every pixel of the array has [channels] values. *)
Definition image_shape (channels : nat) (a : list (list (list Z))) : Prop :=
  Forall (Forall (fun px => List.length px = channels)) a.

(** [np.rint]: the nearest integer, a half going to the even one. *)
Definition np_rint (x : R) : Z :=
  let f := Int_part x in
  if Rlt_dec (x - IZR f) (1 / 2) then f
  else if Rlt_dec (1 / 2) (x - IZR f) then (f + 1)%Z
  else if Z.even f then f else (f + 1)%Z.

Definition rgb_weights : list R :=
  [2989 / 10000; 5870 / 10000; 1140 / 10000].

(** [np.dot] of a pixel with weights of the same length. *)
Fixpoint dot (px : list Z) (w : list R) : R :=
  match px, w with
  | p :: px', c :: w' => IZR p * c + dot px' w'
  | _, _ => 0
  end.

(** [image_open] on the array read from the file.  [img[..., :3]] keeps
    at most three channels, and [np.dot] raises [ValueError] unless three
    are left for the three weights. *)
Definition image_open (img : image) : outcome (list (list Z)) :=
  match img with
  | Channels c a =>
      if (Nat.min c 3 =? 3)%nat then
        Done (map (map (fun px => np_rint (dot (firstn 3 px) rgb_weights))) a)
      else Failed ValueError
  | Plane a => Done a
  end.

(** What [image_open] makes of a pixel of bytes: a byte, and the common
    value of the three colours when they agree. *)
Definition grey_of (px : list Z) (v : Z) : Prop :=
  (0 <= v <= 255)%Z /\
  (forall (t : Z) (rest : list Z), px = t :: t :: t :: rest -> v = t).

(** [instrument0] after the beam button was clicked: the beam on, the
    high-voltage timer running, the vent button disabled. *)
Definition instrument_on : Instrument :=
  set_hv instrument0 (with_hv (scope instrument0) true 0) true false.

(** ** beam_calculation.py: the kernel in binary64

    [gauss] and [beam_intensity] above read [np.exp] as the real
    exponential, which is never 0.  In binary64 [np.exp] returns 0.0 as
    soon as the exponential is at most [2^-1075], half the smallest
    subnormal number, and the division of a numpy array by a numpy float
    raises nothing: a zero divisor gives NaN for 0.0 and an infinity for
    anything else.  The definitions below keep these two facts of the
    float semantics and read every other operation as above; they are what
    decides whether the kernel can be normalised. *)

(** A binary64 value, as far as the division tells them apart. *)
Inductive float64 : Set :=
| Num (x : R)
| Inf (negative : bool)
| NaN.

(** [np.exp]: 0.0 on underflow. *)
Definition np_exp (x : R) : R :=
  if Rle_dec (exp x) (/ 2 ^ 1075) then 0 else exp x.

(** The inner function [gauss] with [np.exp]. *)
Definition gauss_float (b : Beam) (a : R) (i j : R) : R :=
  let c := INR (size b) / 2 in
  np_exp (- (j - c) ^ 2
            * (cos a ^ 2 / sigma2_x_px b + sin a ^ 2 / sigma2_y_px b)
          - (i - c) ^ 2
            * (sin a ^ 2 / sigma2_x_px b + cos a ^ 2 / sigma2_y_px b)
          + (i - c) * (j - c) * sin (2 * a)
            * (1 / sigma2_y_px b - 1 / sigma2_x_px b)).

Definition raw_gauss_float (b : Beam) (a : R) : list (list R) :=
  fromfunction (gauss_float b a) (size b) (size b).

(** [x / s] on numpy floats, [s] being a sum of values that are not
    negative, so that a zero [s] is [+0.0]. *)
Definition np_divide (x s : R) : float64 :=
  if Req_dec_T s 0 then
    if Req_dec_T x 0 then NaN
    else Inf (if Rlt_dec x 0 then true else false)
  else Num (x / s).

(** [raw_gauss / raw_gauss.sum()] *)
Definition normalise (k : list (list R)) : list (list float64) :=
  map (map (fun v => np_divide v (array_sum k))) k.

(** The property [beam_intensity] with [np.exp] and the division of
    numpy. *)
Definition beam_intensity_float (b : Beam) : result (list (list float64)) :=
  a <- astig_angle b ;;
  _ <- pydiv 1 (sigma2_y_px b) ;;
  _ <- pydiv 1 (sigma2_x_px b) ;;
  Ok (normalise (raw_gauss_float b a)).

(** Entry [(i, j)] of an array of floats. *)
Definition entry_float (k : list (list float64)) (i j : nat) : float64 :=
  nth j (nth i k []) NaN.

(** An array of real numbers as an array of floats. *)
Definition finite (k : list (list R)) : list (list float64) :=
  map (map Num) k.

(** A beam in focus, with a kernel of size [n]: the working distance is
    10, the focus slider stands at 9.75, the intrinsic astigmatism is 0.25
    on both axes, nothing is misaligned, the current is 1 and the scale
    that of the default magnification.  The defocus, -0.25, cancels the
    astigmatism, and both variances are the current term alone. *)
Definition beam_at_focus (n : nat) : Beam :=
  mkBeam 10 (256 / (5715 / 100) * 100) (1 / 4) (1 / 4) 0 0 (975 / 100)
    0 0 0 0 1 (1 / 100) n.

(** The microscope while it scans with the beam on: the voltage at 12 of
    15 kV, the beam [beam_drawn], speed 1, the contrast slider at 45 and
    the brightness slider at 100. *)
Definition microscope_lit : Microscope :=
  mkMicroscope (256, 192)%Z (zeros 256 192) true 0 1 true 15 12 beam_drawn
    true 10 "Stop scanning" 45 100.

(** * Facts *)

Section PythonNumbers.

Lemma pydiv_ok (x y : R) : y <> 0 -> pydiv x y = Ok (x / y).
Proof.
  intros Hy. unfold pydiv. destruct (Req_dec_T y 0); [contradiction | reflexivity].
Qed.

Lemma pydiv_zero (x y : R) : y = 0 -> pydiv x y = Raise ZeroDivisionError.
Proof.
  intros Hy. unfold pydiv. destruct (Req_dec_T y 0); [reflexivity | contradiction].
Qed.

Lemma py_int_truncates (x : R) : truncates x (py_int x).
Proof.
  unfold truncates, py_int.
  destruct (Rle_dec 0 x) as [Hx | Hx].
  - destruct (base_Int_part x) as [Hlo Hhi]. split; intros Hx'.
    + lra.
    + assert (Hz : Int_part x = 0%Z).
      { assert (H1 : (Int_part x < 1)%Z) by (apply lt_IZR; lra).
        assert (H2 : (-1 < Int_part x)%Z) by (apply lt_IZR; lra).
        lia. }
      rewrite Hz. lra.
  - destruct (base_Int_part (- x)) as [Hlo Hhi].
    rewrite opp_IZR. split; intros H; lra.
Qed.

Lemma clamp_signed_clamps (cap c : Z) :
  (0 <= cap)%Z -> clamps cap c (clamp_signed cap c).
Proof.
  intros Hcap. unfold clamps, clamp_signed.
  repeat split; intros H; destruct c; simpl in *; lia.
Qed.

Lemma clamp_signed_bound (cap c : Z) :
  (0 <= cap)%Z -> (Z.abs (clamp_signed cap c) <= cap)%Z.
Proof.
  intros Hcap. unfold clamp_signed.
  destruct c; simpl; lia.
Qed.

Lemma truncates_unique (x : R) (z1 z2 : Z) :
  truncates x z1 -> truncates x z2 -> z1 = z2.
Proof.
  intros [Hp1 Hn1] [Hp2 Hn2].
  assert (Hd : -1 < IZR z1 - IZR z2 < 1).
  { destruct (Rle_dec 0 x) as [Hx | Hx].
    - specialize (Hp1 Hx). specialize (Hp2 Hx). lra.
    - assert (Hx' : x <= 0) by lra.
      specialize (Hn1 Hx'). specialize (Hn2 Hx'). lra. }
  rewrite <- minus_IZR in Hd. destruct Hd as [Hlo Hhi].
  apply lt_IZR in Hlo. apply lt_IZR in Hhi. lia.
Qed.

(** [int(2.5)] is 2 and [int(-2.5)] is -2, not -3. *)
Example py_int_positive : py_int (5 / 2) = 2%Z.
Proof.
  apply (truncates_unique (5 / 2)); [apply py_int_truncates |].
  unfold truncates. split; intros H; lra.
Qed.

Example py_int_negative : py_int (- (5 / 2)) = (-2)%Z.
Proof.
  apply (truncates_unique (- (5 / 2))); [apply py_int_truncates |].
  unfold truncates. split; intros H; lra.
Qed.

Example clamp_signed_inside : clamp_signed 96 (-50) = (-50)%Z.
Proof. reflexivity. Qed.

Example clamp_signed_below : clamp_signed 96 (-22172) = (-96)%Z.
Proof. reflexivity. Qed.

Example clamp_signed_above : clamp_signed 49 120 = 49%Z.
Proof. reflexivity. Qed.

End PythonNumbers.

Section BeamCenter.

Lemma shift_px_ok (b : Beam) (num : R) :
  focus b <> 0 ->
  shift_px b num = Ok (num * defocus b / focus b * pixels_per_mm b).
Proof.
  intros Hf. unfold shift_px. rewrite (pydiv_ok _ _ Hf). reflexivity.
Qed.

Lemma center_x_zero_focus (b : Beam) :
  focus b = 0 -> center_x b = Raise ZeroDivisionError.
Proof.
  intros Hf. unfold center_x, shift_px. rewrite (pydiv_zero _ _ Hf). reflexivity.
Qed.

(** C3.  With a nonzero focus both centre shifts are returned; each is the
    product [(align - misalign) * defocus / focus * pixels_per_mm]
    truncated toward zero and then clamped in magnitude, to 96 for x and
    to 49 for y, the sign kept; so the magnitudes never exceed 96 and 49
    whatever the alignment, misalignment and defocus are. *)
Theorem center_truncated_and_clamped (b : Beam) (Hf : focus b <> 0) :
  exists c_x c_y r_x r_y : Z,
    truncates ((align_x b - misalign_x b) * defocus b / focus b
               * pixels_per_mm b) c_x /\
    truncates ((align_y b - misalign_y b) * defocus b / focus b
               * pixels_per_mm b) c_y /\
    center_x b = Ok r_x /\ center_y b = Ok r_y /\
    clamps 96 c_x r_x /\ clamps 49 c_y r_y /\
    (Z.abs r_x <= 96)%Z /\ (Z.abs r_y <= 49)%Z.
Proof.
  set (px := (align_x b - misalign_x b) * defocus b / focus b * pixels_per_mm b).
  set (py := (align_y b - misalign_y b) * defocus b / focus b * pixels_per_mm b).
  exists (py_int px), (py_int py),
    (clamp_signed 96 (py_int px)), (clamp_signed 49 (py_int py)).
  split; [apply py_int_truncates |].
  split; [apply py_int_truncates |].
  split.
  { unfold center_x. rewrite (shift_px_ok _ _ Hf). reflexivity. }
  split.
  { unfold center_y. rewrite (shift_px_ok _ _ Hf). reflexivity. }
  split; [apply clamp_signed_clamps; lia |].
  split; [apply clamp_signed_clamps; lia |].
  split; apply clamp_signed_bound; lia.
Qed.

Lemma center_truncated_and_clamped_witness :
  exists c_x c_y r_x r_y : Z,
    truncates ((align_x (with_align beam0 (1 / 2) (1 / 4))
                - misalign_x (with_align beam0 (1 / 2) (1 / 4)))
               * defocus (with_align beam0 (1 / 2) (1 / 4))
               / focus (with_align beam0 (1 / 2) (1 / 4))
               * pixels_per_mm (with_align beam0 (1 / 2) (1 / 4))) c_x /\
    truncates ((align_y (with_align beam0 (1 / 2) (1 / 4))
                - misalign_y (with_align beam0 (1 / 2) (1 / 4)))
               * defocus (with_align beam0 (1 / 2) (1 / 4))
               / focus (with_align beam0 (1 / 2) (1 / 4))
               * pixels_per_mm (with_align beam0 (1 / 2) (1 / 4))) c_y /\
    center_x (with_align beam0 (1 / 2) (1 / 4)) = Ok r_x /\
    center_y (with_align beam0 (1 / 2) (1 / 4)) = Ok r_y /\
    clamps 96 c_x r_x /\ clamps 49 c_y r_y /\
    (Z.abs r_x <= 96)%Z /\ (Z.abs r_y <= 49)%Z.
Proof.
  apply (center_truncated_and_clamped (with_align beam0 (1 / 2) (1 / 4))).
  simpl. lra.
Defined.

(** The alignment x slider at 100 drives the x shift to the negative cap. *)
Example center_x_at_cap :
  center_x (with_align beam0 (1 / 2) (1 / 4)) = Ok (-96)%Z.
Proof.
  set (b := with_align beam0 (1 / 2) (1 / 4)).
  assert (Hf : focus b <> 0) by (simpl; lra).
  unfold center_x. rewrite (shift_px_ok _ _ Hf).
  set (x := (align_x b - misalign_x b) * defocus b / focus b * pixels_per_mm b).
  assert (Hx : x < -97).
  { unfold x, defocus. simpl. lra. }
  destruct (py_int_truncates x) as [_ Hneg].
  destruct (Hneg ltac:(lra)) as [Hlo _].
  assert (Hc : (py_int x < -96)%Z).
  { apply lt_IZR. lra. }
  simpl. f_equal.
  destruct (clamp_signed_clamps 96 (py_int x) ltac:(lia)) as (_ & _ & Hlow).
  rewrite (Hlow ltac:(lia)). reflexivity.
Qed.

(** The documented defaults give no shift at all. *)
Example center_x_default : center_x beam0 = Ok 0%Z.
Proof.
  assert (Hf : focus beam0 <> 0) by (simpl; lra).
  unfold center_x. rewrite (shift_px_ok _ _ Hf).
  replace ((align_x beam0 - misalign_x beam0) * defocus beam0 / focus beam0
           * pixels_per_mm beam0) with 0 by (simpl; lra).
  unfold bind, py_int. destruct (Rle_dec 0 0) as [_ | H]; [| lra].
  assert (H0 : Int_part 0 = 0%Z) by (symmetry; apply Int_part_spec; lra).
  rewrite H0. reflexivity.
Qed.

End BeamCenter.

Section BeamAngle.

Lemma astig_angle_ok (b : Beam) :
  stigm_y b + astigm_y b <> 0 ->
  astig_angle b =
    Ok (atan ((stigm_x b + astigm_x b) / (stigm_y b + astigm_y b)) / 2).
Proof.
  intros Hd. unfold astig_angle. rewrite (pydiv_ok _ _ Hd). reflexivity.
Qed.

(** Whenever an angle is returned it lies strictly inside
    [(-pi/4, pi/4)]: the two ends are limits, never values. *)
Lemma astig_angle_open_range (b : Beam) (a : R) :
  astig_angle b = Ok a -> - (PI / 4) < a < PI / 4.
Proof.
  unfold astig_angle, pydiv.
  destruct (Req_dec_T (stigm_y b + astigm_y b) 0) as [Hz | Hnz]; simpl.
  - discriminate.
  - intros Ha. injection Ha as <-.
    pose proof (atan_bound ((stigm_x b + astigm_x b) / (stigm_y b + astigm_y b)))
      as [Hlo Hhi].
    lra.
Qed.

(** C8 (amended).  When [stigm_y + astigm_y] is exactly 0 the angle is not
    computed: the quotient of the two Python floats raises
    [ZeroDivisionError], whatever the numerator, and no guard catches it. *)
Theorem astig_angle_zero_denominator (b : Beam)
    (Hd : stigm_y b + astigm_y b = 0) :
  astig_angle b = Raise ZeroDivisionError.
Proof.
  unfold astig_angle. rewrite (pydiv_zero _ _ Hd). reflexivity.
Qed.

Lemma astig_angle_zero_denominator_witness :
  astig_angle beam_stigm_x = Raise ZeroDivisionError.
Proof.
  apply (astig_angle_zero_denominator beam_stigm_x).
  simpl. lra.
Defined.

(** C8 as stated fails: with [stigm_x = 0.5] and a zero y sum the
    numerator is positive and the denominator exactly 0, and yet no angle,
    in particular neither [pi/4] nor [-pi/4], is returned. *)
Lemma astig_angle_quarter_pi_counterexample :
  stigm_y beam_stigm_x + astigm_y beam_stigm_x = 0 /\
  0 < stigm_x beam_stigm_x + astigm_x beam_stigm_x /\
  ~ (exists a : R, astig_angle beam_stigm_x = Ok a /\
                   (a = PI / 4 \/ a = - (PI / 4))).
Proof.
  split; [simpl; lra |].
  split; [simpl; lra |].
  intros [a [Ha _]].
  assert (Hd : stigm_y beam_stigm_x + astigm_y beam_stigm_x = 0) by (simpl; lra).
  unfold astig_angle in Ha. rewrite (pydiv_zero _ _ Hd) in Ha.
  simpl in Ha. discriminate Ha.
Qed.

End BeamAngle.

Section BeamVariance.

Lemma current_floor_lower (b : Beam) :
  0 <= beam_current b -> / 10 ^ 16 / 4 <= current_floor b.
Proof.
  intros Hc. unfold current_floor.
  assert (H1 : 1 <= (1 + 100 * beam_current b) ^ 3).
  { apply pow_R1_Rle. lra. }
  assert (H2 : 0 < / 10 ^ 16).
  { apply Rinv_0_lt_compat. apply pow_lt. lra. }
  nra.
Qed.

Lemma current_floor_pos (b : Beam) : 0 <= beam_current b -> 0 < current_floor b.
Proof.
  intros Hc. pose proof (current_floor_lower b Hc) as H.
  assert (H2 : 0 < / 10 ^ 16).
  { apply Rinv_0_lt_compat. apply pow_lt. lra. }
  lra.
Qed.

Lemma sigma2_x_mm_pos (b : Beam) : 0 <= beam_current b -> 0 < sigma2_x_mm b.
Proof.
  intros Hc. unfold sigma2_x_mm.
  pose proof (current_floor_pos b Hc) as Hfl.
  match goal with |- 0 < ?u ^ 2 + _ => pose proof (pow2_ge_0 u) as Hsq end.
  lra.
Qed.

Lemma sigma2_y_mm_pos (b : Beam) : 0 <= beam_current b -> 0 < sigma2_y_mm b.
Proof.
  intros Hc. unfold sigma2_y_mm.
  pose proof (current_floor_pos b Hc) as Hfl.
  match goal with |- 0 < ?u ^ 2 + _ => pose proof (pow2_ge_0 u) as Hsq end.
  lra.
Qed.

Lemma sq_pos (x : R) : x <> 0 -> 0 < x ^ 2.
Proof. intros Hx. simpl. nra. Qed.

Lemma sigma2_x_px_pos (b : Beam) :
  0 <= beam_current b -> pixels_per_mm b <> 0 -> 0 < sigma2_x_px b.
Proof.
  intros Hc Hp. unfold sigma2_x_px.
  apply Rmult_lt_0_compat; [apply sigma2_x_mm_pos; exact Hc | apply sq_pos; exact Hp].
Qed.

Lemma sigma2_y_px_pos (b : Beam) :
  0 <= beam_current b -> pixels_per_mm b <> 0 -> 0 < sigma2_y_px b.
Proof.
  intros Hc Hp. unfold sigma2_y_px.
  apply Rmult_lt_0_compat; [apply sigma2_y_mm_pos; exact Hc | apply sq_pos; exact Hp].
Qed.

End BeamVariance.

Section Arrays.

Lemma row_sum_nil : row_sum [] = 0.
Proof. reflexivity. Qed.

Lemma row_sum_cons (v : R) (row : list R) : row_sum (v :: row) = v + row_sum row.
Proof. reflexivity. Qed.

Lemma row_sum_div (row : list R) (s : R) :
  row_sum (map (fun v => v / s) row) = row_sum row / s.
Proof.
  induction row as [| v row IH]; cbn [map].
  - rewrite row_sum_nil. unfold Rdiv. ring.
  - rewrite !row_sum_cons, IH. unfold Rdiv. ring.
Qed.

Lemma array_sum_div (k : list (list R)) (s : R) :
  array_sum (array_div k s) = array_sum k / s.
Proof.
  unfold array_sum, array_div.
  induction k as [| row k IH]; cbn [map].
  - rewrite row_sum_nil. unfold Rdiv. ring.
  - rewrite !row_sum_cons, IH, row_sum_div. unfold Rdiv. ring.
Qed.

Lemma row_sum_pos (row : list R) :
  row <> [] -> Forall (fun v => 0 < v) row -> 0 < row_sum row.
Proof.
  induction row as [| v row IH]; intros Hne Hall.
  - contradiction.
  - inversion Hall as [| ? ? Hv Hrest]; subst. rewrite row_sum_cons.
    destruct row as [| w row'].
    + rewrite row_sum_nil. lra.
    + assert (0 < row_sum (w :: row')) by (apply IH; [discriminate | exact Hrest]).
      lra.
Qed.

Lemma array_sum_pos (k : list (list R)) :
  k <> [] ->
  Forall (fun row => row <> [] /\ Forall (fun v => 0 < v) row) k ->
  0 < array_sum k.
Proof.
  intros Hne Hall. unfold array_sum. apply row_sum_pos.
  - destruct k; [contradiction | discriminate].
  - apply Forall_map. eapply Forall_impl; [| exact Hall].
    intros row [Hr Hp]. apply row_sum_pos; assumption.
Qed.

Lemma fromfunction_square (f : R -> R -> R) (n : nat) :
  square n (fromfunction f n n).
Proof.
  unfold square, fromfunction. split.
  - rewrite length_map, length_seq. reflexivity.
  - apply Forall_map. apply Forall_forall. intros i _.
    rewrite length_map, length_seq. reflexivity.
Qed.

Lemma array_div_square (n : nat) (k : list (list R)) (s : R) :
  square n k -> square n (array_div k s).
Proof.
  unfold square, array_div. intros [Hl Hrows]. split.
  - rewrite length_map. exact Hl.
  - apply Forall_map. eapply Forall_impl; [| exact Hrows].
    intros row Hrow. simpl. rewrite length_map. exact Hrow.
Qed.

Lemma entry_fromfunction (f : R -> R -> R) (n m i j : nat) :
  (i < n)%nat -> (j < m)%nat ->
  entry (fromfunction f n m) i j = f (INR i) (INR j).
Proof.
  intros Hi Hj. unfold entry, fromfunction.
  rewrite (nth_indep _ [] (map (fun j0 => f (INR 0) (INR j0)) (seq 0 m)))
    by (rewrite length_map, length_seq; exact Hi).
  rewrite (map_nth (fun i0 => map (fun j0 => f (INR i0) (INR j0)) (seq 0 m))
             (seq 0 n) 0%nat i).
  rewrite seq_nth by exact Hi. simpl Nat.add.
  rewrite (nth_indep _ 0 (f (INR i) (INR 0)))
    by (rewrite length_map, length_seq; exact Hj).
  rewrite (map_nth (fun j0 => f (INR i) (INR j0)) (seq 0 m) 0%nat j).
  rewrite seq_nth by exact Hj. reflexivity.
Qed.

Lemma entry_array_div (k : list (list R)) (s : R) (i j : nat) :
  entry (array_div k s) i j = entry k i j / s \/
  entry (array_div k s) i j = 0 /\ entry k i j = 0.
Proof.
  unfold entry, array_div.
  destruct (Nat.lt_ge_cases i (List.length k)) as [Hi | Hi].
  - rewrite (nth_indep _ [] (map (fun v => v / s) []))
      by (rewrite length_map; exact Hi).
    rewrite (map_nth (map (fun v => v / s)) k [] i).
    destruct (Nat.lt_ge_cases j (List.length (nth i k []))) as [Hj | Hj].
    + left. rewrite (nth_indep _ 0 (0 / s)) by (rewrite length_map; exact Hj).
      rewrite (map_nth (fun v => v / s) (nth i k []) 0 j). reflexivity.
    + right. split; apply nth_overflow; [rewrite length_map |]; exact Hj.
  - right. rewrite (nth_overflow (map _ k)) by (rewrite length_map; exact Hi).
    rewrite (nth_overflow k) by exact Hi. destruct j; split; reflexivity.
Qed.

End Arrays.

Section Kernel.

Lemma gauss_pos (b : Beam) (a i j : R) : 0 < gauss b a i j.
Proof. unfold gauss. apply exp_pos. Qed.

Lemma raw_gauss_square (b : Beam) (a : R) : square (size b) (raw_gauss b a).
Proof. apply fromfunction_square. Qed.

Lemma raw_gauss_rows (b : Beam) (a : R) :
  (0 < size b)%nat ->
  Forall (fun row => row <> [] /\ Forall (fun v => 0 < v) row) (raw_gauss b a).
Proof.
  intros Hn. unfold raw_gauss, fromfunction.
  apply Forall_map. apply Forall_forall. intros i _. split.
  - destruct (size b) as [| n]; [lia | discriminate].
  - apply Forall_map. apply Forall_forall. intros j _. apply gauss_pos.
Qed.

Lemma raw_gauss_sum_pos (b : Beam) (a : R) :
  (0 < size b)%nat -> 0 < array_sum (raw_gauss b a).
Proof.
  intros Hn. apply array_sum_pos.
  - unfold raw_gauss, fromfunction. destruct (size b) as [| n]; [lia | discriminate].
  - apply raw_gauss_rows. exact Hn.
Qed.

Lemma beam_intensity_ok (b : Beam) :
  stigm_y b + astigm_y b <> 0 ->
  sigma2_x_px b <> 0 -> sigma2_y_px b <> 0 ->
  beam_intensity b =
    Ok (let a := atan ((stigm_x b + astigm_x b) / (stigm_y b + astigm_y b)) / 2 in
        array_div (raw_gauss b a) (array_sum (raw_gauss b a))).
Proof.
  intros Hd Hx Hy. unfold beam_intensity.
  rewrite (astig_angle_ok _ Hd), (pydiv_ok _ _ Hx), (pydiv_ok _ _ Hy).
  reflexivity.
Qed.

Lemma beam_round_valid : valid beam_round.
Proof. unfold valid. simpl. repeat split; lra. Qed.

End Kernel.

Section KernelSymmetry.

Lemma array_div_fromfunction (f : R -> R -> R) (n m : nat) (s : R) :
  array_div (fromfunction f n m) s = fromfunction (fun x y => f x y / s) n m.
Proof.
  unfold array_div, fromfunction. rewrite map_map.
  apply map_ext. intros i. rewrite map_map. reflexivity.
Qed.

Lemma entry_kernel (b : Beam) (a s : R) (i j : nat) :
  (i < size b)%nat -> (j < size b)%nat ->
  entry (array_div (raw_gauss b a) s) i j = gauss b a (INR i) (INR j) / s.
Proof.
  intros Hi Hj. unfold raw_gauss. rewrite array_div_fromfunction.
  rewrite entry_fromfunction by assumption. reflexivity.
Qed.





(** Equal variances are needed: with the angle defined and the variances
    different, the entries at [(32, 33)] and [(33, 32)] of the 64 by 64
    kernel differ. *)
Lemma beam_intensity_not_symmetric :
  exists k : list (list R),
    beam_intensity beam_stigm_y = Ok k /\ entry k 32 33 <> entry k 33 32.
Proof.
  set (b := beam_stigm_y).
  assert (Hc : 0 <= beam_current b) by (simpl; lra).
  assert (Hp : pixels_per_mm b <> 0) by (simpl; lra).
  assert (Hd : stigm_y b + astigm_y b <> 0) by (simpl; lra).
  pose proof (sigma2_x_px_pos b Hc Hp) as Hx.
  pose proof (sigma2_y_px_pos b Hc Hp) as Hy.
  rewrite (beam_intensity_ok b Hd) by lra. cbv zeta.
  eexists. split; [reflexivity |].
  replace ((stigm_x b + astigm_x b) / (stigm_y b + astigm_y b)) with 0
    by (simpl; field).
  rewrite atan_0. replace (0 / 2) with 0 by field.
  rewrite !entry_kernel by (simpl; lia).
  pose proof (raw_gauss_sum_pos b 0 ltac:(simpl; lia)) as Hs.
  set (s := array_sum (raw_gauss b 0)) in *.
  assert (Hlt : sigma2_y_px b < sigma2_x_px b).
  { unfold sigma2_y_px, sigma2_x_px.
    apply Rmult_lt_compat_r; [apply sq_pos; exact Hp |].
    unfold sigma2_y_mm, sigma2_x_mm, defocus. simpl.
    replace (0 - 0) with 0 by ring.
    replace (0 + 0) with 0 by ring. rewrite Rabs_R0.
    replace (3 / 10 + 0) with (3 / 10) by ring.
    rewrite (Rabs_pos_eq (3 / 10)) by lra.
    apply Rplus_lt_compat_r. nra. }
  assert (Hg : gauss b 0 (INR 33) (INR 32) < gauss b 0 (INR 32) (INR 33)).
  { unfold gauss. apply exp_increasing.
    replace (INR (size b) / 2) with (INR 32) by (simpl; lra).
    replace (INR 33) with (INR 32 + 1) by (simpl; lra).
    replace (2 * 0) with 0 by ring. rewrite sin_0, cos_0.
    assert (Hi : / sigma2_x_px b < / sigma2_y_px b).
    { apply Rinv_lt_contravar; [apply Rmult_lt_0_compat; assumption | exact Hlt]. }
    unfold Rdiv. ring_simplify. lra. }
  intros Heq. apply (Rmult_eq_compat_r s) in Heq.
  unfold Rdiv in Heq. rewrite !Rmult_assoc, Rinv_l, !Rmult_1_r in Heq by lra.
  lra.
Qed.

End KernelSymmetry.

Section FrameAssignment.

Lemma assign_range_length (row : list R) (a b : nat) (v : nat -> R) :
  (a <= b <= List.length row)%nat ->
  List.length (assign_range row a b v) = List.length row.
Proof.
  intros Hab. unfold assign_range.
  rewrite !length_app, length_firstn, length_map, length_seq, length_skipn.
  lia.
Qed.

Lemma assign_range_inside (row : list R) (a b c : nat) (v : nat -> R) :
  (a <= b <= List.length row)%nat -> (a <= c < b)%nat ->
  nth c (assign_range row a b v) 0 = v (c - a)%nat.
Proof.
  intros Hab Hc. unfold assign_range.
  assert (Hlen : List.length (firstn a row) = a)
    by (rewrite length_firstn; lia).
  rewrite app_nth2 by lia. rewrite Hlen.
  rewrite app_nth1 by (rewrite length_map, length_seq; lia).
  rewrite (nth_indep _ 0 (v 0%nat)) by (rewrite length_map, length_seq; lia).
  rewrite (map_nth v (seq 0 (b - a)) 0%nat (c - a)).
  rewrite seq_nth by lia. reflexivity.
Qed.

Lemma assign_range_outside (row : list R) (a b c : nat) (v : nat -> R) :
  (a <= b <= List.length row)%nat -> ~ (a <= c < b)%nat ->
  nth c (assign_range row a b v) 0 = nth c row 0.
Proof.
  intros Hab Hc. unfold assign_range.
  assert (Hlen : List.length (firstn a row) = a)
    by (rewrite length_firstn; lia).
  destruct (Nat.lt_ge_cases c a) as [Hlt | Hge].
  - rewrite app_nth1 by lia. rewrite nth_firstn.
    apply Nat.ltb_lt in Hlt. rewrite Hlt. reflexivity.
  - assert (Hcb : (b <= c)%nat) by lia.
    rewrite app_nth2 by lia. rewrite Hlen.
    rewrite app_nth2 by (rewrite length_map, length_seq; lia).
    rewrite length_map, length_seq.
    rewrite nth_skipn. f_equal. lia.
Qed.

Lemma assign_rows_length (f : list (list R)) (r0 a b : nat)
    (v : nat -> nat -> R) :
  List.length (assign_rows r0 f a b v) = List.length f.
Proof.
  revert r0. induction f as [| row f IH]; intros r0; simpl.
  - reflexivity.
  - rewrite IH. reflexivity.
Qed.

Lemma assign_rows_nth (f : list (list R)) (r0 r a b : nat)
    (v : nat -> nat -> R) :
  (r < List.length f)%nat ->
  nth r (assign_rows r0 f a b v) [] =
  assign_range (nth r f []) a b (v (r0 + r)%nat).
Proof.
  revert r0 r. induction f as [| row f IH]; intros r0 r Hr; simpl in Hr.
  - lia.
  - destruct r as [| r']; simpl.
    + rewrite Nat.add_0_r. reflexivity.
    + rewrite IH by lia. f_equal. f_equal. lia.
Qed.

Lemma assign_rows_shape (f : list (list R)) (r0 a b h : nat)
    (v : nat -> nat -> R) :
  (a <= b <= h)%nat ->
  Forall (fun row => List.length row = h) f ->
  Forall (fun row => List.length row = h) (assign_rows r0 f a b v).
Proof.
  intros Hab. revert r0. induction f as [| row f IH]; intros r0 Hall; simpl.
  - constructor.
  - inversion Hall as [| ? ? Hrow Hrest]; subst. constructor.
    + rewrite assign_range_length by lia. reflexivity.
    + apply IH. exact Hrest.
Qed.

(** [frame[:, a:b] = v] sets the columns from [a] to [b - 1] to [v] and
    leaves every other entry as it was. *)
Lemma assign_columns_entry (f : list (list R)) (w h : nat) (a b : Z)
    (v : nat -> nat -> R) (r c : nat) :
  List.length f = w -> Forall (fun row => List.length row = h) f ->
  (0 <= a <= b)%Z -> (b <= Z.of_nat h)%Z ->
  (r < w)%nat ->
  entry (assign_columns f a b v) r c =
    if ((a <=? Z.of_nat c) && (Z.of_nat c <? b))%Z%bool
    then v r (c - Z.to_nat a)%nat
    else entry f r c.
Proof.
  intros Hw Hrows Hab Hbh Hr. unfold entry, assign_columns.
  rewrite assign_rows_nth by lia. simpl Nat.add.
  assert (Hrow : List.length (nth r f []) = h).
  { rewrite Forall_forall in Hrows. apply Hrows. apply nth_In. lia. }
  destruct ((a <=? Z.of_nat c) && (Z.of_nat c <? b))%Z%bool eqn:Hin.
  - apply andb_prop in Hin. destruct Hin as [H1 H2].
    apply Z.leb_le in H1. apply Z.ltb_lt in H2.
    apply assign_range_inside; lia.
  - apply assign_range_outside; [lia |].
    intros [H1 H2].
    assert (Htrue : ((a <=? Z.of_nat c) && (Z.of_nat c <? b))%Z%bool = true).
    { apply andb_true_intro. split; [apply Z.leb_le | apply Z.ltb_lt]; lia. }
    rewrite Htrue in Hin. discriminate Hin.
Qed.

End FrameAssignment.

Section ScanTick.

Variable convT : convolved.
Variable rand : nat -> nat -> R.

Lemma center_x_ok (b : Beam) :
  focus b <> 0 -> center_x b = Ok (center_x_value b).
Proof.
  intros Hf. unfold center_x. rewrite (shift_px_ok _ _ Hf). reflexivity.
Qed.

Lemma center_y_ok (b : Beam) :
  focus b <> 0 -> center_y b = Ok (center_y_value b).
Proof.
  intros Hf. unfold center_y. rewrite (shift_px_ok _ _ Hf). reflexivity.
Qed.

Lemma beam_intensity_valid (b : Beam) :
  valid b -> beam_intensity b = Ok (beam_intensity_value b).
Proof.
  intros (Hc & Hp & Hd).
  pose proof (sigma2_x_px_pos b Hc Hp) as Hx.
  pose proof (sigma2_y_px_pos b Hc Hp) as Hy.
  rewrite (beam_intensity_ok b Hd) by lra. reflexivity.
Qed.

Lemma sqrt_speed_nonzero (m : Microscope) :
  (1 <= speed m)%Z -> sqrt (IZR (speed m)) <> 0.
Proof.
  intros Hs. assert (H1 : 1 <= IZR (speed m)) by (apply IZR_le; exact Hs).
  pose proof (sqrt_lt_R0 (IZR (speed m)) ltac:(lra)). lra.
Qed.

(** In an operable state the right-hand side is evaluated to the slice
    [slice_value]. *)
Lemma slice_ok (m : Microscope) :
  operable m -> slice m convT rand = Ok (slice_value m convT rand).
Proof.
  intros (Hhv & Hf & Hv & Hs). unfold slice.
  rewrite (pydiv_ok _ _ Hhv), (center_y_ok _ Hf), (center_x_ok _ Hf),
    (beam_intensity_valid _ Hv), (pydiv_ok _ _ (sqrt_speed_nonzero m Hs)).
  reflexivity.
Qed.

Lemma scanning_full (m : Microscope) :
  operable m ->
  (line m < snd (resolution m) - 1 - step_of m)%Z ->
  scanning convT rand m =
    Ok (set_frame_line m
          (assign_columns (frame m) (line m) (line m + step_of m)
             (slice_value m convT rand))
          (line m + step_of m)%Z).
Proof.
  intros Hop H. unfold scanning. apply Z.ltb_lt in H. rewrite H.
  rewrite (slice_ok m Hop). reflexivity.
Qed.

Lemma scanning_last (m : Microscope) :
  operable m ->
  (snd (resolution m) - 1 - step_of m <= line m)%Z ->
  (line m < snd (resolution m) - 1)%Z ->
  scanning convT rand m =
    Ok (set_frame_line m
          (assign_columns (frame m) (line m) (snd (resolution m))
             (slice_value m convT rand))
          (line m + step_of m)%Z).
Proof.
  intros Hop H1 H2. unfold scanning.
  apply Z.ltb_ge in H1. rewrite H1. apply Z.ltb_lt in H2. rewrite H2.
  rewrite (slice_ok m Hop). reflexivity.
Qed.

Lemma scanning_reset (m : Microscope) :
  (snd (resolution m) - 1 <= line m)%Z -> (0 <= step_of m)%Z ->
  scanning convT rand m = Ok (set_frame_line m (frame m) 0%Z).
Proof.
  intros H1 H2. unfold scanning.
  assert (H3 : (snd (resolution m) - 1 - step_of m <= line m)%Z) by lia.
  apply Z.ltb_ge in H3. rewrite H3. apply Z.ltb_ge in H1. rewrite H1.
  reflexivity.
Qed.

Lemma set_frame_line_settings (m : Microscope) (f : list (list R)) (l : Z) :
  same_settings m (set_frame_line m f l).
Proof. unfold same_settings. repeat split; reflexivity. Qed.

(** A tick touches [frame] and [line] only. *)
Lemma scanning_keeps (m m' : Microscope) :
  scanning convT rand m = Ok m' -> same_settings m m'.
Proof.
  unfold scanning.
  destruct (line m <? snd (resolution m) - 1 - step_of m)%Z;
    [| destruct (line m <? snd (resolution m) - 1)%Z].
  - destruct (slice m convT rand) as [v | e]; simpl; intros H;
      [injection H as <- | discriminate H].
    apply set_frame_line_settings.
  - destruct (slice m convT rand) as [v | e]; simpl; intros H;
      [injection H as <- | discriminate H].
    apply set_frame_line_settings.
  - intros H. injection H as <-. apply set_frame_line_settings.
Qed.

Lemma scanning_line (m m' : Microscope) :
  (0 <= step_of m)%Z ->
  scanning convT rand m = Ok m' ->
  line m' = if (line m <? snd (resolution m) - 1)%Z
            then (line m + step_of m)%Z else 0%Z.
Proof.
  intros Hstep. unfold scanning.
  destruct (line m <? snd (resolution m) - 1 - step_of m)%Z eqn:H1;
    [| destruct (line m <? snd (resolution m) - 1)%Z eqn:H2].
  - destruct (slice m convT rand) as [v | e]; simpl; intros H;
      [injection H as <- | discriminate H].
    simpl line.
    assert (H2 : (line m <? snd (resolution m) - 1)%Z = true).
    { apply Z.ltb_lt. apply Z.ltb_lt in H1. lia. }
    rewrite H2. reflexivity.
  - destruct (slice m convT rand) as [v | e]; simpl; intros H;
      [injection H as <- | discriminate H].
    reflexivity.
  - intros H. injection H as <-. reflexivity.
Qed.

Lemma written_cases (m : Microscope) :
  ((line m < snd (resolution m) - 1 - step_of m)%Z ->
     written m = Some (line m, (line m + step_of m)%Z)) /\
  ((snd (resolution m) - 1 - step_of m <= line m)%Z ->
   (line m < snd (resolution m) - 1)%Z ->
     written m = Some (line m, snd (resolution m))) /\
  ((snd (resolution m) - 1 <= line m)%Z -> (0 <= step_of m)%Z ->
     written m = None).
Proof.
  unfold written. repeat split.
  - intros H. apply Z.ltb_lt in H. rewrite H. reflexivity.
  - intros H1 H2. apply Z.ltb_ge in H1. rewrite H1.
    apply Z.ltb_lt in H2. rewrite H2. reflexivity.
  - intros H1 H2.
    assert (H3 : (snd (resolution m) - 1 - step_of m <= line m)%Z) by lia.
    apply Z.ltb_ge in H3. rewrite H3. apply Z.ltb_ge in H1. rewrite H1.
    reflexivity.
Qed.

Lemma written_in_frame (m : Microscope) (a b : Z) :
  (0 <= line m)%Z -> (1 <= step_of m)%Z ->
  written m = Some (a, b) ->
  a = line m /\ (0 <= a < b)%Z /\ (b <= snd (resolution m))%Z.
Proof.
  intros Hline Hstep. unfold written.
  destruct (line m <? snd (resolution m) - 1 - step_of m)%Z eqn:H1;
    [| destruct (line m <? snd (resolution m) - 1)%Z eqn:H2];
    intros Hw; try discriminate Hw; injection Hw as <- <-.
  - apply Z.ltb_lt in H1. lia.
  - apply Z.ltb_lt in H2. lia.
Qed.

(** The frame after a tick, entry by entry, against the range [written]
    names. *)
Lemma scanning_entries (m : Microscope) :
  frame_shape m -> (0 <= line m)%Z -> (1 <= step_of m)%Z -> operable m ->
  exists m' : Microscope,
    scanning convT rand m = Ok m' /\
    match written m with
    | Some (a, b) =>
        forall r c : nat,
          (r < Z.to_nat (fst (resolution m)))%nat ->
          entry (frame m') r c =
            if ((a <=? Z.of_nat c) && (Z.of_nat c <? b))%Z%bool
            then slice_value m convT rand r (c - Z.to_nat a)%nat
            else entry (frame m) r c
    | None => frame m' = frame m
    end.
Proof.
  intros [Hw Hrows] Hline Hstep Hop.
  destruct (written_cases m) as (Hfull & Hlast & Hreset).
  destruct (Z_lt_ge_dec (line m) (snd (resolution m) - 1 - step_of m)) as [H1 | H1].
  - eexists. split; [apply (scanning_full m Hop H1) |].
    rewrite (Hfull H1). simpl frame. intros r c Hr.
    apply (assign_columns_entry (frame m) (Z.to_nat (fst (resolution m)))
             (Z.to_nat (snd (resolution m))));
      try assumption; lia.
  - destruct (Z_lt_ge_dec (line m) (snd (resolution m) - 1)) as [H2 | H2].
    + eexists. split; [apply (scanning_last m Hop ltac:(lia) H2) |].
      rewrite (Hlast ltac:(lia) H2). simpl frame. intros r c Hr.
      apply (assign_columns_entry (frame m) (Z.to_nat (fst (resolution m)))
               (Z.to_nat (snd (resolution m))));
        try assumption; lia.
    + eexists. split; [apply (scanning_reset m ltac:(lia) ltac:(lia)) |].
      rewrite (Hreset ltac:(lia) ltac:(lia)). reflexivity.
Qed.

Lemma scanning_shape (m m' : Microscope) :
  frame_shape m -> (0 <= line m)%Z -> (0 <= step_of m)%Z ->
  scanning convT rand m = Ok m' -> frame_shape m'.
Proof.
  intros [Hw Hrows] Hline Hstep Hrun. unfold frame_shape.
  destruct (scanning_keeps m m' Hrun) as (Hres & _). rewrite Hres.
  revert Hrun. unfold scanning.
  destruct (line m <? snd (resolution m) - 1 - step_of m)%Z eqn:H1;
    [| destruct (line m <? snd (resolution m) - 1)%Z eqn:H2].
  - destruct (slice m convT rand) as [v | e]; simpl; intros H;
      [injection H as <- | discriminate H].
    apply Z.ltb_lt in H1. simpl frame. unfold assign_columns. split.
    + rewrite assign_rows_length. exact Hw.
    + apply assign_rows_shape; [lia | exact Hrows].
  - destruct (slice m convT rand) as [v | e]; simpl; intros H;
      [injection H as <- | discriminate H].
    apply Z.ltb_lt in H2. simpl frame. unfold assign_columns. split.
    + rewrite assign_rows_length. exact Hw.
    + apply assign_rows_shape; [lia | exact Hrows].
  - intros H. injection H as <-. split; assumption.
Qed.

End ScanTick.

Section ScanRuns.

Variable cT : nat -> convolved.
Variable rd : nat -> nat -> nat -> R.

Lemma same_settings_refl (m : Microscope) : same_settings m m.
Proof. unfold same_settings. repeat split; reflexivity. Qed.

Lemma same_settings_trans (m1 m2 m3 : Microscope) :
  same_settings m1 m2 -> same_settings m2 m3 -> same_settings m1 m3.
Proof.
  unfold same_settings.
  intros (A1 & A2 & A3 & A4 & A5 & A6 & A7 & A8 & A9)
         (B1 & B2 & B3 & B4 & B5 & B6 & B7 & B8 & B9).
  repeat split; congruence.
Qed.

Lemma same_settings_step (m m' : Microscope) :
  same_settings m m' ->
  step_of m' = step_of m /\ snd (resolution m') = snd (resolution m).
Proof.
  intros (A1 & A2 & _). unfold step_of. rewrite A1, A2. split; reflexivity.
Qed.

Lemma same_settings_operable (m m' : Microscope) :
  same_settings m m' -> operable m -> operable m'.
Proof.
  intros (_ & A2 & _ & _ & _ & _ & _ & A8 & A9). unfold operable.
  rewrite A2, A8, A9. tauto.
Qed.

Lemma ticks_S (m : Microscope) (n : nat) :
  ticks cT rd (S n) m = (m' <- ticks cT rd n m ;; scanning (cT n) (rd n) m').
Proof. reflexivity. Qed.

Lemma ticks_keeps (n : nat) (m m' : Microscope) :
  ticks cT rd n m = Ok m' -> same_settings m m'.
Proof.
  revert m'. induction n as [| n IH]; intros m' Hrun.
  - injection Hrun as <-. apply same_settings_refl.
  - rewrite ticks_S in Hrun.
    destruct (ticks cT rd n m) as [mn | e]; simpl in Hrun; [| discriminate Hrun].
    eapply same_settings_trans; [apply IH; reflexivity |].
    eapply scanning_keeps. exact Hrun.
Qed.

Lemma reachable_ticks (n : nat) (m m' : Microscope) :
  ticks cT rd n m = Ok m' -> reachable m m'.
Proof.
  revert m'. induction n as [| n IH]; intros m' Hrun.
  - injection Hrun as <-. apply reach_start.
  - rewrite ticks_S in Hrun.
    destruct (ticks cT rd n m) as [mn | e]; simpl in Hrun; [| discriminate Hrun].
    eapply reach_tick; [apply IH; reflexivity | exact Hrun].
Qed.

(** While [n] steps fit below the last column the ticks all take the
    first branch: they run, the line is [n * step], and the columns from
    there on are still as they were. *)
Lemma ticks_full_phase (m : Microscope) (n : nat) :
  frame_shape m -> line m = 0%Z -> (1 <= step_of m)%Z -> operable m ->
  (Z.of_nat n * step_of m < snd (resolution m) - 1)%Z ->
  exists m' : Microscope,
    ticks cT rd n m = Ok m' /\
    line m' = (Z.of_nat n * step_of m)%Z /\
    frame_shape m' /\
    forall r c : nat,
      (r < Z.to_nat (fst (resolution m)))%nat ->
      (Z.of_nat n * step_of m <= Z.of_nat c)%Z ->
      entry (frame m') r c = entry (frame m) r c.
Proof.
  intros Hshape H0 Hstep Hop. induction n as [| n IH]; intros Hfit.
  - exists m. split; [reflexivity |]. split; [simpl; lia |].
    split; [exact Hshape |]. reflexivity.
  - destruct IH as (mn & Hrun & Hline & Hsh & Hent); [lia |].
    pose proof (ticks_keeps n m mn Hrun) as Hkeep.
    destruct (same_settings_step _ _ Hkeep) as [Hst Hh].
    pose proof (same_settings_operable _ _ Hkeep Hop) as Hopn.
    destruct Hkeep as (Hres & _).
    assert (Hfull : (line mn < snd (resolution mn) - 1 - step_of mn)%Z).
    { rewrite Hline, Hh, Hst. lia. }
    destruct (scanning_entries (cT n) (rd n) mn Hsh ltac:(lia) ltac:(lia) Hopn)
      as (m' & Hrun' & He).
    exists m'. split.
    { rewrite ticks_S, Hrun. exact Hrun'. }
    split.
    { rewrite (scanning_line _ _ mn m' ltac:(lia) Hrun').
      assert (H2 : (line mn <? snd (resolution mn) - 1)%Z = true)
        by (apply Z.ltb_lt; lia).
      rewrite H2, Hline, Hst. lia. }
    split.
    { apply (scanning_shape (cT n) (rd n) mn m'); [exact Hsh | lia | lia | exact Hrun']. }
    intros r c Hr Hc.
    destruct (written_cases mn) as (Hw & _). rewrite (Hw Hfull) in He.
    rewrite He by (rewrite Hres; exact Hr).
    assert (Hout : ((line mn <=? Z.of_nat c)
                    && (Z.of_nat c <? line mn + step_of mn))%Z%bool = false).
    { apply Bool.andb_false_iff. right. apply Z.ltb_ge. rewrite Hline, Hst. lia. }
    rewrite Hout. apply Hent; [exact Hr | lia].
Qed.

Lemma reachable_keeps (m0 m : Microscope) :
  reachable m0 m -> same_settings m0 m.
Proof.
  induction 1 as [| m m' convT rand Hreach IH Hrun].
  - apply same_settings_refl.
  - eapply same_settings_trans; [exact IH |].
    eapply scanning_keeps. exact Hrun.
Qed.

(** Along any run from line 0 the line stays between 0 and
    [height + step - 2]. *)
Lemma reachable_line_range (m0 m : Microscope) :
  reachable m0 m ->
  line m0 = 0%Z -> (1 <= step_of m0)%Z -> (1 <= snd (resolution m0))%Z ->
  (0 <= line m <= snd (resolution m0) + step_of m0 - 2)%Z.
Proof.
  intros Hreach H0 Hstep Hh.
  induction Hreach as [| m m' convT rand Hreach IH Hrun].
  - lia.
  - pose proof (reachable_keeps _ _ Hreach) as Hkeep.
    destruct (same_settings_step _ _ Hkeep) as [Hst Hhm].
    rewrite (scanning_line convT rand m m' ltac:(lia) Hrun).
    destruct (line m <? snd (resolution m) - 1)%Z eqn:H2.
    + apply Z.ltb_lt in H2. lia.
    + lia.
Qed.

Lemma zeros_shape (w h : Z) (m : Microscope) :
  (0 <= w)%Z -> (0 <= h)%Z ->
  resolution m = (w, h) -> frame m = zeros (Z.to_nat w) (Z.to_nat h) ->
  frame_shape m.
Proof.
  intros Hw Hh Hres Hf. unfold frame_shape. rewrite Hres, Hf. simpl fst. simpl snd.
  unfold zeros. split.
  - apply repeat_length.
  - apply Forall_forall. intros row Hin. apply repeat_spec in Hin. subst row.
    apply repeat_length.
Qed.

Lemma entry_zeros (w h r c : nat) : entry (zeros w h) r c = 0.
Proof.
  unfold entry, zeros.
  destruct (Nat.lt_ge_cases r w) as [Hr | Hr].
  - rewrite (nth_indep _ [] (repeat 0 h)) by (rewrite repeat_length; exact Hr).
    rewrite nth_repeat.
    destruct (Nat.lt_ge_cases c h) as [Hc | Hc].
    + apply nth_repeat.
    + apply nth_overflow. rewrite repeat_length. exact Hc.
  - rewrite (nth_overflow (repeat (repeat 0 h) w)) by (rewrite repeat_length; exact Hr).
    destruct c; reflexivity.
Qed.

(** The line alone, for which the shape of the frame does not matter. *)
Lemma ticks_line_full (m : Microscope) (n : nat) :
  line m = 0%Z -> (1 <= step_of m)%Z -> operable m ->
  (Z.of_nat n * step_of m < snd (resolution m) - 1)%Z ->
  exists m' : Microscope,
    ticks cT rd n m = Ok m' /\ line m' = (Z.of_nat n * step_of m)%Z.
Proof.
  intros H0 Hstep Hop. induction n as [| n IH]; intros Hfit.
  - exists m. split; [reflexivity | simpl; lia].
  - destruct IH as (mn & Hrun & Hline); [lia |].
    pose proof (ticks_keeps n m mn Hrun) as Hkeep.
    destruct (same_settings_step _ _ Hkeep) as [Hst Hh].
    pose proof (same_settings_operable _ _ Hkeep Hop) as Hopn.
    eexists. split.
    + rewrite ticks_S, Hrun.
      apply (scanning_full (cT n) (rd n) mn Hopn). rewrite Hline, Hst, Hh. lia.
    + cbn [line set_frame_line]. rewrite Hline, Hst. lia.
Qed.

(** The lines of one cycle at step 10 over 192 columns. *)
Lemma ticks_line_profile (m : Microscope) :
  operable m ->
  line m = 0%Z -> speed m = 1%Z -> snd (resolution m) = 192%Z ->
  (forall k : nat, (k <= 19)%nat ->
     exists mk : Microscope,
       ticks cT rd k m = Ok mk /\ line mk = (10 * Z.of_nat k)%Z) /\
  (exists m20 : Microscope,
     ticks cT rd 20 m = Ok m20 /\ line m20 = 200%Z) /\
  (exists m21 : Microscope,
     ticks cT rd 21 m = Ok m21 /\ line m21 = 0%Z).
Proof.
  intros Hop H0 Hsp Hh.
  assert (Hstep : step_of m = 10%Z) by (unfold step_of; lia).
  assert (Hfull : forall k : nat, (k <= 19)%nat ->
            exists mk : Microscope,
              ticks cT rd k m = Ok mk /\ line mk = (10 * Z.of_nat k)%Z).
  { intros k Hk.
    destruct (ticks_line_full m k H0 ltac:(lia) Hop ltac:(lia))
      as (mk & Hrun & Hl).
    exists mk. split; [exact Hrun | lia]. }
  split; [exact Hfull |].
  destruct (Hfull 19%nat (Nat.le_refl 19)) as (m19 & Hrun19 & H19).
  change (10 * Z.of_nat 19)%Z with 190%Z in H19.
  pose proof (ticks_keeps 19 m m19 Hrun19) as Hkeep19.
  destruct (same_settings_step _ _ Hkeep19) as [Hst19 Hh19].
  pose proof (same_settings_operable _ _ Hkeep19 Hop) as Hop19.
  pose proof (scanning_last (cT 19%nat) (rd 19%nat) m19 Hop19
                ltac:(lia) ltac:(lia)) as Hrun20.
  set (m20 := set_frame_line m19
                (assign_columns (frame m19) (line m19)
                   (snd (resolution m19))
                   (slice_value m19 (cT 19%nat) (rd 19%nat)))
                (line m19 + step_of m19)%Z) in *.
  assert (Ht20 : ticks cT rd 20 m = Ok m20).
  { rewrite (ticks_S m 19), Hrun19. exact Hrun20. }
  assert (H20 : line m20 = 200%Z).
  { unfold m20. cbn [line set_frame_line]. lia. }
  split.
  { exists m20. split; assumption. }
  pose proof (ticks_keeps 20 m m20 Ht20) as Hkeep20.
  destruct (same_settings_step _ _ Hkeep20) as [Hst20 Hh20].
  exists (set_frame_line m20 (frame m20) 0%Z). split; [| reflexivity].
  rewrite (ticks_S m 20), Ht20.
  apply (scanning_reset (cT 20%nat) (rd 20%nat) m20); lia.
Qed.

(** The ranges written during one cycle at step 10 over 192 columns. *)
Lemma written_at (m mk : Microscope) (k : nat) :
  speed m = 1%Z -> snd (resolution m) = 192%Z ->
  ticks cT rd k m = Ok mk ->
  written mk =
    if (line mk <? 181)%Z then Some (line mk, (line mk + 10)%Z)
    else if (line mk <? 191)%Z then Some (line mk, 192%Z) else None.
Proof.
  intros Hsp Hh Hrun.
  pose proof (ticks_keeps k m mk Hrun) as Hkeep.
  destruct (same_settings_step _ _ Hkeep) as [Hst Hhn].
  assert (Hstep : step_of m = 10%Z) by (unfold step_of; lia).
  unfold written. rewrite Hst, Hhn, Hstep, Hh. reflexivity.
Qed.

End ScanRuns.

Section StartStop.

Lemma start_stop_line (m : Microscope) : line (start_stop m) = line m.
Proof. unfold start_stop. destruct (scan_active m); reflexivity. Qed.

Lemma start_stop_frame (m : Microscope) : frame (start_stop m) = frame m.
Proof. unfold start_stop. destruct (scan_active m); reflexivity. Qed.

Lemma start_stop_active (m : Microscope) :
  scan_active (start_stop m) = negb (scan_active m).
Proof. unfold start_stop. destruct (scan_active m); reflexivity. Qed.

Lemma start_stop_operable (m : Microscope) :
  operable m -> operable (start_stop m).
Proof. unfold start_stop. destruct (scan_active m); intros H; exact H. Qed.

End StartStop.

Section ConcreteStates.

Lemma beam_drawn_valid : valid beam_drawn.
Proof. unfold valid. simpl. repeat split; lra. Qed.

Lemma microscope0_operable : operable microscope0.
Proof.
  unfold operable. split; [simpl; lra |]. split; [simpl; lra |].
  split; [exact beam_drawn_valid | simpl; lia].
Qed.

Lemma microscope0_shape : frame_shape microscope0.
Proof. apply (zeros_shape 256 192); [lia | lia | reflexivity | reflexivity]. Qed.

Lemma speed10_operable : operable (with_speed microscope0 10).
Proof.
  unfold operable. split; [simpl; lra |]. split; [simpl; lra |].
  split; [exact beam_drawn_valid | simpl; lia].
Qed.

Lemma speed10_shape : frame_shape (with_speed microscope0 10).
Proof. apply (zeros_shape 256 192); [lia | lia | reflexivity | reflexivity]. Qed.

End ConcreteStates.

Section ScanClaims.

Lemma beam_intensity_inv (b : Beam) (k : list (list R)) :
  beam_intensity b = Ok k ->
  stigm_y b + astigm_y b <> 0 /\
  sigma2_y_px b <> 0 /\ sigma2_x_px b <> 0 /\
  k = beam_intensity_value b.
Proof.
  unfold beam_intensity, astig_angle, pydiv.
  destruct (Req_dec_T (stigm_y b + astigm_y b) 0) as [Hd | Hd];
    [simpl; discriminate |].
  destruct (Req_dec_T (sigma2_y_px b) 0) as [Hy | Hy];
    [simpl; discriminate |].
  destruct (Req_dec_T (sigma2_x_px b) 0) as [Hx | Hx];
    [simpl; discriminate |].
  simpl. intros H. injection H as <-. repeat split; assumption.
Qed.

(** A slice that is returned is [slice_value], and nothing raised on the
    way. *)
Lemma slice_inv (convT : convolved) (rand : nat -> nat -> R)
    (m : Microscope) (v : nat -> nat -> R) :
  slice m convT rand = Ok v ->
  center_y (beam m) = Ok (center_y_value (beam m)) /\
  center_x (beam m) = Ok (center_x_value (beam m)) /\
  beam_intensity (beam m) = Ok (beam_intensity_value (beam m)) /\
  v = slice_value m convT rand.
Proof.
  unfold slice.
  destruct (Req_dec_T (hv_target m) 0) as [Hhv | Hhv];
    [rewrite (pydiv_zero _ _ Hhv); discriminate |].
  rewrite (pydiv_ok _ _ Hhv). cbn [bind].
  destruct (Req_dec_T (focus (beam m)) 0) as [Hf | Hf].
  { unfold center_y, shift_px. rewrite (pydiv_zero _ _ Hf). discriminate. }
  rewrite (center_y_ok _ Hf), (center_x_ok _ Hf). cbn [bind].
  destruct (beam_intensity (beam m)) as [k | e] eqn:Hk; [| discriminate].
  apply beam_intensity_inv in Hk. destruct Hk as (_ & _ & _ & ->).
  cbn [bind].
  destruct (Req_dec_T (sqrt (IZR (speed m))) 0) as [Hs | Hs];
    [rewrite (pydiv_zero _ _ Hs); discriminate |].
  rewrite (pydiv_ok _ _ Hs). cbn [bind].
  intros H. injection H as <-. repeat split; reflexivity.
Qed.

(** C2.  On a tick that is not the last slice of a line and that returns:
    the beam properties were evaluated without error; the slice has width
    [11 - speed] (10 at speed 1, 1 at speed 10), the line advances by as
    much, and the entry written at row [r], column [line + k] is
    [beam_on * (h_v/hv_target) * (conv * beam_current
     + 10*sqrt(beam_current)/sqrt(speed) * noise) * (contrast/30)^2
     + (brightness - 250)], [conv] being the entry of the slice of the
    convolved array taken at the beam's centre shifts and kernel, and
    [noise] the entry of the drawn array. *)
Theorem scanning_writes_formula (convT : convolved) (rand : nat -> nat -> R)
    (m m' : Microscope)
    (Hshape : frame_shape m)
    (Hline : (0 <= line m)%Z)
    (Hspeed : (1 <= speed m <= 10)%Z)
    (Hfull : (line m < snd (resolution m) - 1 - (11 - speed m))%Z)
    (Hrun : scanning convT rand m = Ok m') :
  center_y (beam m) = Ok (center_y_value (beam m)) /\
  center_x (beam m) = Ok (center_x_value (beam m)) /\
  beam_intensity (beam m) = Ok (beam_intensity_value (beam m)) /\
  written m = Some (line m, (line m + (11 - speed m))%Z) /\
  (speed m = 1%Z -> written m = Some (line m, (line m + 10)%Z)) /\
  (speed m = 10%Z -> written m = Some (line m, (line m + 1)%Z)) /\
  line m' = (line m + (11 - speed m))%Z /\
  forall r k : nat,
    (r < Z.to_nat (fst (resolution m)))%nat ->
    (Z.of_nat k < 11 - speed m)%Z ->
    entry (frame m') r (Z.to_nat (line m) + k) =
      b2R (beam_on m) * (h_v m / hv_target m)
      * (conv_entry m convT r k * beam_current (beam m)
         + 10 * sqrt (beam_current (beam m)) / sqrt (IZR (speed m))
           * rand r k)
      * (IZR (contrast_Slider m) / 30) ^ 2
      + (IZR (brightness_Slider m) - 250).
Proof.
  destruct Hshape as [Hw Hrows].
  assert (Hstep : step_of m = (11 - speed m)%Z) by reflexivity.
  rewrite <- Hstep in *.
  unfold scanning in Hrun. cbv zeta in Hrun.
  assert (H1 : (line m <? snd (resolution m) - 1 - step_of m)%Z = true)
    by (apply Z.ltb_lt; exact Hfull).
  rewrite H1 in Hrun.
  destruct (slice m convT rand) as [v | e] eqn:Hslice;
    [| discriminate Hrun].
  change (Ok (set_frame_line m
                (assign_columns (frame m) (line m) (line m + step_of m) v)
                (line m + step_of m)%Z) = Ok m') in Hrun.
  injection Hrun as Hm'. subst m'.
  destruct (slice_inv convT rand m v Hslice) as (Hcy & Hcx & Hk & ->).
  split; [exact Hcy |]. split; [exact Hcx |]. split; [exact Hk |].
  destruct (written_cases m) as (Hwr & _).
  pose proof (Hwr Hfull) as Hw'.
  split; [exact Hw' |].
  split; [intros Hs1; rewrite Hw'; unfold step_of; rewrite Hs1; reflexivity |].
  split; [intros Hs1; rewrite Hw'; unfold step_of; rewrite Hs1; reflexivity |].
  split; [reflexivity |].
  intros r k Hr Hk'.
  change (frame (set_frame_line m
                   (assign_columns (frame m) (line m) (line m + step_of m)
                      (slice_value m convT rand))
                   (line m + step_of m)%Z))
    with (assign_columns (frame m) (line m) (line m + step_of m)
            (slice_value m convT rand)).
  rewrite (assign_columns_entry (frame m) (Z.to_nat (fst (resolution m)))
             (Z.to_nat (snd (resolution m))) (line m)
             (line m + step_of m)%Z (slice_value m convT rand) r
             (Z.to_nat (line m) + k) Hw Hrows ltac:(lia) ltac:(lia) Hr).
  assert (Hin : ((line m <=? Z.of_nat (Z.to_nat (line m) + k))
                 && (Z.of_nat (Z.to_nat (line m) + k)
                     <? line m + step_of m))%Z%bool = true).
  { apply andb_true_intro. split; [apply Z.leb_le | apply Z.ltb_lt]; lia. }
  rewrite Hin.
  replace (Z.to_nat (line m) + k - Z.to_nat (line m))%nat with k by lia.
  unfold slice_value, pixel, Rdiv. ring.
Qed.

Lemma microscope_lit_operable : operable microscope_lit.
Proof.
  unfold operable. split; [simpl; lra |]. split; [simpl; lra |].
  split; [exact beam_drawn_valid | simpl; lia].
Qed.

Lemma microscope_lit_shape : frame_shape microscope_lit.
Proof. apply (zeros_shape 256 192); [lia | lia | reflexivity | reflexivity]. Qed.

Lemma scanning_writes_formula_witness :
  exists m' : Microscope,
    scanning (flat_conv 0) (half_rand 0) microscope_lit = Ok m' /\
    line m' = 10%Z /\
    entry (frame m') 0 3 =
      b2R true * (12 / 15)
      * (100 * 1 + 10 * sqrt 1 / sqrt 1 * (1 / 2))
      * (45 / 30) ^ 2 + (100 - 250) /\
    entry (frame m') 0 3 = 39.
Proof.
  pose proof (scanning_full (flat_conv 0) (half_rand 0) microscope_lit
                microscope_lit_operable ltac:(simpl; lia)) as Hrun.
  eexists. split; [exact Hrun |].
  destruct (scanning_writes_formula (flat_conv 0) (half_rand 0)
              microscope_lit _ microscope_lit_shape ltac:(simpl; lia)
              ltac:(simpl; lia) ltac:(simpl; lia) Hrun)
    as (_ & _ & _ & _ & _ & _ & Hl & He).
  split; [exact Hl |].
  pose proof (He 0%nat 3%nat ltac:(simpl; lia) ltac:(simpl; lia)) as H3.
  split; [exact H3 |].
  etransitivity; [exact H3 |].
  cbn [b2R beam_on h_v hv_target beam contrast_Slider brightness_Slider speed
       microscope_lit conv_entry flat_conv half_rand].
  change (beam_current beam_drawn) with 1. rewrite sqrt_1.
  unfold conv_entry, flat_conv, half_rand. field.
Defined.

Lemma slice_value_ignores_frame (convT : convolved) (rand : nat -> nat -> R)
    (m : Microscope) (f : list (list R)) :
  slice_value (set_frame_line m f (line m)) convT rand
  = slice_value m convT rand.
Proof. reflexivity. Qed.

(** C7 (amended).  In a state where the right-hand side is evaluated
    without error the tick returns, and: below the last slice it replaces
    the columns from [line] to [line + step - 1]; on the last slice, taken
    from [height - 1 - step <= line < height - 1], it replaces the columns
    from [line] to the last one, [height - 1], which is up to [step + 1]
    columns; at [line >= height - 1] it writes nothing.  The values
    written do not depend on the old frame, and every entry outside the
    range is unchanged. *)
Theorem scanning_frame_effect (convT : convolved) (rand : nat -> nat -> R)
    (m : Microscope)
    (Hshape : frame_shape m)
    (Hline : (0 <= line m)%Z)
    (Hspeed : (1 <= speed m <= 10)%Z)
    (Hop : operable m) :
  exists m' : Microscope,
    scanning convT rand m = Ok m' /\
    ((line m < snd (resolution m) - 1 - (11 - speed m))%Z ->
       forall r c : nat,
         (r < Z.to_nat (fst (resolution m)))%nat ->
         entry (frame m') r c =
           if ((line m <=? Z.of_nat c)
               && (Z.of_nat c <? line m + (11 - speed m)))%Z%bool
           then slice_value m convT rand r (c - Z.to_nat (line m))%nat
           else entry (frame m) r c) /\
    ((snd (resolution m) - 1 - (11 - speed m) <= line m)%Z ->
     (line m < snd (resolution m) - 1)%Z ->
       forall r c : nat,
         (r < Z.to_nat (fst (resolution m)))%nat ->
         entry (frame m') r c =
           if ((line m <=? Z.of_nat c)
               && (Z.of_nat c <? snd (resolution m)))%Z%bool
           then slice_value m convT rand r (c - Z.to_nat (line m))%nat
           else entry (frame m) r c) /\
    ((snd (resolution m) - 1 <= line m)%Z -> frame m' = frame m) /\
    (forall f : list (list R),
       slice_value (set_frame_line m f (line m)) convT rand
       = slice_value m convT rand).
Proof.
  assert (Hstep : (1 <= step_of m)%Z) by (unfold step_of; lia).
  destruct (scanning_entries convT rand m Hshape Hline Hstep Hop)
    as (m' & Hrun & He).
  exists m'. split; [exact Hrun |].
  destruct (written_cases m) as (Hfull & Hlast & Hreset).
  unfold step_of in Hfull, Hlast, Hreset.
  split.
  { intros H1. rewrite (Hfull H1) in He. exact He. }
  split.
  { intros H1 H2. rewrite (Hlast H1 H2) in He. exact He. }
  split.
  { intros H1. rewrite (Hreset H1 ltac:(lia)) in He. exact He. }
  intros f. apply slice_value_ignores_frame.
Qed.

Lemma scanning_frame_effect_witness :
  exists m' : Microscope,
    scanning (flat_conv 0) (half_rand 0) microscope0 = Ok m' /\
    entry (frame m') 0 3
      = slice_value microscope0 (flat_conv 0) (half_rand 0) 0 3 /\
    entry (frame m') 0 50 = entry (frame microscope0) 0 50.
Proof.
  destruct (scanning_frame_effect (flat_conv 0) (half_rand 0) microscope0
              microscope0_shape ltac:(simpl; lia) ltac:(simpl; lia)
              microscope0_operable)
    as (m' & Hrun & Hfull & _).
  exists m'. split; [exact Hrun |]. split.
  - exact (Hfull ltac:(simpl; lia) 0%nat 3%nat ltac:(simpl; lia)).
  - exact (Hfull ltac:(simpl; lia) 0%nat 50%nat ltac:(simpl; lia)).
Defined.

(** C7 as stated fails.  At speed 10 the step is 1; after 190 ticks from
    the first column the line is 190 and the next tick takes the branch of
    the last slice, which assigns [frame[:, 190:192]]: column 191 lies
    outside [line : line + step], clipped to the 192 columns or not, and
    its entry in row 0 changes from 0 to -250. *)
Lemma scanning_range_counterexample :
  exists m190 m191 : Microscope,
    ticks flat_conv half_rand 190 (with_speed microscope0 10) = Ok m190 /\
    line m190 = 190%Z /\ step_of m190 = 1%Z /\
    snd (resolution m190) = 192%Z /\
    scanning (flat_conv 190) (half_rand 190) m190 = Ok m191 /\
    entry (frame m190) 0 191 = 0 /\
    entry (frame m191) 0 191 = -250.
Proof.
  destruct (ticks_full_phase flat_conv half_rand (with_speed microscope0 10)
              190 speed10_shape eq_refl ltac:(unfold step_of; simpl; lia)
              speed10_operable ltac:(unfold step_of; simpl; lia))
    as (m & Hrun & Hl & Hs & He).
  change (Z.of_nat 190 * step_of (with_speed microscope0 10))%Z
    with 190%Z in Hl.
  pose proof (ticks_keeps flat_conv half_rand 190 _ m Hrun) as Hkeep.
  destruct (same_settings_step _ _ Hkeep) as [Hst Hh].
  pose proof (same_settings_operable _ _ Hkeep speed10_operable) as Hop.
  destruct Hkeep as (Hres & Hsp & _ & Hon & Hbr & _).
  change (step_of (with_speed microscope0 10)) with 1%Z in Hst.
  change (snd (resolution (with_speed microscope0 10))) with 192%Z in Hh.
  destruct (scanning_entries (flat_conv 190) (half_rand 190) m Hs
              ltac:(lia) ltac:(lia) Hop) as (m' & Hrun' & Hent).
  exists m, m'.
  split; [exact Hrun |]. split; [exact Hl |]. split; [exact Hst |].
  split; [exact Hh |]. split; [exact Hrun' |].
  split.
  { rewrite (He 0%nat 191%nat) by (simpl; lia). apply entry_zeros. }
  destruct (written_cases m) as (_ & Hlast & _).
  rewrite (Hlast ltac:(lia) ltac:(lia)) in Hent.
  rewrite Hent by (rewrite Hres; simpl; lia).
  rewrite Hl, Hh.
  change ((190 <=? Z.of_nat 191)%Z && (Z.of_nat 191 <? 192)%Z)%bool with true.
  cbv iota.
  unfold slice_value, pixel. rewrite Hon, Hbr. simpl b2R.
  simpl brightness_Slider. unfold Rdiv. ring.
Qed.

End ScanClaims.

Section ScanCycle.

(** C4 (amended).  From line 0 at step 10 over 192 columns, in a state
    where ticks run: each of the first 19 ticks writes a full slice of 10
    columns and advances the line by 10; the 20th tick writes the
    remaining 2 columns, 190 and 191, and leaves the line at 200; the 21st
    tick writes nothing and sets the line to 0; the tick after that writes
    columns 0 to 9 again.  The state after [k] ticks is the one the tick
    number [k + 1] starts from, and [written] names what that tick
    writes. *)
Theorem scan_line_cycle (cT : nat -> convolved) (rd : nat -> nat -> nat -> R)
    (m : Microscope)
    (Hop : operable m)
    (H0 : line m = 0%Z) (Hsp : speed m = 1%Z)
    (Hh : snd (resolution m) = 192%Z) :
  (forall k : nat, (k < 19)%nat ->
     exists mk : Microscope,
       ticks cT rd k m = Ok mk /\
       line mk = (10 * Z.of_nat k)%Z /\
       written mk = Some ((10 * Z.of_nat k)%Z, (10 * Z.of_nat k + 10)%Z)) /\
  (exists m19 : Microscope,
     ticks cT rd 19 m = Ok m19 /\ line m19 = 190%Z /\
     written m19 = Some (190%Z, 192%Z)) /\
  (exists m20 : Microscope,
     ticks cT rd 20 m = Ok m20 /\ line m20 = 200%Z /\ written m20 = None) /\
  (exists m21 : Microscope,
     ticks cT rd 21 m = Ok m21 /\ line m21 = 0%Z /\
     written m21 = Some (0%Z, 10%Z)).
Proof.
  destruct (ticks_line_profile cT rd m Hop H0 Hsp Hh) as (Hfull & H20 & H21).
  split.
  { intros k Hk. destruct (Hfull k ltac:(lia)) as (mk & Hrun & Hl).
    exists mk. split; [exact Hrun |]. split; [exact Hl |].
    rewrite (written_at cT rd m mk k Hsp Hh Hrun), Hl.
    assert (Hlt : (10 * Z.of_nat k <? 181)%Z = true) by (apply Z.ltb_lt; lia).
    rewrite Hlt. reflexivity. }
  split.
  { destruct (Hfull 19%nat ltac:(lia)) as (m19 & Hrun & Hl).
    change (10 * Z.of_nat 19)%Z with 190%Z in Hl.
    exists m19. split; [exact Hrun |]. split; [exact Hl |].
    rewrite (written_at cT rd m m19 19 Hsp Hh Hrun), Hl. reflexivity. }
  split.
  { destruct H20 as (m20 & Hrun & Hl).
    exists m20. split; [exact Hrun |]. split; [exact Hl |].
    rewrite (written_at cT rd m m20 20 Hsp Hh Hrun), Hl. reflexivity. }
  destruct H21 as (m21 & Hrun & Hl).
  exists m21. split; [exact Hrun |]. split; [exact Hl |].
  rewrite (written_at cT rd m m21 21 Hsp Hh Hrun), Hl. reflexivity.
Qed.

Lemma scan_line_cycle_witness :
  (exists m19 : Microscope,
     ticks flat_conv half_rand 19 microscope0 = Ok m19 /\ line m19 = 190%Z /\
     written m19 = Some (190%Z, 192%Z)) /\
  (exists m20 : Microscope,
     ticks flat_conv half_rand 20 microscope0 = Ok m20 /\ line m20 = 200%Z /\
     written m20 = None) /\
  (exists m21 : Microscope,
     ticks flat_conv half_rand 21 microscope0 = Ok m21 /\ line m21 = 0%Z /\
     written m21 = Some (0%Z, 10%Z)).
Proof.
  exact (proj2 (scan_line_cycle flat_conv half_rand microscope0
                  microscope0_operable eq_refl eq_refl eq_refl)).
Defined.

(** C4 as stated fails: after 20 ticks from line 0 at step 10 over 192
    columns the line is 200, not 0. *)
Lemma scan_wrap_counterexample :
  line microscope0 = 0%Z /\ step_of microscope0 = 10%Z /\
  snd (resolution microscope0) = 192%Z /\
  exists m20 : Microscope,
    ticks flat_conv half_rand 20 microscope0 = Ok m20 /\
    line m20 = 200%Z /\ line m20 <> 0%Z.
Proof.
  destruct (ticks_line_profile flat_conv half_rand microscope0
              microscope0_operable eq_refl eq_refl eq_refl)
    as (_ & (m20 & Hrun & H20) & _).
  repeat split; try reflexivity.
  exists m20. split; [exact Hrun |]. split; [exact H20 |].
  rewrite H20. discriminate.
Qed.

(** C5 (amended).  In every state reached by ticks from line 0, with a
    speed from 1 to 10, the line is at least 0 and at most
    [height + step - 2]; and every slice a tick writes starts at the line
    and lies inside the columns of the frame. *)
Theorem reachable_line_bound (m0 m : Microscope)
    (H0 : line m0 = 0%Z)
    (Hsp : (1 <= speed m0 <= 10)%Z)
    (Hh : (1 <= snd (resolution m0))%Z)
    (Hreach : reachable m0 m) :
  (0 <= line m <= snd (resolution m) + (11 - speed m) - 2)%Z /\
  forall a b : Z,
    written m = Some (a, b) ->
    a = line m /\ (0 <= a < b)%Z /\ (b <= snd (resolution m))%Z.
Proof.
  pose proof (reachable_keeps _ _ Hreach) as Hkeep.
  destruct (same_settings_step _ _ Hkeep) as [Hst Hhm].
  assert (Hstep : (1 <= step_of m0)%Z) by (unfold step_of; lia).
  pose proof (reachable_line_range m0 m Hreach H0 Hstep Hh) as Hrange.
  unfold step_of in Hst, Hrange.
  split; [lia |].
  intros a b Hw. apply written_in_frame; [lia | unfold step_of; lia | exact Hw].
Qed.

Lemma reachable_line_bound_witness :
  exists m20 : Microscope,
    ticks flat_conv half_rand 20 microscope0 = Ok m20 /\
    (0 <= line m20 <= snd (resolution m20) + (11 - speed m20) - 2)%Z.
Proof.
  destruct (ticks_line_profile flat_conv half_rand microscope0
              microscope0_operable eq_refl eq_refl eq_refl)
    as (_ & (m20 & Hrun & _) & _).
  exists m20. split; [exact Hrun |].
  exact (proj1 (reachable_line_bound microscope0 m20
                  eq_refl ltac:(simpl; lia) ltac:(simpl; lia)
                  (reachable_ticks flat_conv half_rand 20 microscope0 m20
                     Hrun))).
Defined.

(** C5 as stated fails: the state after 20 ticks from the initial one is
    reached by ticks from line 0, and its line, 200, is not below the 192
    columns of the frame. *)
Lemma line_invariant_counterexample :
  line microscope0 = 0%Z /\
  exists m20 : Microscope,
    reachable microscope0 m20 /\
    snd (resolution m20) = 192%Z /\
    ~ (0 <= line m20 < snd (resolution m20))%Z.
Proof.
  split; [reflexivity |].
  destruct (ticks_line_profile flat_conv half_rand microscope0
              microscope0_operable eq_refl eq_refl eq_refl)
    as (_ & (m20 & Hrun & H20) & _).
  exists m20.
  split; [apply (reachable_ticks flat_conv half_rand 20); exact Hrun |].
  destruct (ticks_keeps flat_conv half_rand 20 _ _ Hrun) as (Hres & _).
  rewrite H20, Hres. simpl. split; [reflexivity | lia].
Qed.

End ScanCycle.

Section StartStopClaims.

(** C6 (amended).  [start_stop] toggles between idle and scanning: from
    idle it starts the timer at [speed * 10] and marks the scan active,
    from scanning it stops the timer and marks the scan inactive; in both
    directions the line and the frame are left as they are. *)
Theorem start_stop_toggles (m : Microscope) :
  scan_active (start_stop m) = negb (scan_active m) /\
  timer_running (start_stop m) = negb (scan_active m) /\
  timer_interval (start_stop m)
    = (if scan_active m then timer_interval m else (speed m * 10)%Z) /\
  line (start_stop m) = line m /\
  frame (start_stop m) = frame m.
Proof.
  unfold start_stop. destruct (scan_active m); repeat split; reflexivity.
Qed.

(** C6 as stated fails: start, five ticks, stop leaves an idle microscope
    at line 50; the next start makes it scan again and keeps the line at
    50 instead of setting it to 0. *)
Lemma start_keeps_line_counterexample :
  exists m5 : Microscope,
    ticks flat_conv half_rand 5 (start_stop microscope0) = Ok m5 /\
    scan_active (start_stop m5) = false /\
    line (start_stop m5) = 50%Z /\
    scan_active (start_stop (start_stop m5)) = true /\
    line (start_stop (start_stop m5)) = 50%Z.
Proof.
  destruct (ticks_line_profile flat_conv half_rand (start_stop microscope0)
              (start_stop_operable _ microscope0_operable)
              eq_refl eq_refl eq_refl) as (Hfull & _).
  destruct (Hfull 5%nat ltac:(lia)) as (m5 & Hrun & H5).
  change (10 * Z.of_nat 5)%Z with 50%Z in H5.
  destruct (ticks_keeps flat_conv half_rand 5 _ _ Hrun) as (_ & _ & Hact & _).
  change (scan_active (start_stop microscope0)) with true in Hact.
  exists m5. split; [exact Hrun |].
  rewrite !start_stop_line, !start_stop_active, Hact, H5.
  repeat split; reflexivity.
Qed.

End StartStopClaims.

Section FreshBeam.

(** X1.  Whatever the five draws, a fresh beam has its working distance in
    (5, 15], its astigmatism in [-0.5, 0.5), its misalignment in
    [-0.2, 0.2), and is under-focused: the defocus lies in [-14.9, -4.9). *)
Theorem Beam_init_ranges (r_z r_ax r_ay r_mx r_my : R)
    (Hz : unit_draw r_z) (Hax : unit_draw r_ax) (Hay : unit_draw r_ay)
    (Hmx : unit_draw r_mx) (Hmy : unit_draw r_my) :
  5 < z_position (Beam_init r_z r_ax r_ay r_mx r_my) <= 15 /\
  - (1 / 2) <= astigm_x (Beam_init r_z r_ax r_ay r_mx r_my) < 1 / 2 /\
  - (1 / 2) <= astigm_y (Beam_init r_z r_ax r_ay r_mx r_my) < 1 / 2 /\
  - (1 / 5) <= misalign_x (Beam_init r_z r_ax r_ay r_mx r_my) < 1 / 5 /\
  - (1 / 5) <= misalign_y (Beam_init r_z r_ax r_ay r_mx r_my) < 1 / 5 /\
  - (149 / 10) <= defocus (Beam_init r_z r_ax r_ay r_mx r_my) < - (49 / 10).
Proof.
  unfold unit_draw in *. unfold defocus. simpl. repeat split; lra.
Qed.

Lemma half_is_unit_draw : unit_draw (1 / 2).
Proof. unfold unit_draw. lra. Qed.

Lemma Beam_init_ranges_witness :
  5 < z_position (Beam_init (1 / 2) (1 / 2) (1 / 2) (1 / 2) (1 / 2)) <= 15 /\
  - (149 / 10)
    <= defocus (Beam_init (1 / 2) (1 / 2) (1 / 2) (1 / 2) (1 / 2))
    < - (49 / 10).
Proof.
  pose proof (Beam_init_ranges (1 / 2) (1 / 2) (1 / 2) (1 / 2) (1 / 2)
                half_is_unit_draw half_is_unit_draw half_is_unit_draw
                half_is_unit_draw half_is_unit_draw)
    as (Hz & _ & _ & _ & _ & Hd).
  split; assumption.
Defined.

(** X2.  [beam_intensity] raises exactly when one of its three divisors
    is zero: the y sum [stigm_y + astigm_y] under the arctangent, or one
    of the two pixel variances; otherwise it returns the normalised
    kernel. *)
Theorem beam_intensity_raises_iff (b : Beam) :
  (beam_intensity b = Raise ZeroDivisionError <->
     stigm_y b + astigm_y b = 0 \/ sigma2_y_px b = 0 \/ sigma2_x_px b = 0) /\
  (beam_intensity b = Ok (beam_intensity_value b) <->
     stigm_y b + astigm_y b <> 0 /\ sigma2_y_px b <> 0 /\
     sigma2_x_px b <> 0).
Proof.
  split; split.
  - intros Hr.
    destruct (Req_dec_T (stigm_y b + astigm_y b) 0) as [Hd | Hd]; [tauto |].
    destruct (Req_dec_T (sigma2_y_px b) 0) as [Hy | Hy]; [tauto |].
    destruct (Req_dec_T (sigma2_x_px b) 0) as [Hx | Hx]; [tauto |].
    rewrite (beam_intensity_ok b Hd Hx Hy) in Hr. discriminate Hr.
  - unfold beam_intensity, astig_angle, pydiv. intros [Hd | [Hy | Hx]].
    + destruct (Req_dec_T (stigm_y b + astigm_y b) 0); [reflexivity | contradiction].
    + destruct (Req_dec_T (stigm_y b + astigm_y b) 0); [reflexivity |].
      destruct (Req_dec_T (sigma2_y_px b) 0); [reflexivity | contradiction].
    + destruct (Req_dec_T (stigm_y b + astigm_y b) 0); [reflexivity |].
      destruct (Req_dec_T (sigma2_y_px b) 0); [reflexivity |].
      destruct (Req_dec_T (sigma2_x_px b) 0); [reflexivity | contradiction].
  - intros Hk. apply beam_intensity_inv in Hk. tauto.
  - intros (Hd & Hy & Hx). apply (beam_intensity_ok b Hd Hx Hy).
Qed.

(** X3.  A fresh beam returns both centre shifts, and it computes its
    kernel unless the draw behind [astigm_y] is exactly 0.5. *)
Theorem Beam_init_kernel (r_z r_ax r_ay r_mx r_my : R) :
  center_x (Beam_init r_z r_ax r_ay r_mx r_my)
    = Ok (center_x_value (Beam_init r_z r_ax r_ay r_mx r_my)) /\
  center_y (Beam_init r_z r_ax r_ay r_mx r_my)
    = Ok (center_y_value (Beam_init r_z r_ax r_ay r_mx r_my)) /\
  (beam_intensity (Beam_init r_z r_ax r_ay r_mx r_my)
     = Raise ZeroDivisionError <-> r_ay = 1 / 2).
Proof.
  set (b := Beam_init r_z r_ax r_ay r_mx r_my).
  assert (Hf : focus b <> 0) by (simpl; lra).
  split; [apply center_x_ok; exact Hf |].
  split; [apply center_y_ok; exact Hf |].
  assert (Hc : 0 <= beam_current b) by (simpl; lra).
  assert (Hp : pixels_per_mm b <> 0) by (simpl; lra).
  pose proof (sigma2_x_px_pos b Hc Hp) as Hx.
  pose proof (sigma2_y_px_pos b Hc Hp) as Hy.
  split.
  - intros Hr.
    destruct (Req_dec_T (stigm_y b + astigm_y b) 0) as [Hd | Hd].
    + simpl in Hd. lra.
    + rewrite (beam_intensity_ok b Hd) in Hr by lra. discriminate Hr.
  - intros Hr. unfold beam_intensity, astig_angle.
    rewrite pydiv_zero by (simpl; lra). reflexivity.
Qed.

End FreshBeam.

Section BeamWidths.

Lemma sigma2_x_mm_floor (b : Beam) : current_floor b <= sigma2_x_mm b.
Proof.
  unfold sigma2_x_mm.
  match goal with |- _ <= ?u ^ 2 + _ => pose proof (pow2_ge_0 u) end. lra.
Qed.

Lemma sigma2_y_mm_floor (b : Beam) : current_floor b <= sigma2_y_mm b.
Proof.
  unfold sigma2_y_mm.
  match goal with |- _ <= ?u ^ 2 + _ => pose proof (pow2_ge_0 u) end. lra.
Qed.

Lemma sqrt_floor_const : sqrt (/ 10 ^ 16 / 4) = / (2 * 10 ^ 8).
Proof.
  replace (/ 10 ^ 16 / 4) with ((/ (2 * 10 ^ 8)) * (/ (2 * 10 ^ 8)))
    by (field; split; apply pow_nonzero; lra).
  apply sqrt_square. apply Rlt_le. apply Rinv_0_lt_compat.
  apply Rmult_lt_0_compat; [lra | apply pow_lt; lra].
Qed.

(** X4.  With a non-negative beam current both beam widths are at least
    [10^6 * sqrt(current term)], which is at least 0.005 nm: the beam
    never focuses to a point. *)
Theorem beam_widths_lower_bound (b : Beam) (Hc : 0 <= beam_current b) :
  1 / 200 <= 10 ^ 6 * sqrt (current_floor b) /\
  10 ^ 6 * sqrt (current_floor b) <= fst (beam_widths b) /\
  10 ^ 6 * sqrt (current_floor b) <= snd (beam_widths b).
Proof.
  assert (H6 : 0 < 10 ^ 6) by (apply pow_lt; lra).
  split.
  - pose proof (current_floor_lower b Hc) as Hfl.
    apply sqrt_le_1_alt in Hfl. rewrite sqrt_floor_const in Hfl.
    replace (1 / 200) with (10 ^ 6 * / (2 * 10 ^ 8)) by (simpl; field).
    apply Rmult_le_compat_l; [lra | exact Hfl].
  - unfold beam_widths. simpl fst. simpl snd. split.
    + apply Rmult_le_compat_l; [lra |].
      apply sqrt_le_1_alt. apply sigma2_x_mm_floor.
    + apply Rmult_le_compat_l; [lra |].
      apply sqrt_le_1_alt. apply sigma2_y_mm_floor.
Qed.

Lemma beam_widths_lower_bound_witness :
  1 / 200 <= fst (beam_widths beam_drawn) /\
  1 / 200 <= snd (beam_widths beam_drawn).
Proof.
  destruct (beam_widths_lower_bound beam_drawn ltac:(simpl; lra))
    as (H1 & H2 & H3).
  split; lra.
Defined.

(** X5.  Raising the beam current, all else fixed, strictly widens the
    beam in both directions. *)
Theorem beam_widths_grow_with_current (b : Beam) (c1 c2 : R)
    (Hc : 0 <= c1 < c2) :
  fst (beam_widths (with_current b c1)) < fst (beam_widths (with_current b c2))
  /\ snd (beam_widths (with_current b c1))
     < snd (beam_widths (with_current b c2)).
Proof.
  assert (H6 : 0 < 10 ^ 6) by (apply pow_lt; lra).
  assert (H16 : 0 < / 10 ^ 16).
  { apply Rinv_0_lt_compat. apply pow_lt. lra. }
  assert (Hfl : current_floor (with_current b c1)
                < current_floor (with_current b c2)).
  { unfold current_floor. simpl beam_current.
    assert (H3 : (1 + 100 * c1) ^ 3 < (1 + 100 * c2) ^ 3).
    { set (x := 1 + 100 * c1). set (y := 1 + 100 * c2).
      assert (Hx : 1 <= x) by (unfold x; lra).
      assert (Hxy : x < y) by (unfold x, y; lra).
      assert (H2 : x * x < y * y) by nra.
      simpl. rewrite !Rmult_1_r. nra. }
    unfold Rdiv. apply Rmult_lt_compat_r; [lra |].
    apply Rmult_lt_compat_l; assumption. }
  assert (Hpos : 0 < current_floor (with_current b c1)).
  { apply current_floor_pos. simpl. lra. }
  unfold beam_widths. cbn [fst snd]. split.
  - apply Rmult_lt_compat_l; [exact H6 |]. apply sqrt_lt_1_alt. split.
    + pose proof (sigma2_x_mm_floor (with_current b c1)). lra.
    + unfold sigma2_x_mm. apply Rplus_lt_compat_l. exact Hfl.
  - apply Rmult_lt_compat_l; [exact H6 |]. apply sqrt_lt_1_alt. split.
    + pose proof (sigma2_y_mm_floor (with_current b c1)). lra.
    + unfold sigma2_y_mm. apply Rplus_lt_compat_l. exact Hfl.
Qed.

Lemma beam_widths_grow_with_current_witness :
  fst (beam_widths (with_current beam_drawn 1))
  < fst (beam_widths (with_current beam_drawn 2)).
Proof.
  exact (proj1 (beam_widths_grow_with_current beam_drawn 1 2 ltac:(lra))).
Defined.

(** X6.  Each variance is at least the current term, and equals it exactly
    at best focus, where the defocus cancels the alignment and
    astigmatism offsets (or the convergence is 0). *)
Theorem sigma2_minimum_at_best_focus (b : Beam) :
  current_floor b <= sigma2_x_mm b /\
  current_floor b <= sigma2_y_mm b /\
  (sigma2_x_mm b = current_floor b <->
     (defocus b + Rabs (align_x b - misalign_x b) * / 10 ^ 2
      + Rabs (stigm_x b + astigm_x b)) * convergence b = 0) /\
  (sigma2_y_mm b = current_floor b <->
     (defocus b + Rabs (align_y b - misalign_y b) * / 10 ^ 2
      + Rabs (stigm_y b + astigm_y b)) * convergence b = 0).
Proof.
  split; [apply sigma2_x_mm_floor |]. split; [apply sigma2_y_mm_floor |].
  unfold sigma2_x_mm, sigma2_y_mm. split; split; intros H.
  - match goal with |- ?u = 0 => assert (Hu : u ^ 2 = 0) by lra end.
    simpl in Hu. nra.
  - rewrite H. simpl. lra.
  - match goal with |- ?u = 0 => assert (Hu : u ^ 2 = 0) by lra end.
    simpl in Hu. nra.
  - rewrite H. simpl. lra.
Qed.

End BeamWidths.

Section KernelShape.


Lemma rotated_form_nonneg (b : Beam) (a x y : R) :
  0 < sigma2_x_px b -> 0 < sigma2_y_px b -> 0 <= rotated_form b a x y.
Proof.
  intros Hx Hy. unfold rotated_form.
  apply Rplus_le_le_0_compat; apply Rmult_le_pos;
    try apply pow2_ge_0; apply Rlt_le; apply Rinv_0_lt_compat; assumption.
Qed.




Lemma INR_half_even (p : nat) : INR (2 * p) / 2 = INR p.
Proof. rewrite mult_INR. simpl. field. Qed.

End KernelShape.

Section KernelFloat.

Lemma exp_nat_lower (n : nat) : 2 ^ n <= exp (INR n).
Proof.
  induction n as [| n IH].
  - cbn [pow INR]. rewrite exp_0. lra.
  - rewrite S_INR, exp_plus. cbn [pow].
    pose proof (exp_ineq1_le 1) as H1.
    pose proof (exp_pos (INR n)) as H2.
    assert (H3 : 0 <= 2 ^ n) by (apply pow_le; lra).
    nra.
Qed.

Lemma underflow_bound : 0 < / 2 ^ 1075 < 1.
Proof.
  assert (H1 : 1 < 2 ^ 1075) by (apply Rlt_pow_R1; [lra | lia]).
  generalize dependent (2 ^ 1075). intros y Hy.
  assert (H2 : 0 < / y) by (apply Rinv_0_lt_compat; lra).
  assert (H3 : / y * y = 1) by (apply Rinv_l; lra).
  split; [exact H2 | nra].
Qed.

(** Below -1075 the exponential is under [2^-1075]: [np.exp] is 0.0. *)
Lemma np_exp_underflow (x : R) : x <= - 1075 -> np_exp x = 0.
Proof.
  intros Hx. unfold np_exp.
  destruct (Rle_dec (exp x) (/ 2 ^ 1075)) as [_ | Hn]; [reflexivity |].
  exfalso. apply Hn.
  assert (Hn1075 : INR 1075 = 1075) by (rewrite INR_IZR_INZ; reflexivity).
  assert (H1 : exp x <= exp (- INR 1075)).
  { rewrite Hn1075.
    destruct (Rle_lt_or_eq_dec _ _ Hx) as [Hlt | ->];
      [apply Rlt_le, exp_increasing; exact Hlt | apply Rle_refl]. }
  rewrite exp_Ropp in H1.
  apply Rle_trans with (1 := H1).
  apply Rinv_le_contravar; [apply pow_lt; lra | apply exp_nat_lower].
Qed.

Lemma np_exp_nonneg (x : R) : 0 <= np_exp x.
Proof.
  unfold np_exp. destruct (Rle_dec (exp x) (/ 2 ^ 1075)); [apply Rle_refl |].
  apply Rlt_le, exp_pos.
Qed.

Lemma np_exp_0 : np_exp 0 = 1.
Proof.
  unfold np_exp. rewrite exp_0. pose proof underflow_bound as [_ Hu].
  destruct (Rle_dec 1 (/ 2 ^ 1075)) as [Hle | _]; [| reflexivity].
  exfalso. apply (Rlt_irrefl 1). apply Rle_lt_trans with (1 := Hle). exact Hu.
Qed.

Lemma np_exp_le_1 (x : R) : x <= 0 -> np_exp x <= 1.
Proof.
  intros Hx. unfold np_exp.
  destruct (Rle_dec (exp x) (/ 2 ^ 1075)); [lra |].
  rewrite <- exp_0.
  destruct (Rle_lt_or_eq_dec _ _ Hx) as [Hlt | ->];
    [apply Rlt_le, exp_increasing; exact Hlt | apply Rle_refl].
Qed.

Lemma gauss_float_rotated (b : Beam) (a i j : R) :
  gauss_float b a i j
  = np_exp (- rotated_form b a (j - INR (size b) / 2) (i - INR (size b) / 2)).
Proof.
  unfold gauss_float, rotated_form. cbv zeta. f_equal.
  rewrite sin_2a. unfold Rdiv. ring.
Qed.

Lemma gauss_float_nonneg (b : Beam) (a i j : R) : 0 <= gauss_float b a i j.
Proof. unfold gauss_float. apply np_exp_nonneg. Qed.

Lemma gauss_float_centre (b : Beam) (a : R) (p : nat) :
  size b = (2 * p)%nat -> gauss_float b a (INR p) (INR p) = 1.
Proof.
  intros Heven. rewrite gauss_float_rotated, Heven, INR_half_even.
  replace (rotated_form b a (INR p - INR p) (INR p - INR p)) with 0.
  - rewrite Ropp_0. apply np_exp_0.
  - unfold rotated_form, Rdiv. ring.
Qed.

Lemma raw_gauss_float_nonnegative (b : Beam) (a : R) :
  nonnegative (raw_gauss_float b a).
Proof.
  unfold nonnegative, raw_gauss_float, fromfunction.
  apply Forall_map. apply Forall_forall. intros i _.
  apply Forall_map. apply Forall_forall. intros j _.
  apply gauss_float_nonneg.
Qed.

Lemma row_sum_nonneg (row : list R) :
  Forall (fun v => 0 <= v) row -> 0 <= row_sum row.
Proof.
  induction 1 as [| v row Hv _ IH].
  - rewrite row_sum_nil. apply Rle_refl.
  - rewrite row_sum_cons. lra.
Qed.

Lemma nth_le_row_sum (row : list R) (j : nat) :
  Forall (fun v => 0 <= v) row -> nth j row 0 <= row_sum row.
Proof.
  intros Hrow. revert j.
  induction Hrow as [| v row Hv Hrest IH]; intros j.
  - destruct j; rewrite row_sum_nil; apply Rle_refl.
  - rewrite row_sum_cons. pose proof (row_sum_nonneg row Hrest) as Hs.
    destruct j as [| j]; cbn [nth]; [lra |].
    specialize (IH j). lra.
Qed.

Lemma array_sum_nonneg (k : list (list R)) : nonnegative k -> 0 <= array_sum k.
Proof.
  intros Hk. unfold array_sum. apply row_sum_nonneg.
  apply Forall_map. eapply Forall_impl; [| exact Hk].
  intros row Hrow. apply row_sum_nonneg. exact Hrow.
Qed.

Lemma entry_le_array_sum (k : list (list R)) (i j : nat) :
  nonnegative k -> entry k i j <= array_sum k.
Proof.
  intros Hk. unfold entry, array_sum.
  assert (Hrows : Forall (fun v => 0 <= v) (map row_sum k)).
  { apply Forall_map. eapply Forall_impl; [| exact Hk].
    intros row Hrow. apply row_sum_nonneg. exact Hrow. }
  apply Rle_trans with (nth i (map row_sum k) 0);
    [| apply nth_le_row_sum; exact Hrows].
  change 0 with (row_sum []) at 2. rewrite map_nth.
  apply nth_le_row_sum.
  destruct (Nat.lt_ge_cases i (List.length k)) as [Hi | Hi].
  - unfold nonnegative in Hk. rewrite Forall_forall in Hk.
    apply Hk. apply nth_In. exact Hi.
  - rewrite nth_overflow by exact Hi. constructor.
Qed.

(** At an even size the centre pixel alone makes the raw sum at least 1. *)
Lemma raw_gauss_float_sum_even (b : Beam) (a : R) (p : nat) :
  size b = (2 * p)%nat -> (0 < p)%nat -> 1 <= array_sum (raw_gauss_float b a).
Proof.
  intros Heven Hp.
  rewrite <- (gauss_float_centre b a p Heven).
  rewrite <- (entry_fromfunction (gauss_float b a) (size b) (size b) p p)
    by lia.
  apply entry_le_array_sum. apply raw_gauss_float_nonnegative.
Qed.

Lemma normalise_finite (k : list (list R)) :
  array_sum k <> 0 -> normalise k = finite (array_div k (array_sum k)).
Proof.
  intros Hs. unfold normalise, finite, array_div.
  rewrite map_map. apply map_ext. intros row.
  rewrite map_map. apply map_ext. intros v.
  unfold np_divide. destruct (Req_dec_T (array_sum k) 0);
    [contradiction | reflexivity].
Qed.

Lemma array_div_nonneg (k : list (list R)) (s : R) :
  0 < s -> nonnegative k -> nonnegative (array_div k s).
Proof.
  intros Hs Hk. unfold nonnegative, array_div.
  apply Forall_map. eapply Forall_impl; [| exact Hk].
  intros row Hrow. cbv beta. apply Forall_map.
  eapply Forall_impl; [| exact Hrow].
  intros v Hv. cbv beta. unfold Rdiv. apply Rmult_le_pos; [exact Hv |].
  apply Rlt_le, Rinv_0_lt_compat. exact Hs.
Qed.

Lemma beam_intensity_float_ok (b : Beam) :
  stigm_y b + astigm_y b <> 0 ->
  sigma2_x_px b <> 0 -> sigma2_y_px b <> 0 ->
  beam_intensity_float b
  = Ok (normalise (raw_gauss_float b (astig_angle_value b))).
Proof.
  intros Hd Hx Hy. unfold beam_intensity_float.
  rewrite (astig_angle_ok _ Hd), (pydiv_ok _ _ Hx), (pydiv_ok _ _ Hy).
  reflexivity.
Qed.

Lemma beam_intensity_float_valid (b : Beam) :
  valid b ->
  beam_intensity_float b
  = Ok (normalise (raw_gauss_float b (astig_angle_value b))).
Proof.
  intros (Hc & Hp & Hd).
  pose proof (sigma2_x_px_pos b Hc Hp) as Hx.
  pose proof (sigma2_y_px_pos b Hc Hp) as Hy.
  apply beam_intensity_float_ok; [exact Hd | lra | lra].
Qed.

(** C1 (amended).  At valid parameters and any size from 8 to 256 at
    which the raw Gaussian does not sum to 0.0, as at every even size,
    the kernel is returned, its entries are real numbers, it is [size] by
    [size], the entries are non-negative and they sum to 1 (over the reals
    exactly, hence within any tolerance). *)
Theorem beam_intensity_sums_to_one (b : Beam)
    (Hv : valid b) (Hn : (8 <= size b <= 256)%nat)
    (Hsum : Nat.even (size b) = true \/
            array_sum (raw_gauss_float b (astig_angle_value b)) <> 0) :
  exists k : list (list R),
    beam_intensity_float b = Ok (finite k) /\
    square (size b) k /\ nonnegative k /\
    array_sum k = 1 /\ Rabs (array_sum k - 1) <= / 10 ^ 9.
Proof.
  rewrite (beam_intensity_float_valid b Hv).
  set (raw := raw_gauss_float b (astig_angle_value b)) in *.
  pose proof (raw_gauss_float_nonnegative b (astig_angle_value b)) as Hnn.
  fold raw in Hnn.
  assert (Hs : 0 < array_sum raw).
  { pose proof (array_sum_nonneg raw Hnn) as H0.
    destruct Hsum as [Heven | Hne]; [| lra].
    apply Nat.even_spec in Heven. destruct Heven as [p Hp].
    pose proof (raw_gauss_float_sum_even b (astig_angle_value b) p Hp
                  ltac:(lia)) as H1.
    fold raw in H1. lra. }
  exists (array_div raw (array_sum raw)).
  split; [f_equal; apply normalise_finite; lra |].
  split; [apply array_div_square; apply fromfunction_square |].
  split; [apply array_div_nonneg; assumption |].
  assert (Hone : array_sum (array_div raw (array_sum raw)) = 1).
  { rewrite array_sum_div. field. lra. }
  split; [exact Hone |].
  rewrite Hone. replace (1 - 1) with 0 by ring. rewrite Rabs_R0.
  apply Rlt_le. apply Rinv_0_lt_compat. apply pow_lt. lra.
Qed.

Lemma beam_at_focus_valid (n : nat) : valid (beam_at_focus n).
Proof. unfold valid. cbn. repeat split; lra. Qed.

Lemma beam_intensity_sums_to_one_witness :
  exists k : list (list R),
    beam_intensity_float (beam_at_focus 64) = Ok (finite k) /\
    square (size (beam_at_focus 64)) k /\ nonnegative k /\
    array_sum k = 1 /\ Rabs (array_sum k - 1) <= / 10 ^ 9.
Proof.
  apply (beam_intensity_sums_to_one (beam_at_focus 64)).
  - apply beam_at_focus_valid.
  - cbn. lia.
  - left. reflexivity.
Defined.

(** In focus both pixel variances are the current term, about 5e-6. *)
Lemma beam_at_focus_variances (n : nat) :
  sigma2_y_px (beam_at_focus n) = sigma2_x_px (beam_at_focus n) /\
  0 < sigma2_x_px (beam_at_focus n) <= / 2150.
Proof.
  unfold sigma2_y_px, sigma2_x_px, sigma2_y_mm, sigma2_x_mm, current_floor,
    defocus.
  cbn [beam_at_focus z_position pixels_per_mm astigm_x astigm_y misalign_x
       misalign_y focus stigm_x stigm_y align_x align_y beam_current
       convergence].
  replace (0 - 0) with 0 by ring. rewrite Rabs_R0.
  rewrite (Rabs_pos_eq (0 + 1 / 4)) by lra.
  split; [reflexivity |].
  replace (975 / 100 - 10 + 0 * / 10 ^ 2 + (0 + 1 / 4)) with 0 by field.
  replace ((0 * (1 / 100)) ^ 2) with 0 by ring.
  replace (/ 10 ^ 16 * (1 + 100 * 1) ^ 3 / 4)
    with (1030301 / 40000000000000000) by (simpl; field).
  replace ((256 / (5715 / 100) * 100) ^ 2)
    with (26214400000000 / 130644900) by (simpl; field).
  lra.
Qed.

Lemma odd_offset (p i : nat) :
  1 / 4 <= (INR i - INR (2 * p + 1) / 2) ^ 2.
Proof.
  rewrite plus_INR, mult_INR. cbn [INR].
  destruct (Nat.le_gt_cases i p) as [Hle | Hgt].
  - apply le_INR in Hle. nra.
  - assert (Hge : (p + 1 <= i)%nat) by lia.
    apply le_INR in Hge. rewrite plus_INR in Hge. cbn [INR] in Hge. nra.
Qed.

(** In focus every pixel that is not the centre underflows. *)
Lemma gauss_float_focus_underflows (n : nat) (a : R) (i j : nat) :
  1 / 2 <= (INR j - INR n / 2) ^ 2 + (INR i - INR n / 2) ^ 2 ->
  gauss_float (beam_at_focus n) a (INR i) (INR j) = 0.
Proof.
  intros Hfar. rewrite gauss_float_rotated. apply np_exp_underflow.
  destruct (beam_at_focus_variances n) as (Hy & Hs0 & Hs1).
  unfold rotated_form. rewrite Hy.
  change (size (beam_at_focus n)) with n.
  set (s := sigma2_x_px (beam_at_focus n)) in *.
  set (x := INR j - INR n / 2) in *. set (y := INR i - INR n / 2) in *.
  assert (Hinv : 2150 <= / s).
  { rewrite <- (Rinv_inv 2150). apply Rinv_le_contravar; assumption. }
  assert (Hsc : sin a ^ 2 + cos a ^ 2 = 1).
  { pose proof (sin2_cos2 a) as H. unfold Rsqr in H. lra. }
  replace ((x * cos a + y * sin a) ^ 2 / s + (y * cos a - x * sin a) ^ 2 / s)
    with ((x ^ 2 + y ^ 2) * (sin a ^ 2 + cos a ^ 2) * / s)
    by (unfold Rdiv; ring).
  rewrite Hsc. nra.
Qed.

Lemma fromfunction_zero (f : R -> R -> R) (n m : nat) :
  (forall i j : nat, f (INR i) (INR j) = 0) ->
  fromfunction f n m = zeros n m.
Proof.
  intros Hf. unfold fromfunction, zeros.
  rewrite (map_ext _ (fun _ => repeat 0 m)).
  - rewrite map_const, length_seq. reflexivity.
  - intros i. rewrite (map_ext _ (fun _ => 0)).
    + rewrite map_const, length_seq. reflexivity.
    + intros j. apply Hf.
Qed.

Lemma array_sum_zeros (n m : nat) : array_sum (zeros n m) = 0.
Proof.
  assert (Hrow : row_sum (repeat 0 m) = 0).
  { induction m as [| m IH]; cbn [repeat];
      [apply row_sum_nil | rewrite row_sum_cons, IH; ring]. }
  unfold array_sum, zeros. rewrite map_repeat, Hrow.
  induction n as [| n IH]; cbn [repeat];
    [apply row_sum_nil | rewrite row_sum_cons, IH; ring].
Qed.

Lemma normalise_zeros (n m : nat) :
  normalise (zeros n m) = repeat (repeat NaN m) n.
Proof.
  unfold normalise. rewrite array_sum_zeros. unfold zeros.
  rewrite !map_repeat. do 2 f_equal.
  unfold np_divide. destruct (Req_dec_T 0 0) as [_ | Hn];
    [reflexivity | contradiction Hn; reflexivity].
Qed.

(** At size 9 in focus no pixel is the centre: the raw Gaussian is 0.0
    everywhere. *)
Lemma raw_gauss_float_in_focus (a : R) :
  raw_gauss_float (beam_at_focus 9) a = zeros 9 9.
Proof.
  unfold raw_gauss_float. change (size (beam_at_focus 9)) with 9%nat.
  apply fromfunction_zero. intros i j.
  apply gauss_float_focus_underflows.
  pose proof (odd_offset 4 i) as Hi. pose proof (odd_offset 4 j) as Hj.
  change (2 * 4 + 1)%nat with 9%nat in Hi, Hj. lra.
Qed.

(** C1 as stated fails.  The beam in focus is valid and 9 is a size
    between 8 and 256, but every [np.exp] underflows, the raw sum is 0.0,
    and the kernel returned is NaN in all its 81 entries: no array of
    non-negative numbers that sum to 1. *)
Lemma kernel_nan_counterexample :
  valid (beam_at_focus 9) /\
  (8 <= size (beam_at_focus 9) <= 256)%nat /\
  beam_intensity_float (beam_at_focus 9) = Ok (repeat (repeat NaN 9) 9) /\
  ~ (exists k : list (list R),
       beam_intensity_float (beam_at_focus 9) = Ok (finite k) /\
       square (size (beam_at_focus 9)) k /\ nonnegative k /\
       array_sum k = 1).
Proof.
  assert (Hk : beam_intensity_float (beam_at_focus 9)
               = Ok (repeat (repeat NaN 9) 9)).
  { rewrite (beam_intensity_float_valid _ (beam_at_focus_valid 9)).
    rewrite raw_gauss_float_in_focus, normalise_zeros. reflexivity. }
  split; [apply beam_at_focus_valid |].
  split; [cbn; lia |].
  split; [exact Hk |].
  intros (k & Hfin & _). rewrite Hk in Hfin. injection Hfin as Hfin.
  destruct k as [| [| v row] k]; discriminate Hfin.
Qed.

(** C10 (amended).  With a non-negative beam current the current term is
    at least [1e-16/4] and both variances in mm are strictly positive;
    with a nonzero [pixels_per_mm] the pixel variances, by which [gauss]
    divides, are not zero and those divisions do not raise; and at every
    even, positive size the sum of the raw kernel, by which it is
    normalised, is at least 1 at any angle. *)
Theorem variances_and_kernel_sum_nonzero (b : Beam)
    (Hc : 0 <= beam_current b) :
  / 10 ^ 16 / 4 <= current_floor b /\
  0 < sigma2_x_mm b /\ 0 < sigma2_y_mm b /\
  (pixels_per_mm b <> 0 ->
     sigma2_x_px b <> 0 /\ sigma2_y_px b <> 0 /\
     pydiv 1 (sigma2_x_px b) = Ok (1 / sigma2_x_px b) /\
     pydiv 1 (sigma2_y_px b) = Ok (1 / sigma2_y_px b)) /\
  (forall (p : nat) (a : R),
     size b = (2 * p)%nat -> (0 < p)%nat ->
     1 <= array_sum (raw_gauss_float b a) /\
     array_sum (raw_gauss_float b a) <> 0).
Proof.
  split; [apply current_floor_lower; exact Hc |].
  split; [apply sigma2_x_mm_pos; exact Hc |].
  split; [apply sigma2_y_mm_pos; exact Hc |].
  split.
  - intros Hp.
    pose proof (sigma2_x_px_pos b Hc Hp) as Hx.
    pose proof (sigma2_y_px_pos b Hc Hp) as Hy.
    assert (Hx0 : sigma2_x_px b <> 0) by lra.
    assert (Hy0 : sigma2_y_px b <> 0) by lra.
    split; [exact Hx0 |]. split; [exact Hy0 |].
    split; apply pydiv_ok; assumption.
  - intros p a Heven Hp.
    pose proof (raw_gauss_float_sum_even b a p Heven Hp) as H1.
    split; [exact H1 | lra].
Qed.

Lemma variances_and_kernel_sum_nonzero_witness :
  0 <= beam_current (beam_at_focus 64) /\
  / 10 ^ 16 / 4 <= current_floor (beam_at_focus 64) /\
  sigma2_x_px (beam_at_focus 64) <> 0 /\
  sigma2_y_px (beam_at_focus 64) <> 0 /\
  1 <= array_sum (raw_gauss_float (beam_at_focus 64) 0).
Proof.
  assert (Hc : 0 <= beam_current (beam_at_focus 64)) by (cbn; lra).
  destruct (variances_and_kernel_sum_nonzero (beam_at_focus 64) Hc)
    as (Hfloor & _ & _ & Hpx & Hsum).
  destruct (Hpx ltac:(cbn; lra)) as (Hx & Hy & _).
  destruct (Hsum 32%nat 0 eq_refl ltac:(lia)) as [H1 _].
  repeat split; assumption.
Defined.

(** C10 as stated fails in its last part.  The beam in focus has a
    non-negative current and a nonzero scale, yet at size 9 the sum of the
    raw kernel, the denominator of the normalisation, is 0.0. *)
Lemma kernel_sum_zero_counterexample :
  0 <= beam_current (beam_at_focus 9) /\
  pixels_per_mm (beam_at_focus 9) <> 0 /\
  array_sum
    (raw_gauss_float (beam_at_focus 9) (astig_angle_value (beam_at_focus 9)))
  = 0.
Proof.
  split; [cbn; lra |]. split; [cbn; lra |].
  rewrite raw_gauss_float_in_focus. apply array_sum_zeros.
Qed.

Lemma entry_float_normalise (f : R -> R -> R) (n i j : nat) :
  (i < n)%nat -> (j < n)%nat ->
  entry_float (normalise (fromfunction f n n)) i j
  = np_divide (f (INR i) (INR j)) (array_sum (fromfunction f n n)).
Proof.
  intros Hi Hj. unfold entry_float, normalise.
  set (s := array_sum (fromfunction f n n)).
  unfold fromfunction. rewrite map_map.
  rewrite (map_ext _ (fun i0 => map (fun j0 => np_divide (f (INR i0) (INR j0)) s)
                                  (seq 0 n)))
    by (intros i0; apply map_map).
  rewrite (nth_indep _ []
             (map (fun j0 => np_divide (f (INR 0) (INR j0)) s) (seq 0 n)))
    by (rewrite length_map, length_seq; exact Hi).
  rewrite (map_nth (fun i0 => map (fun j0 => np_divide (f (INR i0) (INR j0)) s)
                                (seq 0 n)) (seq 0 n) 0%nat i).
  rewrite seq_nth by exact Hi. cbn [Nat.add].
  rewrite (nth_indep _ NaN (np_divide (f (INR i) (INR 0)) s))
    by (rewrite length_map, length_seq; exact Hj).
  rewrite (map_nth (fun j0 => np_divide (f (INR i) (INR j0)) s)
             (seq 0 n) 0%nat j).
  rewrite seq_nth by exact Hj. reflexivity.
Qed.

Lemma beam_intensity_float_inv (b : Beam) (k : list (list float64)) :
  beam_intensity_float b = Ok k ->
  k = normalise (raw_gauss_float b (astig_angle_value b)).
Proof.
  unfold beam_intensity_float, astig_angle, pydiv.
  destruct (Req_dec_T (stigm_y b + astigm_y b) 0) as [Hd | Hd];
    [simpl; discriminate |].
  destruct (Req_dec_T (sigma2_y_px b) 0) as [Hy | Hy];
    [simpl; discriminate |].
  destruct (Req_dec_T (sigma2_x_px b) 0) as [Hx | Hx];
    [simpl; discriminate |].
  simpl. intros H. injection H as <-. reflexivity.
Qed.

(** X8.  For a kernel of even size, at a non-negative current and a
    nonzero scale, the raw Gaussian is exactly 1 at the centre
    [(n/2, n/2)], and every entry of the kernel is a real number that is
    not negative and does not exceed the entry at the centre, which is
    positive.  Entries away from the centre can be exactly 0.0, where
    [np.exp] underflows. *)
Theorem beam_intensity_peak_at_centre (b : Beam) (k : list (list float64))
    (p i j : nat)
    (Hc : 0 <= beam_current b) (Hp : pixels_per_mm b <> 0)
    (Hk : beam_intensity_float b = Ok k)
    (Heven : size b = (2 * p)%nat)
    (Hi : (i < size b)%nat) (Hj : (j < size b)%nat) :
  gauss_float b (astig_angle_value b) (INR p) (INR p) = 1 /\
  exists v vc : R,
    entry_float k i j = Num v /\ entry_float k p p = Num vc /\
    0 <= v <= vc /\ 0 < vc.
Proof.
  pose proof (sigma2_x_px_pos b Hc Hp) as Hx.
  pose proof (sigma2_y_px_pos b Hc Hp) as Hy.
  apply beam_intensity_float_inv in Hk. subst k.
  set (a := astig_angle_value b).
  pose proof (gauss_float_centre b a p Heven) as Hcentre.
  split; [exact Hcentre |].
  pose proof (raw_gauss_float_sum_even b a p Heven ltac:(lia)) as Hs.
  unfold raw_gauss_float in *.
  set (s := array_sum (fromfunction (gauss_float b a) (size b) (size b))) in *.
  assert (Hdiv : forall v : R, np_divide v s = Num (v / s)).
  { intros v. unfold np_divide.
    destruct (Req_dec_T s 0); [lra | reflexivity]. }
  exists (gauss_float b a (INR i) (INR j) / s), (1 / s).
  rewrite !entry_float_normalise by lia. fold s.
  rewrite Hcentre, !Hdiv.
  split; [reflexivity |]. split; [reflexivity |].
  assert (Hinv : 0 < / s) by (apply Rinv_0_lt_compat; lra).
  pose proof (gauss_float_nonneg b a (INR i) (INR j)) as H0.
  assert (H1 : gauss_float b a (INR i) (INR j) <= 1).
  { rewrite gauss_float_rotated. apply np_exp_le_1.
    pose proof (rotated_form_nonneg b a
                  (INR j - INR (size b) / 2) (INR i - INR (size b) / 2)
                  Hx Hy) as Hq.
    lra. }
  unfold Rdiv. split; [split |]; nra.
Qed.

Lemma beam_intensity_peak_at_centre_witness :
  gauss_float (beam_at_focus 64) (astig_angle_value (beam_at_focus 64))
    (INR 3) (INR 60) = 0 /\
  exists v vc : R,
    entry_float
      (normalise (raw_gauss_float (beam_at_focus 64)
                    (astig_angle_value (beam_at_focus 64)))) 3 60 = Num v /\
    entry_float
      (normalise (raw_gauss_float (beam_at_focus 64)
                    (astig_angle_value (beam_at_focus 64)))) 32 32 = Num vc /\
    0 <= v <= vc /\ 0 < vc.
Proof.
  split.
  - apply gauss_float_focus_underflows.
    assert (H3 : INR 3 = 3) by (rewrite INR_IZR_INZ; reflexivity).
    assert (H60 : INR 60 = 60) by (rewrite INR_IZR_INZ; reflexivity).
    assert (H64 : INR 64 = 64) by (rewrite INR_IZR_INZ; reflexivity).
    rewrite H3, H60, H64. lra.
  - apply (beam_intensity_peak_at_centre (beam_at_focus 64) _ 32 3 60).
    + cbn. lra.
    + cbn. lra.
    + apply beam_intensity_float_valid. apply beam_at_focus_valid.
    + reflexivity.
    + cbn. lia.
    + cbn. lia.
Defined.

End KernelFloat.

Section CentreShift.

Lemma py_int_opp (x : R) : py_int (- x) = (- py_int x)%Z.
Proof.
  apply (truncates_unique (- x)); [apply py_int_truncates |].
  destruct (py_int_truncates x) as [Hp Hn].
  unfold truncates. rewrite opp_IZR. split; intros H.
  - specialize (Hn ltac:(lra)). lra.
  - specialize (Hp ltac:(lra)). lra.
Qed.

Lemma py_int_zero : py_int 0 = 0%Z.
Proof.
  apply (truncates_unique 0); [apply py_int_truncates |].
  unfold truncates. split; intros _; lra.
Qed.

Lemma clamp_signed_opp (cap c : Z) :
  clamp_signed cap (- c) = (- clamp_signed cap c)%Z.
Proof.
  unfold clamp_signed. rewrite Z.abs_opp, Z.sgn_opp. ring.
Qed.

(** X9.  With a nonzero focus the centre shift is an odd function of the
    alignment error [align - misalign]: mirroring the error on both axes
    negates both shifts (truncation is toward zero, not downward), and
    with the alignment equal to the misalignment both shifts are 0. *)
Theorem center_odd_in_alignment (b : Beam) (dx dy : R)
    (Hf : focus b <> 0) :
  center_x (with_align b (misalign_x b - dx) (misalign_y b - dy))
    = Ok (- center_x_value
              (with_align b (misalign_x b + dx) (misalign_y b + dy)))%Z /\
  center_y (with_align b (misalign_x b - dx) (misalign_y b - dy))
    = Ok (- center_y_value
              (with_align b (misalign_x b + dx) (misalign_y b + dy)))%Z /\
  center_x (with_align b (misalign_x b) (misalign_y b)) = Ok 0%Z /\
  center_y (with_align b (misalign_x b) (misalign_y b)) = Ok 0%Z.
Proof.
  repeat split.
  - rewrite center_x_ok by exact Hf. f_equal.
    unfold center_x_value. rewrite <- clamp_signed_opp, <- py_int_opp.
    f_equal. f_equal. unfold defocus. simpl. field. exact Hf.
  - rewrite center_y_ok by exact Hf. f_equal.
    unfold center_y_value. rewrite <- clamp_signed_opp, <- py_int_opp.
    f_equal. f_equal. unfold defocus. simpl. field. exact Hf.
  - rewrite center_x_ok by exact Hf. f_equal. unfold center_x_value.
    replace ((align_x (with_align b (misalign_x b) (misalign_y b))
              - misalign_x (with_align b (misalign_x b) (misalign_y b)))
             * defocus (with_align b (misalign_x b) (misalign_y b))
             / focus (with_align b (misalign_x b) (misalign_y b))
             * pixels_per_mm (with_align b (misalign_x b) (misalign_y b)))
      with 0 by (unfold defocus; simpl; field; exact Hf).
    rewrite py_int_zero. reflexivity.
  - rewrite center_y_ok by exact Hf. f_equal. unfold center_y_value.
    replace ((align_y (with_align b (misalign_x b) (misalign_y b))
              - misalign_y (with_align b (misalign_x b) (misalign_y b)))
             * defocus (with_align b (misalign_x b) (misalign_y b))
             / focus (with_align b (misalign_x b) (misalign_y b))
             * pixels_per_mm (with_align b (misalign_x b) (misalign_y b)))
      with 0 by (unfold defocus; simpl; field; exact Hf).
    rewrite py_int_zero. reflexivity.
Qed.

Lemma center_odd_in_alignment_witness :
  center_x (with_align beam_drawn (misalign_x beam_drawn)
              (misalign_y beam_drawn)) = Ok 0%Z /\
  center_y (with_align beam_drawn (misalign_x beam_drawn)
              (misalign_y beam_drawn)) = Ok 0%Z.
Proof.
  destruct (center_odd_in_alignment beam_drawn 0 0 ltac:(simpl; lra))
    as (_ & _ & Hx & Hy).
  split; assumption.
Defined.

End CentreShift.

Section ScanCoverage.

Variable cT : nat -> convolved.
Variable rd : nat -> nat -> nat -> R.

(** X12.  From line 0, at any speed from 1 to 10 and over at least 2
    columns, no column is skipped: for every column [c] of the frame
    there is a tick of the cycle whose written range contains [c]. *)
Theorem scan_covers_every_column (m : Microscope) (c : Z)
    (Hop : operable m)
    (H0 : line m = 0%Z)
    (Hsp : (1 <= speed m <= 10)%Z)
    (Hh : (2 <= snd (resolution m))%Z)
    (Hc : (0 <= c < snd (resolution m))%Z) :
  exists (n : nat) (mn : Microscope) (a b : Z),
    ticks cT rd n m = Ok mn /\
    written mn = Some (a, b) /\ (a <= c < b)%Z.
Proof.
  set (s := step_of m). set (h := snd (resolution m)).
  assert (Hs : (1 <= s <= 10)%Z) by (unfold s, step_of; lia).
  set (D := (h - 1 - s)%Z).
  (* the number of ticks that take the first branch *)
  set (K := if (D <=? 0)%Z then 0%Z else ((D + s - 1) / s)%Z).
  assert (HK : (0 <= K /\ D <= K * s /\ K * s < h - 1
                /\ (0 < K -> (K - 1) * s < D))%Z).
  { unfold K. destruct (D <=? 0)%Z eqn:HD.
    - apply Z.leb_le in HD. unfold D in *. lia.
    - apply Z.leb_gt in HD.
      pose proof (Z.div_mod (D + s - 1) s ltac:(lia)) as Hdm.
      pose proof (Z.mod_pos_bound (D + s - 1) s ltac:(lia)) as Hmod.
      unfold D in *. nia. }
  destruct HK as (HK0 & HK1 & HK2 & HK3).
  pose proof (Z.div_mod c s ltac:(lia)) as Hdm.
  pose proof (Z.mod_pos_bound c s ltac:(lia)) as Hmod.
  set (q := (c / s)%Z) in *.
  assert (Hq0 : (0 <= q)%Z) by (apply Z.div_pos; lia).
  destruct (Z_lt_ge_dec q K) as [Hlt | Hge].
  - (* a full slice *)
    assert (Hfit : (Z.of_nat (Z.to_nat q) * step_of m
                    < snd (resolution m) - 1)%Z).
    { rewrite Z2Nat.id by lia. fold s h. nia. }
    destruct (ticks_line_full cT rd m (Z.to_nat q) H0 ltac:(lia) Hop Hfit)
      as (mq & Hrun & Hl).
    rewrite Z2Nat.id in Hl by lia. fold s in Hl.
    pose proof (ticks_keeps cT rd _ m mq Hrun) as Hkeep.
    destruct (same_settings_step _ _ Hkeep) as [Hst Hhq].
    destruct (written_cases mq) as (Hw & _).
    exists (Z.to_nat q), mq, (line mq), (line mq + step_of mq)%Z.
    split; [exact Hrun |]. split.
    + apply Hw. rewrite Hl, Hst, Hhq. fold s h. unfold D in *. nia.
    + rewrite Hl, Hst. fold s. nia.
  - (* the last slice *)
    assert (Hfit : (Z.of_nat (Z.to_nat K) * step_of m
                    < snd (resolution m) - 1)%Z).
    { rewrite Z2Nat.id by lia. fold s h. lia. }
    destruct (ticks_line_full cT rd m (Z.to_nat K) H0 ltac:(lia) Hop Hfit)
      as (mk & Hrun & Hl).
    rewrite Z2Nat.id in Hl by lia. fold s in Hl.
    pose proof (ticks_keeps cT rd _ m mk Hrun) as Hkeep.
    destruct (same_settings_step _ _ Hkeep) as [Hst Hhk].
    destruct (written_cases mk) as (_ & Hw & _).
    exists (Z.to_nat K), mk, (line mk), (snd (resolution mk)).
    split; [exact Hrun |]. split.
    + apply Hw; rewrite ?Hl, ?Hst, ?Hhk; fold s h; unfold D in *; lia.
    + rewrite Hl, Hhk. fold h. nia.
Qed.

End ScanCoverage.

Section ScanCoverageWitness.

Lemma scan_covers_every_column_witness :
  exists (n : nat) (mn : Microscope) (a b : Z),
    ticks flat_conv half_rand n (with_speed microscope0 10) = Ok mn /\
    written mn = Some (a, b) /\ (a <= 191 < b)%Z.
Proof.
  apply (scan_covers_every_column flat_conv half_rand
           (with_speed microscope0 10) 191 speed10_operable eq_refl).
  - simpl. lia.
  - simpl. lia.
  - simpl. lia.
Defined.

End ScanCoverageWitness.

Section ScanLiveness.

Lemma bind_Ok_r {A : Type} (c : result A) : (x <- c ;; Ok x) = c.
Proof. destruct c; reflexivity. Qed.

Lemma bind_assoc {A B C : Type} (c : result A) (f : A -> result B)
    (g : B -> result C) :
  (y <- (x <- c ;; f x) ;; g y) = (x <- c ;; y <- f x ;; g y).
Proof. destruct c; reflexivity. Qed.

(** The first tick of a run, taken off the front. *)
Lemma ticks_front (cT : nat -> convolved) (rd : nat -> nat -> nat -> R)
    (n : nat) (m : Microscope) :
  ticks cT rd (S n) m =
    (m1 <- scanning (cT 0%nat) (rd 0%nat) m ;;
     ticks (fun t => cT (S t)) (fun t => rd (S t)) n m1).
Proof.
  induction n as [| n IH].
  - cbn [ticks bind]. rewrite bind_Ok_r. reflexivity.
  - rewrite (ticks_S cT rd m (S n)), IH, bind_assoc.
    destruct (scanning (cT 0%nat) (rd 0%nat) m) as [m1 | e]; reflexivity.
Qed.

Lemma scan_returns_within (k : nat) :
  forall (m : Microscope) (cT : nat -> convolved)
         (rd : nat -> nat -> nat -> R),
    operable m -> (1 <= step_of m)%Z ->
    (Z.to_nat (snd (resolution m) - 1 - line m) <= k)%nat ->
    exists (n : nat) (m' : Microscope),
      (0 < n)%nat /\
      (Z.of_nat n <= Z.max 0 (snd (resolution m) - 1 - line m) + 1)%Z /\
      ticks cT rd n m = Ok m' /\ line m' = 0%Z.
Proof.
  induction k as [| k IH]; intros m cT rd Hop Hstep Hk.
  - exists 1%nat. eexists. split; [lia |]. split; [lia |].
    cbn [ticks bind]. split; [apply scanning_reset; lia | reflexivity].
  - destruct (Z_lt_ge_dec (line m) (snd (resolution m) - 1)) as [Hl | Hl].
    + assert (Hrun : exists m1 : Microscope,
                scanning (cT 0%nat) (rd 0%nat) m = Ok m1 /\
                line m1 = (line m + step_of m)%Z).
      { destruct (Z_lt_ge_dec (line m) (snd (resolution m) - 1 - step_of m))
          as [H1 | H1].
        - eexists. split; [apply (scanning_full _ _ m Hop H1) | reflexivity].
        - eexists. split;
            [apply (scanning_last _ _ m Hop ltac:(lia) Hl) | reflexivity]. }
      destruct Hrun as (m1 & Hrun & Hl1).
      pose proof (scanning_keeps _ _ m m1 Hrun) as Hkeep.
      destruct (same_settings_step _ _ Hkeep) as [Hst Hh].
      pose proof (same_settings_operable _ _ Hkeep Hop) as Hop1.
      destruct (IH m1 (fun t => cT (S t)) (fun t => rd (S t)) Hop1
                  ltac:(lia) ltac:(rewrite Hh, Hl1; lia))
        as (n & m' & Hn & Hb & Hticks & H0).
      exists (S n), m'. split; [lia |]. split.
      * rewrite Hh, Hl1 in Hb. lia.
      * split; [| exact H0]. rewrite ticks_front, Hrun. exact Hticks.
    + exists 1%nat. eexists. split; [lia |]. split; [lia |].
      cbn [ticks bind]. split; [apply scanning_reset; lia | reflexivity].
Qed.

(** X13.  The scan never gets stuck: from any line, at a speed from 1 to
    10 and in a state where ticks run, every run of ticks brings the line
    back to 0, after at least one tick and at most
    [max(0, height - 1 - line) + 1] ticks. *)
Theorem scan_returns_to_first_line (m : Microscope)
    (cT : nat -> convolved) (rd : nat -> nat -> nat -> R)
    (Hop : operable m)
    (Hline : (0 <= line m)%Z)
    (Hsp : (1 <= speed m <= 10)%Z) :
  exists (n : nat) (m' : Microscope),
    (0 < n)%nat /\
    (Z.of_nat n <= Z.max 0 (snd (resolution m) - 1 - line m) + 1)%Z /\
    ticks cT rd n m = Ok m' /\ line m' = 0%Z.
Proof.
  apply (scan_returns_within
           (Z.to_nat (snd (resolution m) - 1 - line m)) m cT rd Hop).
  - unfold step_of. lia.
  - lia.
Qed.

Lemma scan_returns_to_first_line_witness :
  exists (n : nat) (m' : Microscope),
    (0 < n)%nat /\
    (Z.of_nat n <= 192)%Z /\
    ticks flat_conv half_rand n microscope0 = Ok m' /\ line m' = 0%Z.
Proof.
  exact (scan_returns_to_first_line microscope0 flat_conv half_rand
           microscope0_operable ltac:(simpl; lia) ltac:(simpl; lia)).
Defined.

End ScanLiveness.

Section Slots.

Lemma update_datazone_inv (i i' : Instrument) :
  update_datazone i = Done i' -> i' = i.
Proof.
  unfold update_datazone.
  destruct (getitem (mags i) (curr_mag i)); cbn [obind]; intros H;
    [injection H as <-; reflexivity | discriminate H].
Qed.

Lemma getitem_in_range (l : list Z) (c : Z) :
  (0 <= c < Z.of_nat (List.length l))%Z ->
  getitem l c = Done (nth (Z.to_nat c) l 0%Z).
Proof.
  intros Hc. unfold getitem.
  assert (H : ((0 <=? c) && (c <? Z.of_nat (List.length l)))%Z%bool = true).
  { apply andb_true_intro. split; [apply Z.leb_le | apply Z.ltb_lt]; lia. }
  rewrite H. reflexivity.
Qed.

Lemma getitem_out_of_range (l : list Z) (c : Z) :
  (c < - Z.of_nat (List.length l) \/ Z.of_nat (List.length l) <= c)%Z ->
  getitem l c = Failed IndexError.
Proof.
  intros Hc. unfold getitem.
  assert (H1 : ((0 <=? c) && (c <? Z.of_nat (List.length l)))%Z%bool = false).
  { apply Bool.andb_false_iff.
    destruct Hc; [left; apply Z.leb_gt | right; apply Z.ltb_ge]; lia. }
  assert (H2 : ((- Z.of_nat (List.length l) <=? c) && (c <? 0))%Z%bool = false).
  { apply Bool.andb_false_iff.
    destruct Hc; [left; apply Z.leb_gt | right; apply Z.ltb_ge]; lia. }
  rewrite H1, H2. reflexivity.
Qed.

Lemma getitem_done_iff (l : list Z) (c : Z) :
  (exists v : Z, getitem l c = Done v) <->
  (- Z.of_nat (List.length l) <= c < Z.of_nat (List.length l))%Z.
Proof.
  split.
  - intros [v Hv].
    destruct (Z_lt_ge_dec c (- Z.of_nat (List.length l))) as [H1 | H1].
    + rewrite getitem_out_of_range in Hv by lia. discriminate Hv.
    + destruct (Z_lt_ge_dec c (Z.of_nat (List.length l))) as [H2 | H2];
        [lia |].
      rewrite getitem_out_of_range in Hv by lia. discriminate Hv.
  - intros Hc. destruct (Z_lt_ge_dec c 0) as [Hneg | Hpos].
    + unfold getitem.
      assert (H1 : ((0 <=? c) && (c <? Z.of_nat (List.length l)))%Z%bool
                   = false).
      { apply Bool.andb_false_iff. left. apply Z.leb_gt. lia. }
      assert (H2 : ((- Z.of_nat (List.length l) <=? c) && (c <? 0))%Z%bool
                   = true).
      { apply andb_true_intro. split; [apply Z.leb_le | apply Z.ltb_lt]; lia. }
      rewrite H1, H2. eexists; reflexivity.
    + rewrite getitem_in_range by lia. eexists; reflexivity.
Qed.

End Slots.

Section Interlock.

Ltac osolve :=
  repeat match goal with
         | H : obind ?c _ = Done _ |- _ =>
             let E := fresh "E" in
             destruct c eqn:E; cbn [obind] in H; [| discriminate H]
         | H : update_datazone _ = Done _ |- _ =>
             apply update_datazone_inv in H; subst
         | H : Done _ = Done _ |- _ => injection H as H; subst
         end.

Lemma stop_if_active_keeps (m : Microscope) :
  same_settings_but_scan m (stop_if_active m).
Proof.
  unfold stop_if_active, start_stop, same_settings_but_scan.
  destruct (scan_active m); repeat split; reflexivity.
Qed.

Lemma scan_tick_inv (convT : convolved) (rand : nat -> nat -> R)
    (i i' : Instrument) :
  scan_tick convT rand i = Done i' ->
  exists m' : Microscope,
    scanning convT rand (scope i) = Ok m' /\ i' = set_scope i m'.
Proof.
  unfold scan_tick.
  destruct (scanning convT rand (scope i)) as [m' | e]; cbn; intros H;
    [injection H as <- | discriminate H].
  exists m'. split; reflexivity.
Qed.

(** The slots outside the vacuum and high-voltage panel leave its state
    alone. *)
Lemma handle_keeps_panel (e : event) (i i' : Instrument) :
  match e with
  | Click_vent_pump | Pump_timeout _ | Click_beamOn | Hv_timeout _ => False
  | _ => True
  end ->
  handle e i = Done i' ->
  vent i' = vent i /\ pressure i' = pressure i /\
  pump_timer_running i' = pump_timer_running i /\
  beamOn_enabled i' = beamOn_enabled i /\
  vent_pump_enabled i' = vent_pump_enabled i /\
  hv_timer_running i' = hv_timer_running i /\
  beam_on (scope i') = beam_on (scope i) /\
  h_v (scope i') = h_v (scope i) /\
  hv_target (scope i') = hv_target (scope i).
Proof.
  destruct e; intros Hk H; try contradiction; cbn [handle] in H.
  - unfold magnification in H. osolve. repeat split; reflexivity.
  - unfold resolution_choice in H. osolve. repeat split; reflexivity.
  - osolve. repeat split; reflexivity.
  - osolve. unfold start_stop.
    destruct (scan_active (scope i)); repeat split; reflexivity.
  - apply scan_tick_inv in H. destruct H as (m' & Hrun & ->).
    destruct (scanning_keeps _ _ _ _ Hrun)
      as (_ & _ & _ & Hon & _ & _ & Hv & Ht & _).
    cbn. repeat split; assumption.
  - osolve. unfold wobble. destruct checked; repeat split; reflexivity.
  - osolve. repeat split; reflexivity.
  - unfold Microscope_focus in H. osolve. repeat split; reflexivity.
  - osolve. repeat split; reflexivity.
  - osolve. repeat split; reflexivity.
  - osolve. repeat split; reflexivity.
  - osolve. repeat split; reflexivity.
  - unfold Microscope_beam_current in H. osolve. repeat split; reflexivity.
  - unfold sample_loading in H. osolve.
    destruct (stop_if_active_keeps (scope i))
      as (_ & _ & Hon & Hv & Ht & _).
    cbn. repeat split; assumption.
  - osolve. unfold save_image.
    destruct (stop_if_active_keeps (scope i))
      as (_ & _ & Hon & Hv & Ht & _).
    cbn. repeat split; assumption.
Qed.

Lemma interlocked_step (e : event) (i i' : Instrument) :
  interlocked i -> deliverable e i -> handle e i = Done i' ->
  interlocked i'.
Proof.
  intros (P1 & P2 & P3) Hd H.
  destruct e;
    try (pose proof (fun K => handle_keeps_panel _ i i' K H) as Hkeep;
         destruct (Hkeep I) as (Hv & Hp & Ht & Hb & Hvp & _ & Hon & _);
         unfold interlocked; rewrite Hv, Hp, Ht, Hb, Hvp, Hon;
         split; [exact P1 |]; split; [exact P2 | exact P3]);
    cbn [handle deliverable] in *.
  - (* vent or pump *)
    osolve. unfold vent_pump, interlocked.
    destruct (vent i) eqn:Hvent; cbn.
    + split; [reflexivity |]. split; intros Hx.
      * destruct (P2 Hx) as [Hc _]. discriminate Hc.
      * destruct (P3 Hx) as [Hc _]. discriminate Hc.
    + split; [discriminate |]. split; intros Hx; [discriminate Hx |].
      destruct (P3 Hx) as (_ & _ & Hc). rewrite Hc in Hd. discriminate Hd.
  - (* a timeout of the pump timer *)
    destruct Hd as [Hrun Hr]. osolve.
    unfold pump, interlocked.
    destruct (Rlt_dec (/ 10 ^ 5) (pressure i)) as [Hhigh | Hlow]; cbn.
    + split; [exact P1 |]. split; intros Hx.
      * destruct (P2 Hx) as [_ Hc]. lra.
      * destruct (P3 Hx) as (_ & Hc & _). lra.
    + split; [discriminate |]. split; intros Hx.
      * split; [apply (P1 Hrun) | lra].
      * destruct (P3 Hx) as (Hv & _ & Hvp).
        split; [exact Hv |]. split; [lra | exact Hvp].
  - (* the beam button *)
    destruct (P2 Hd) as [Hvent Hp].
    unfold beam_on_off in H.
    destruct (beam_on (scope i)) eqn:Hon.
    + osolve. unfold interlocked. cbn.
      split; [exact P1 |]. split; intros Hx; [apply (P2 Hx) | discriminate Hx].
    + osolve. unfold interlocked. cbn.
      split; [exact P1 |]. split; intros Hx; [apply (P2 Hx) |].
      split; [exact Hvent |]. split; [exact Hp | reflexivity].
  - (* a timeout of the high-voltage timer *)
    unfold hv_rise in H.
    destruct (Rlt_dec (h_v (scope i)) (hv_target (scope i)));
      osolve; unfold interlocked; cbn;
      (split; [exact P1 |]; split; [exact P2 | exact P3]).
Qed.

(** X14.  The vacuum interlock holds in every state the instrument
    reaches from an interlocked one: the beam is never on, and the beam
    button never enabled, in a vented chamber or above 1e-5 Torr, and the
    chamber cannot be vented while the beam is on. *)
Theorem interlock_invariant (i0 i : Instrument)
    (H0 : interlocked i0) (Hreach : reaches i0 i) :
  interlocked i.
Proof.
  induction Hreach as [| i e i' Hreach IH Hd H].
  - exact H0.
  - apply (interlocked_step e i i' IH Hd H).
Qed.

End Interlock.

Section PanelInvariants.

Ltac osolve :=
  repeat match goal with
         | H : obind ?c _ = Done _ |- _ =>
             let E := fresh "E" in
             destruct c eqn:E; cbn [obind] in H; [| discriminate H]
         | H : update_datazone _ = Done _ |- _ =>
             apply update_datazone_inv in H; subst
         | H : Done _ = Done _ |- _ => injection H as H; subst
         end.

Lemma Instrument_init_interlocked (width target r_z r_ax r_ay r_mx r_my : R)
    (f a : Z) :
  interlocked
    (Instrument_init width target r_z r_ax r_ay r_mx r_my false f a).
Proof.
  unfold interlocked. cbn. repeat split; discriminate.
Qed.

Lemma interlock_invariant_witness :
  interlocked (pump (1 / 2) (vent_pump instrument0)).
Proof.
  apply (interlock_invariant instrument0).
  - apply Instrument_init_interlocked.
  - apply (reaches_event _ (vent_pump instrument0) (Pump_timeout (1 / 2))).
    + apply (reaches_event _ instrument0 Click_vent_pump).
      * apply reaches_start.
      * reflexivity.
      * reflexivity.
    + split; [reflexivity | unfold unit_draw; lra].
    + reflexivity.
Defined.

Lemma pressure_bounded_step (e : event) (i i' : Instrument) :
  pressure_bounded i -> deliverable e i -> handle e i = Done i' ->
  pressure_bounded i'.
Proof.
  intros Hp Hd H. unfold pressure_bounded in *.
  destruct e;
    try (pose proof (fun K => handle_keeps_panel _ i i' K H) as Hkeep;
         destruct (Hkeep I) as (_ & Hpr & _); rewrite Hpr; exact Hp);
    cbn [handle deliverable] in *.
  - osolve. unfold vent_pump. destruct (vent i); cbn; [| exact Hp].
    split; [| lra].
    assert (H5 : 1 <= 2 * 10 ^ 5) by (simpl; lra).
    assert (Hinv : / (2 * 10 ^ 5) <= 1).
    { rewrite <- Rinv_1. apply Rinv_le_contravar; lra. }
    lra.
  - destruct Hd as [_ [Hr0 Hr1]]. osolve. unfold pump.
    destruct (Rlt_dec (/ 10 ^ 5) (pressure i)) as [Hhigh | Hlow]; cbn;
      [| exact Hp].
    assert (Hhalf : / (2 * 10 ^ 5) = / 10 ^ 5 / 2).
    { field. }
    assert (Hpos : 0 < / 10 ^ 5).
    { apply Rinv_0_lt_compat. apply pow_lt. lra. }
    rewrite Hhalf in *. split; nra.
  - unfold beam_on_off in H. destruct (beam_on (scope i)); osolve; exact Hp.
  - unfold hv_rise in H.
    destruct (Rlt_dec (h_v (scope i)) (hv_target (scope i))); osolve;
      exact Hp.
Qed.

(** X15.  From the pressure of 760 Torr the pump only lowers the pressure
    and never takes it to 5e-6 Torr or below, whatever else is operated:
    the pressure stays in (5e-6, 760] in every state the instrument
    reaches. *)
Theorem pressure_invariant (i0 i : Instrument)
    (H0 : pressure_bounded i0) (Hreach : reaches i0 i) :
  pressure_bounded i.
Proof.
  induction Hreach as [| i e i' Hreach IH Hd H].
  - exact H0.
  - apply (pressure_bounded_step e i i' IH Hd H).
Qed.

Lemma reaches_pumped :
  reaches instrument0 (pump (1 / 2) (vent_pump instrument0)).
Proof.
  apply (reaches_event _ (vent_pump instrument0) (Pump_timeout (1 / 2))).
  - apply (reaches_event _ instrument0 Click_vent_pump).
    + apply reaches_start.
    + reflexivity.
    + reflexivity.
  - split; [reflexivity | unfold unit_draw; lra].
  - reflexivity.
Qed.

Lemma instrument0_pressure : pressure_bounded instrument0.
Proof.
  unfold pressure_bounded. cbn. split; [| lra].
  assert (H5 : 1 <= 2 * 10 ^ 5) by (simpl; lra).
  assert (Hinv : / (2 * 10 ^ 5) <= 1).
  { rewrite <- Rinv_1. apply Rinv_le_contravar; lra. }
  lra.
Qed.

Lemma pressure_invariant_witness :
  pressure_bounded (pump (1 / 2) (vent_pump instrument0)).
Proof.
  exact (pressure_invariant instrument0 _ instrument0_pressure
           reaches_pumped).
Defined.

Lemma hv_bounded_step (e : event) (i i' : Instrument) :
  hv_bounded i -> deliverable e i -> handle e i = Done i' -> hv_bounded i'.
Proof.
  intros (Ht & Hv) Hd H. unfold hv_bounded in *.
  destruct e;
    try (pose proof (fun K => handle_keeps_panel _ i i' K H) as Hkeep;
         destruct (Hkeep I) as (_ & _ & _ & _ & _ & _ & _ & Hhv & Htg);
         rewrite Hhv, Htg; split; assumption);
    cbn [handle deliverable] in *.
  - osolve. unfold vent_pump. destruct (vent i); cbn; split; assumption.
  - osolve. unfold pump.
    destruct (Rlt_dec (/ 10 ^ 5) (pressure i)); cbn; split; assumption.
  - unfold beam_on_off in H. destruct (beam_on (scope i)); osolve; cbn.
    + split; [exact Ht | lra].
    + split; assumption.
  - destruct Hd as [_ [Hr0 Hr1]]. unfold hv_rise in H.
    destruct (Rlt_dec (h_v (scope i)) (hv_target (scope i))); osolve; cbn;
      (split; [exact Ht | lra]).
Qed.

(** X16.  With a non-negative target the high voltage stays at or above
    0 and less than 1 kV above the target in every state the instrument
    reaches: a rising step adds less than 1 kV and is taken only below
    the target. *)
Theorem hv_invariant (i0 i : Instrument)
    (H0 : hv_bounded i0) (Hreach : reaches i0 i) :
  hv_bounded i.
Proof.
  induction Hreach as [| i e i' Hreach IH Hd H].
  - exact H0.
  - apply (hv_bounded_step e i i' IH Hd H).
Qed.

Lemma hv_invariant_witness :
  hv_bounded (pump (1 / 2) (vent_pump instrument0)).
Proof.
  apply (hv_invariant instrument0 _); [| exact reaches_pumped].
  unfold hv_bounded. cbn. lra.
Defined.

End PanelInvariants.

Section ScanInvariant.

Ltac osolve :=
  repeat match goal with
         | H : obind ?c _ = Done _ |- _ =>
             let E := fresh "E" in
             destruct c eqn:E; cbn [obind] in H; [| discriminate H]
         | H : update_datazone _ = Done _ |- _ =>
             apply update_datazone_inv in H; subst
         | H : Done _ = Done _ |- _ => injection H as H; subst
         end.

Lemma scan_consistent_same (m m' : Microscope) :
  same_scan m m' -> scan_consistent m -> scan_consistent m'.
Proof.
  intros (Hres & Hf & Hs & Hl & Ha & Ht & Hi).
  unfold scan_consistent, frame_shape.
  rewrite Hres, Hf, Hs, Hl, Ha, Ht, Hi. exact (fun H => H).
Qed.

Lemma scanning_keeps_timer (convT : convolved) (rand : nat -> nat -> R)
    (m m' : Microscope) :
  scanning convT rand m = Ok m' ->
  timer_running m' = timer_running m /\
  timer_interval m' = timer_interval m.
Proof.
  unfold scanning.
  destruct (line m <? snd (resolution m) - 1 - step_of m)%Z;
    [| destruct (line m <? snd (resolution m) - 1)%Z].
  - destruct (slice m convT rand) as [v | e]; simpl; intros H;
      [injection H as <- | discriminate H].
    split; reflexivity.
  - destruct (slice m convT rand) as [v | e]; simpl; intros H;
      [injection H as <- | discriminate H].
    split; reflexivity.
  - intros H. injection H as <-. split; reflexivity.
Qed.

Lemma scan_consistent_start_stop (m : Microscope) :
  scan_consistent m -> scan_consistent (start_stop m).
Proof.
  intros (Hshape & Hw & Hh & Hs & Hl & Ha & Hi).
  unfold start_stop, scan_consistent, frame_shape.
  destruct (scan_active m); cbn.
  - repeat split; try assumption; try lia; try apply Hshape;
      try (intros Hx; discriminate Hx).
  - repeat split; try assumption; try lia; try apply Hshape.
Qed.

Lemma scan_consistent_stop_if_active (m : Microscope) :
  scan_consistent m -> scan_consistent (stop_if_active m).
Proof.
  intros Hc. unfold stop_if_active. destruct (scan_active m).
  - apply scan_consistent_start_stop. exact Hc.
  - exact Hc.
Qed.

Lemma scan_consistent_scanning (convT : convolved) (rand : nat -> nat -> R)
    (m m' : Microscope) :
  scan_consistent m -> scanning convT rand m = Ok m' -> scan_consistent m'.
Proof.
  intros (Hshape & Hw & Hh & Hs & Hl & Ha & Hi) Hrun.
  assert (Hstep : (1 <= step_of m <= 10)%Z) by (unfold step_of; lia).
  pose proof (scanning_keeps convT rand m m' Hrun)
    as (Hres & Hsp & Hact & _).
  pose proof (scanning_keeps_timer convT rand m m' Hrun) as (Htr & Hti).
  pose proof (scanning_line convT rand m m' ltac:(lia) Hrun) as Hline.
  pose proof (scanning_shape convT rand m m' Hshape ltac:(lia) ltac:(lia)
                Hrun) as Hshape'.
  unfold scan_consistent. rewrite Hres, Hsp, Hact, Htr, Hti, Hline.
  split; [exact Hshape' |].
  split; [exact Hw |]. split; [exact Hh |]. split; [exact Hs |].
  split; [| split; [exact Ha | exact Hi]].
  destruct (line m <? snd (resolution m) - 1)%Z eqn:E;
    [apply Z.ltb_lt in E |]; lia.
Qed.

Lemma scan_consistent_step (e : event) (i i' : Instrument) :
  scan_consistent (scope i) -> deliverable e i -> handle e i = Done i' ->
  scan_consistent (scope i').
Proof.
  intros Hc Hd H.
  destruct e; cbn [handle deliverable] in *.
  - osolve. unfold vent_pump. destruct (vent i); exact Hc.
  - osolve. unfold pump. destruct (Rlt_dec (/ 10 ^ 5) (pressure i)); exact Hc.
  - unfold beam_on_off in H. destruct (beam_on (scope i)); osolve;
      (apply (scan_consistent_same (scope i));
       [repeat split; reflexivity | exact Hc]).
  - unfold hv_rise in H.
    destruct (Rlt_dec (h_v (scope i)) (hv_target (scope i))); osolve;
      (apply (scan_consistent_same (scope i));
       [repeat split; reflexivity | exact Hc]).
  - unfold magnification in H. osolve.
    apply (scan_consistent_same (scope i));
      [repeat split; reflexivity | exact Hc].
  - unfold resolution_choice in H. osolve.
    destruct Hc as (Hshape & Hw & Hh & Hs & Hl & Ha & Hi).
    destruct Hd as [Hw0 Hh0].
    unfold scan_consistent.
    split; [apply (zeros_shape w h); [lia | lia | reflexivity | reflexivity] |].
    cbn. repeat split; try assumption; lia.
  - osolve.
    destruct Hc as (Hshape & Hw & Hh & Hs & Hl & Ha & Hi).
    unfold scan_consistent, frame_shape. cbn.
    repeat split; try assumption; try lia; apply Hshape.
  - osolve. apply scan_consistent_start_stop. exact Hc.
  - apply scan_tick_inv in H. destruct H as (m' & Hrun & ->).
    apply (scan_consistent_scanning convT rand (scope i) m' Hc Hrun).
  - osolve. unfold wobble. destruct checked; cbn; [exact Hc |].
    apply (scan_consistent_same (scope i));
      [repeat split; reflexivity | exact Hc].
  - osolve.
    apply (scan_consistent_same (scope i));
      [repeat split; reflexivity | exact Hc].
  - unfold Microscope_focus in H. osolve.
    apply (scan_consistent_same (scope i));
      [repeat split; reflexivity | exact Hc].
  - osolve.
    apply (scan_consistent_same (scope i));
      [repeat split; reflexivity | exact Hc].
  - osolve.
    apply (scan_consistent_same (scope i));
      [repeat split; reflexivity | exact Hc].
  - osolve.
    apply (scan_consistent_same (scope i));
      [repeat split; reflexivity | exact Hc].
  - osolve.
    apply (scan_consistent_same (scope i));
      [repeat split; reflexivity | exact Hc].
  - unfold Microscope_beam_current in H. osolve.
    apply (scan_consistent_same (scope i));
      [repeat split; reflexivity | exact Hc].
  - unfold sample_loading in H. osolve.
    apply (scan_consistent_same (stop_if_active (scope i)));
      [repeat split; reflexivity |].
    apply scan_consistent_stop_if_active. exact Hc.
  - osolve. apply scan_consistent_stop_if_active. exact Hc.
Qed.

(** X17.  Whatever is clicked, moved or chosen, and in whatever order
    the timers fire, the scan state stays consistent: the frame has the
    shape of the resolution, the speed is one of 1 to 10, the line index
    is at least 0 and at most the height plus 8, the scan is active
    exactly when its timer runs, and the running timer has the interval
    ten times the speed. *)
Theorem scan_consistent_invariant (i0 i : Instrument)
    (H0 : scan_consistent (scope i0)) (Hreach : reaches i0 i) :
  scan_consistent (scope i).
Proof.
  induction Hreach as [| i e i' Hreach IH Hd H].
  - exact H0.
  - apply (scan_consistent_step e i i' IH Hd H).
Qed.

Lemma Instrument_init_scan_consistent
    (width target r_z r_ax r_ay r_mx r_my : R) (b : bool) (f a : Z) :
  scan_consistent
    (scope (Instrument_init width target r_z r_ax r_ay r_mx r_my b f a)).
Proof.
  unfold scan_consistent.
  split;
    [apply (zeros_shape 256 192); [lia | lia | reflexivity | reflexivity] |].
  cbn. repeat split; try lia; discriminate.
Qed.

Lemma reaches_started :
  reaches instrument0
    (scan_speed 10 (set_scope instrument0 (start_stop (scope instrument0)))).
Proof.
  apply (reaches_event _
           (set_scope instrument0 (start_stop (scope instrument0)))
           (Speed_chosen 10)).
  - apply (reaches_event _ instrument0 Click_start_stop).
    + apply reaches_start.
    + exact I.
    + reflexivity.
  - cbn. lia.
  - reflexivity.
Qed.

Lemma scan_consistent_invariant_witness :
  scan_consistent
    (scope (scan_speed 10
              (set_scope instrument0 (start_stop (scope instrument0))))).
Proof.
  apply (scan_consistent_invariant instrument0 _).
  - apply Instrument_init_scan_consistent.
  - exact reaches_started.
Defined.

End ScanInvariant.

Section TickInsideFrame.

Lemma written_width (m : Microscope) (a b : Z) :
  written m = Some (a, b) -> (b - a <= step_of m + 1)%Z.
Proof.
  unfold written.
  destruct (line m <? snd (resolution m) - 1 - step_of m)%Z eqn:H1;
    [| destruct (line m <? snd (resolution m) - 1)%Z eqn:H2];
    intros Hw; try discriminate Hw; injection Hw as <- <-.
  - lia.
  - apply Z.ltb_ge in H1. lia.
Qed.

(** X18.  In every state the instrument reaches, a tick that writes
    writes columns inside the frame: the slice starts at the line index,
    is not empty, ends at or before the frame height, and is at most one
    column wider than the step. *)
Theorem tick_writes_inside_frame (i0 i : Instrument) (a b : Z)
    (H0 : scan_consistent (scope i0)) (Hreach : reaches i0 i)
    (Hw : written (scope i) = Some (a, b)) :
  a = line (scope i) /\ (0 <= a < b)%Z /\
  (b <= snd (resolution (scope i)))%Z /\
  (b - a <= step_of (scope i) + 1)%Z.
Proof.
  assert (Hc : scan_consistent (scope i)).
  { clear Hw. induction Hreach as [| i e i' Hreach IH Hd H].
    - exact H0.
    - apply (scan_consistent_step e i i' IH Hd H). }
  destruct Hc as (_ & _ & _ & Hs & Hl & _).
  assert (Hstep : (1 <= step_of (scope i))%Z) by (unfold step_of; lia).
  destruct (written_in_frame (scope i) a b ltac:(lia) Hstep Hw)
    as (Ha & Hab & Hb).
  split; [exact Ha |]. split; [exact Hab |]. split; [exact Hb |].
  apply written_width. exact Hw.
Qed.

Lemma tick_writes_inside_frame_witness :
  0%Z = line (scope instrument0) /\ (0 <= 0 < 10)%Z /\
  (10 <= snd (resolution (scope instrument0)))%Z /\
  (10 - 0 <= step_of (scope instrument0) + 1)%Z.
Proof.
  apply (tick_writes_inside_frame instrument0 instrument0 0 10).
  - apply Instrument_init_scan_consistent.
  - apply reaches_start.
  - reflexivity.
Defined.

End TickInsideFrame.

Section HighVoltageRamp.

Lemma hv_rise_rising (r : R) (i : Instrument) (mag : Z) :
  getitem (mags i) (curr_mag i) = Done mag ->
  h_v (scope i) < hv_target (scope i) ->
  hv_rise r i =
    Done (set_scope i
            (with_beam (with_hv (scope i) (beam_on (scope i))
                          (h_v (scope i) + r))
               (with_focus (beam (scope i))
                  (Rmax (1 / 10)
                     (IZR (Focus_Slider i) / 1000 - hv_target (scope i)
                      + (h_v (scope i) + r)))))).
Proof.
  intros Hidx Hlt. unfold hv_rise.
  destruct (Rlt_dec (h_v (scope i)) (hv_target (scope i)));
    [| contradiction].
  unfold update_datazone. cbn [mags curr_mag set_scope].
  rewrite Hidx. reflexivity.
Qed.

Lemma hv_rises_below (rs : list R) :
  forall (i : Instrument) (mag : Z),
    getitem (mags i) (curr_mag i) = Done mag ->
    Forall unit_draw rs ->
    h_v (scope i) + INR (List.length rs) <= hv_target (scope i) ->
    exists i' : Instrument,
      hv_rises rs i = Done i' /\
      h_v (scope i') = h_v (scope i) + row_sum rs /\
      hv_target (scope i') = hv_target (scope i) /\
      hv_timer_running i' = hv_timer_running i /\
      beam_on (scope i') = beam_on (scope i) /\
      (rs <> [] ->
       h_v (scope i') < hv_target (scope i') /\
       1 / 10 <= focus (beam (scope i'))).
Proof.
  induction rs as [| r rs IH]; intros i mag Hidx Hdraws Hlen.
  - exists i. split; [reflexivity |].
    split; [unfold row_sum; cbn; lra |].
    split; [reflexivity |]. split; [reflexivity |]. split; [reflexivity |].
    intros Hne. contradiction Hne. reflexivity.
  - inversion Hdraws as [| r' rs' [Hr0 Hr1] Hrest]; subst.
    change (List.length (r :: rs)) with (S (List.length rs)) in Hlen.
    rewrite S_INR in Hlen.
    pose proof (pos_INR (List.length rs)) as Hpos.
    assert (Hlt : h_v (scope i) < hv_target (scope i)) by lra.
    cbn [hv_rises]. rewrite (hv_rise_rising r i mag Hidx Hlt). cbn [obind].
    set (i1 := set_scope i _).
    destruct (IH i1 mag) as (i' & Hrun & Hv & Ht & Htimer & Hon & Hlast).
    + exact Hidx.
    + exact Hrest.
    + subst i1. cbn. lra.
    + exists i'. split; [exact Hrun |].
      assert (Hsum : h_v (scope i') = h_v (scope i) + row_sum (r :: rs)).
      { rewrite Hv. subst i1. unfold row_sum. cbn. lra. }
      split; [exact Hsum |].
      split; [rewrite Ht; reflexivity |].
      split; [rewrite Htimer; reflexivity |].
      split; [rewrite Hon; reflexivity |].
      intros _. destruct rs as [| r2 rs2].
      * cbn in Hrun. injection Hrun as <-. subst i1. cbn. split.
        -- cbn in Hlen. lra.
        -- apply Rmax_l.
      * apply Hlast. discriminate.
Qed.

(** X19.  The ramp of the high voltage cannot be faster than 1 kV per
    tick: through any number of ticks up to the distance to the target
    (in kV) every tick returns and takes the rising branch, the voltage is
    the starting voltage plus the sum of the draws and is still below the
    target, the timer still runs as before, and the focus set on the way
    is at least 0.1. *)
Theorem hv_ramp_below_target (rs : list R) (i : Instrument) (mag : Z)
    (Hidx : getitem (mags i) (curr_mag i) = Done mag)
    (Hdraws : Forall unit_draw rs)
    (Hne : rs <> [])
    (Hlen : h_v (scope i) + INR (List.length rs) <= hv_target (scope i)) :
  exists i' : Instrument,
    hv_rises rs i = Done i' /\
    h_v (scope i') = h_v (scope i) + row_sum rs /\
    h_v (scope i') < hv_target (scope i') /\
    hv_timer_running i' = hv_timer_running i /\
    1 / 10 <= focus (beam (scope i')).
Proof.
  destruct (hv_rises_below rs i mag Hidx Hdraws Hlen)
    as (i' & Hrun & Hv & _ & Htimer & _ & Hlast).
  destruct (Hlast Hne) as [Hlt Hfocus].
  exists i'. repeat split; assumption.
Qed.

Lemma hv_ramp_below_target_witness :
  exists i' : Instrument,
    hv_rises [1 / 2; 1 / 4] instrument0 = Done i' /\
    h_v (scope i') = h_v (scope instrument0) + row_sum [1 / 2; 1 / 4] /\
    h_v (scope i') < hv_target (scope i') /\
    hv_timer_running i' = hv_timer_running instrument0 /\
    1 / 10 <= focus (beam (scope i')).
Proof.
  apply (hv_ramp_below_target [1 / 2; 1 / 4] instrument0 1%Z).
  - reflexivity.
  - repeat constructor; unfold unit_draw; lra.
  - discriminate.
  - cbn. lra.
Defined.

End HighVoltageRamp.

Section Wobble.

Lemma wobble_off_after_timeout (i : Instrument) :
  wobble false (wobble_defocus i) = wobble false i.
Proof.
  destruct i as [m sw l c v p pt ht wt t f a b1 b2 b3].
  destruct m as [res fr act ln sp on tg hv b tr ti txt cs bs].
  destruct b. reflexivity.
Qed.

Lemma wobble_timeouts_facts (n : nat) :
  forall i : Instrument,
    wobble_time (wobble_timeouts n i) = (wobble_time i + Z.of_nat n)%Z /\
    Focus_Slider (wobble_timeouts n i) = Focus_Slider i /\
    wobble_amp_Slider (wobble_timeouts n i) = wobble_amp_Slider i /\
    wobble false (wobble_timeouts n i) = wobble false i /\
    ((1 <= n)%nat ->
     Rabs (focus (beam (scope (wobble_timeouts n i)))
           - IZR (Focus_Slider i) / 1000)
     <= Rabs (IZR (wobble_amp_Slider i)) / 100).
Proof.
  induction n as [| n IH]; intros i.
  - cbn [wobble_timeouts]. repeat split; try reflexivity; try lia.
  - cbn [wobble_timeouts].
    destruct (IH (wobble_defocus i)) as (Ht & Hf & Ha & Hoff & Hband).
    split; [rewrite Ht; cbn; lia |].
    split; [rewrite Hf; reflexivity |].
    split; [rewrite Ha; reflexivity |].
    split; [rewrite Hoff; apply wobble_off_after_timeout |].
    intros _. destruct n as [| n'].
    + cbn.
      replace (IZR (Focus_Slider i) / 1000
               + IZR (wobble_amp_Slider i) / 100 * sin (IZR (wobble_time i))
               - IZR (Focus_Slider i) / 1000)
        with (IZR (wobble_amp_Slider i) * sin (IZR (wobble_time i)) / 100)
        by field.
      unfold Rdiv at 1. rewrite Rabs_mult, Rabs_mult.
      rewrite (Rabs_pos_eq (/ 100)) by lra.
      assert (Hsin : Rabs (sin (IZR (wobble_time i))) <= 1).
      { apply Rabs_le. pose proof (SIN_bound (IZR (wobble_time i))). lra. }
      pose proof (Rabs_pos (IZR (wobble_amp_Slider i))) as Hamp.
      unfold Rdiv. nra.
    + apply Hband. lia.
Qed.

(** X20.  Wobble leaves no trace: after the wobble box is checked and the
    wobble timer has fired [n] times, the wobble time is [n], the focus
    (once the timer has fired) is within the amplitude slider's hundredth
    of the focus slider's thousandth, and unchecking the box gives the
    state that unchecking it at once would have given, with the focus
    back at the slider. *)
Theorem wobble_round_trip (n : nat) (i : Instrument) :
  wobble_time (wobble_timeouts n (wobble true i)) = Z.of_nat n /\
  ((1 <= n)%nat ->
   Rabs (focus (beam (scope (wobble_timeouts n (wobble true i))))
         - IZR (Focus_Slider i) / 1000)
   <= Rabs (IZR (wobble_amp_Slider i)) / 100) /\
  wobble false (wobble_timeouts n (wobble true i)) = wobble false i /\
  focus (beam (scope (wobble false (wobble_timeouts n (wobble true i)))))
  = IZR (Focus_Slider i) / 1000.
Proof.
  destruct (wobble_timeouts_facts n (wobble true i))
    as (Ht & Hf & Ha & Hoff & Hband).
  assert (Hoff' : wobble false (wobble true i) = wobble false i).
  { destruct i as [m sw l c v p pt ht wt t f a b1 b2 b3]. reflexivity. }
  split; [rewrite Ht; cbn; lia |].
  split; [exact Hband |].
  split; [rewrite Hoff; exact Hoff' |].
  rewrite Hoff, Hoff'. reflexivity.
Qed.

End Wobble.

Section PixelScale.

Ltac osolve :=
  repeat match goal with
         | H : obind ?c _ = Done _ |- _ =>
             let E := fresh "E" in
             destruct c eqn:E; cbn [obind] in H; [| discriminate H]
         | H : update_datazone _ = Done _ |- _ =>
             apply update_datazone_inv in H; subst
         | H : Done _ = Done _ |- _ => injection H as H; subst
         end.

Lemma scale_consistent_same (i i' : Instrument) :
  mags i' = mags i -> curr_mag i' = curr_mag i ->
  screen_width i' = screen_width i ->
  resolution (scope i') = resolution (scope i) ->
  pixels_per_mm (beam (scope i')) = pixels_per_mm (beam (scope i)) ->
  scale_consistent i -> scale_consistent i'.
Proof.
  intros Hm Hc Hs Hr Hp. unfold scale_consistent, pixel_scale.
  rewrite Hm, Hc, Hs, Hr, Hp. exact (fun H => H).
Qed.

Lemma sample_loading_scale (found : bool) (new_mags : list Z) (b : Beam)
    (v : Z) (i i' : Instrument) :
  sample_loading found new_mags b v i = Done i' -> scale_consistent i'.
Proof.
  intros H. unfold sample_loading in H. osolve.
  unfold scale_consistent. exact E.
Qed.

Lemma scale_consistent_step (e : event) (i i' : Instrument) :
  scale_consistent i -> handle e i = Done i' -> scale_consistent i'.
Proof.
  intros Hc H.
  destruct e; cbn [handle] in *.
  - osolve. unfold vent_pump. destruct (vent i); exact Hc.
  - osolve. unfold pump. destruct (Rlt_dec (/ 10 ^ 5) (pressure i)); exact Hc.
  - unfold beam_on_off in H. destruct (beam_on (scope i)); osolve; exact Hc.
  - unfold hv_rise in H.
    destruct (Rlt_dec (h_v (scope i)) (hv_target (scope i))); osolve;
      exact Hc.
  - unfold magnification in H. osolve. unfold scale_consistent. exact E.
  - unfold resolution_choice in H. osolve. unfold scale_consistent. exact E.
  - osolve. exact Hc.
  - osolve. unfold start_stop. destruct (scan_active (scope i)); exact Hc.
  - apply scan_tick_inv in H. destruct H as (m' & Hrun & ->).
    destruct (scanning_keeps convT rand (scope i) m' Hrun)
      as (Hres & _ & _ & _ & _ & _ & _ & _ & Hbeam).
    apply (scale_consistent_same i); try reflexivity; try exact Hc.
    + exact Hres.
    + cbn. rewrite Hbeam. reflexivity.
  - osolve. unfold wobble. destruct checked; exact Hc.
  - osolve. exact Hc.
  - unfold Microscope_focus in H. osolve. exact Hc.
  - osolve. exact Hc.
  - osolve. exact Hc.
  - osolve. exact Hc.
  - osolve. exact Hc.
  - unfold Microscope_beam_current in H. osolve. exact Hc.
  - apply (sample_loading_scale _ _ _ _ _ _ H).
  - osolve. unfold save_image, stop_if_active, start_stop.
    destruct (scan_active (scope i)); exact Hc.
Qed.

(** X21.  The beam's pixels per millimetre follow the image: once they
    equal [resolution[0] * mags[curr_mag] / screen_width], as they do
    after every sample load, they equal it in every state reached
    afterwards, whichever of magnification, resolution, sample or
    anything else is changed. *)
Theorem scale_invariant (i0 i : Instrument)
    (H0 : scale_consistent i0) (Hreach : reaches i0 i) :
  scale_consistent i.
Proof.
  induction Hreach as [| i e i' Hreach IH Hd H].
  - exact H0.
  - apply (scale_consistent_step e i i' IH H).
Qed.

Lemma instrument0_width : screen_width instrument0 <> 0.
Proof. cbn. lra. Qed.

Lemma sample_loading_returns (found : bool) (new_mags : list Z) (b : Beam)
    (v : Z) (i : Instrument) (mag : Z) :
  screen_width i <> 0 ->
  getitem (if found then new_mags else mags i) (curr_mag i) = Done mag ->
  exists i' : Instrument, sample_loading found new_mags b v i = Done i'.
Proof.
  intros Hw Hidx. unfold sample_loading, pixel_scale, update_datazone.
  cbn [mags curr_mag screen_width set_mags set_scope].
  rewrite Hidx. cbn [obind].
  rewrite (pydiv_ok _ _ Hw). cbn [of_result obind].
  eexists. reflexivity.
Qed.

Lemma scale_invariant_witness :
  exists i1 : Instrument,
    sample_loading true [100%Z; 200%Z] beam_drawn 100 instrument0 = Done i1 /\
    scale_consistent (scan_speed 5 i1).
Proof.
  destruct (sample_loading_returns true [100%Z; 200%Z] beam_drawn 100
              instrument0 100%Z instrument0_width eq_refl) as [i1 H1].
  exists i1. split; [exact H1 |].
  apply (scale_invariant i1 (scan_speed 5 i1)).
  - apply (sample_loading_scale _ _ _ _ _ _ H1).
  - apply (reaches_event _ i1 (Speed_chosen 5)).
    + apply reaches_start.
    + cbn. lia.
    + reflexivity.
Defined.

(** X22.  A sample load keeps the magnification index: with a nonzero
    screen width it returns exactly when the index kept from before is an
    index of the new list of magnifications (of the old list when the
    sample has no detector folder), and it raises [IndexError] when the
    index is at or beyond the length of that list. *)
Theorem sample_loading_returns_iff (found : bool) (new_mags : list Z)
    (b : Beam) (v : Z) (i : Instrument)
    (Hw : screen_width i <> 0) :
  let l := if found then new_mags else mags i in
  ((exists i' : Instrument, sample_loading found new_mags b v i = Done i')
   <-> (- Z.of_nat (List.length l) <= curr_mag i
        < Z.of_nat (List.length l))%Z) /\
  ((Z.of_nat (List.length l) <= curr_mag i)%Z ->
   sample_loading found new_mags b v i = Failed IndexError).
Proof.
  intros l. split; [split |].
  - intros [i' H]. apply getitem_done_iff.
    unfold sample_loading, pixel_scale in H.
    cbn [mags curr_mag screen_width set_mags set_scope] in H.
    fold l in H.
    destruct (getitem l (curr_mag i)) as [mag | f] eqn:E;
      [exists mag; reflexivity | discriminate H].
  - intros Hc. apply getitem_done_iff in Hc. destruct Hc as [mag Hmag].
    apply (sample_loading_returns found new_mags b v i mag Hw Hmag).
  - intros Hc. unfold sample_loading, pixel_scale.
    cbn [mags curr_mag screen_width set_mags set_scope]. fold l.
    rewrite (getitem_out_of_range l (curr_mag i)) by (right; exact Hc).
    reflexivity.
Qed.

Lemma sample_loading_returns_iff_witness :
  sample_loading true [100%Z]
    beam_drawn 100 (set_mags instrument0 (scope instrument0) [1%Z; 2%Z] 1)
  = Failed IndexError.
Proof.
  apply (sample_loading_returns_iff true [100%Z] beam_drawn 100
           (set_mags instrument0 (scope instrument0) [1%Z; 2%Z] 1)).
  - cbn. lra.
  - cbn. lia.
Defined.

End PixelScale.

Section ImageOpen.

Lemma np_rint_near (x : R) (k : Z) :
  Rabs (x - IZR k) < 1 / 2 -> np_rint x = k.
Proof.
  intros Hnear. apply Rabs_def2 in Hnear. destruct Hnear as [Hhi Hlo].
  unfold np_rint. destruct (base_Int_part x) as [Hf1 Hf2].
  destruct (Rle_dec (IZR k) x) as [Hge | Hlt].
  - assert (Hf : Int_part x = k).
    { assert (H1 : (Int_part x < k + 1)%Z)
        by (apply lt_IZR; rewrite plus_IZR; lra).
      assert (H2 : (k < Int_part x + 1)%Z)
        by (apply lt_IZR; rewrite plus_IZR; lra).
      lia. }
    rewrite Hf. destruct (Rlt_dec (x - IZR k) (1 / 2)); [reflexivity | lra].
  - assert (Hf : Int_part x = (k - 1)%Z).
    { assert (H1 : (Int_part x < k)%Z) by (apply lt_IZR; lra).
      assert (H2 : (k - 1 < Int_part x + 1)%Z).
      { apply lt_IZR. rewrite plus_IZR, minus_IZR. lra. }
      lia. }
    rewrite Hf. rewrite minus_IZR.
    destruct (Rlt_dec (x - (IZR k - 1)) (1 / 2)); [lra |].
    destruct (Rlt_dec (1 / 2) (x - (IZR k - 1))); [lia | lra].
Qed.

Lemma np_rint_bounds (x : R) (a b : Z) :
  IZR a <= x <= IZR b -> (a <= np_rint x <= b)%Z.
Proof.
  intros [Ha Hb]. unfold np_rint. destruct (base_Int_part x) as [Hf1 Hf2].
  assert (Haf : (a <= Int_part x)%Z).
  { assert (H : (a < Int_part x + 1)%Z)
      by (apply lt_IZR; rewrite plus_IZR; lra).
    lia. }
  assert (Hfb : (Int_part x <= b)%Z) by (apply le_IZR; lra).
  assert (Hup : 0 < x - IZR (Int_part x) -> (Int_part x + 1 <= b)%Z).
  { intros Hpos. assert (H : (Int_part x < b)%Z) by (apply lt_IZR; lra).
    lia. }
  destruct (Rlt_dec (x - IZR (Int_part x)) (1 / 2)); [lia |].
  destruct (Rlt_dec (1 / 2) (x - IZR (Int_part x))).
  - assert (H := Hup ltac:(lra)). lia.
  - destruct (Z.even (Int_part x)); [lia |].
    assert (H := Hup ltac:(lra)). lia.
Qed.

Lemma grey_of_pixel (c : nat) (px : list Z) :
  (3 <= c)%nat -> List.length px = c ->
  Forall (fun t => (0 <= t <= 255)%Z) px ->
  grey_of px (np_rint (dot (firstn 3 px) rgb_weights)).
Proof.
  intros Hc Hlen Hrange.
  destruct px as [| r [| g [| b rest]]]; cbn in Hlen; try lia.
  inversion Hrange as [| ? ? Hr Hrange1]; subst.
  inversion Hrange1 as [| ? ? Hg Hrange2]; subst.
  inversion Hrange2 as [| ? ? Hb _]; subst.
  assert (Hr' : 0 <= IZR r <= 255) by (split; apply IZR_le; lia).
  assert (Hg' : 0 <= IZR g <= 255) by (split; apply IZR_le; lia).
  assert (Hb' : 0 <= IZR b <= 255) by (split; apply IZR_le; lia).
  cbn [firstn dot rgb_weights]. split.
  - apply np_rint_bounds. lra.
  - intros t rest' Heq. injection Heq as -> -> -> _.
    apply np_rint_near. apply Rabs_def1; lra.
Qed.

Lemma Forall2_map_same {A B : Type} (P : A -> B -> Prop) (f : A -> B)
    (l : list A) :
  Forall (fun x => P x (f x)) l -> Forall2 P l (map f l).
Proof.
  induction 1 as [| x l Hx _ IH]; cbn; constructor; assumption.
Qed.

(** X23.  A colour image of bytes with three or more channels is opened
    as a grey image of the same rows and columns: every grey value is a
    byte again, a pixel whose three colours agree keeps that value, and
    channels after the third (the alpha channel) have no effect. *)
Theorem image_open_colour (c : nat) (a : list (list (list Z)))
    (Hc : (3 <= c)%nat) (Hshape : image_shape c a)
    (Hrange : Forall (Forall (Forall (fun t => (0 <= t <= 255)%Z))) a) :
  exists g : list (list Z),
    image_open (Channels c a) = Done g /\
    Forall2 (Forall2 grey_of) a g /\
    image_open (Channels 3 (map (map (firstn 3)) a)) = Done g.
Proof.
  exists (map (map (fun px => np_rint (dot (firstn 3 px) rgb_weights))) a).
  split; [| split].
  - unfold image_open.
    assert (Hmin : (Nat.min c 3 =? 3)%nat = true)
      by (apply Nat.eqb_eq; lia).
    rewrite Hmin. reflexivity.
  - apply Forall2_map_same.
    unfold image_shape in Hshape.
    rewrite Forall_forall in *. intros row Hrow.
    apply Forall2_map_same.
    specialize (Hshape row Hrow). specialize (Hrange row Hrow).
    rewrite Forall_forall in *. intros px Hpx.
    apply (grey_of_pixel c); [exact Hc | apply Hshape; exact Hpx |].
    apply Hrange. exact Hpx.
  - cbn [image_open Nat.min Nat.eqb]. f_equal.
    rewrite map_map. apply map_ext. intros row.
    rewrite map_map. apply map_ext. intros px.
    rewrite firstn_firstn. reflexivity.
Qed.

Lemma image_open_colour_witness :
  exists g : list (list Z),
    image_open (Channels 4 [[[7; 7; 7; 255]; [255; 0; 0; 255]]]%Z) = Done g /\
    Forall2 (Forall2 grey_of) [[[7; 7; 7; 255]; [255; 0; 0; 255]]]%Z g /\
    image_open
      (Channels 3
         (map (map (firstn 3)) [[[7; 7; 7; 255]; [255; 0; 0; 255]]]%Z))
    = Done g.
Proof.
  apply (image_open_colour 4 [[[7; 7; 7; 255]; [255; 0; 0; 255]]]%Z).
  - lia.
  - repeat constructor.
  - repeat constructor; lia.
Defined.

End ImageOpen.

Section DarkSlice.

(** X24.  With the beam off, the voltage at 0 or the contrast slider at
    0, a tick that raises no error writes the same value everywhere: each
    written entry is the brightness slider's value less 250, whatever the
    image, the beam and the noise. *)
Theorem dark_slice_is_brightness (convT : convolved)
    (rand : nat -> nat -> R) (m : Microscope)
    (Hshape : frame_shape m) (Hline : (0 <= line m)%Z)
    (Hspeed : (speed m <= 10)%Z) (Hop : operable m)
    (Hdark : beam_on m = false \/ h_v m = 0 \/ contrast_Slider m = 0%Z) :
  exists m' : Microscope,
    scanning convT rand m = Ok m' /\
    forall (a b : Z) (r c : nat),
      written m = Some (a, b) ->
      (r < Z.to_nat (fst (resolution m)))%nat ->
      (a <= Z.of_nat c < b)%Z ->
      entry (frame m') r c = IZR (brightness_Slider m) - 250.
Proof.
  assert (Hstep : (1 <= step_of m)%Z) by (unfold step_of; lia).
  destruct (scanning_entries convT rand m Hshape Hline Hstep Hop)
    as (m' & Hrun & Hent).
  exists m'. split; [exact Hrun |].
  intros a b r c Hw Hr [Hac Hcb]. rewrite Hw in Hent. rewrite (Hent r c Hr).
  assert (Hin : ((a <=? Z.of_nat c) && (Z.of_nat c <? b))%Z%bool = true).
  { apply andb_true_intro. split; [apply Z.leb_le | apply Z.ltb_lt]; lia. }
  rewrite Hin. unfold slice_value, pixel.
  destruct Hdark as [Hoff | [Hzero | Hcontrast]].
  - rewrite Hoff. cbn [b2R]. unfold Rdiv. ring.
  - rewrite Hzero. unfold Rdiv. ring.
  - rewrite Hcontrast. unfold Rdiv. simpl. ring.
Qed.

Lemma dark_slice_is_brightness_witness :
  exists m' : Microscope,
    scanning (flat_conv 0) (half_rand 0) microscope0 = Ok m' /\
    forall (a b : Z) (r c : nat),
      written microscope0 = Some (a, b) ->
      (r < Z.to_nat (fst (resolution microscope0)))%nat ->
      (a <= Z.of_nat c < b)%Z ->
      entry (frame m') r c = IZR (brightness_Slider microscope0) - 250.
Proof.
  apply (dark_slice_is_brightness (flat_conv 0) (half_rand 0) microscope0).
  - exact microscope0_shape.
  - simpl. lia.
  - simpl. lia.
  - exact microscope0_operable.
  - left. reflexivity.
Defined.

End DarkSlice.

Section MagnificationSlot.

(** X25.  With a nonzero screen width, moving the magnification slider to
    [v] returns exactly when [v] is an index of the list of magnifications
    and the magnification there is not 0; a magnification of 0 passes the
    pixel scale and fails in the scale bar with [ZeroDivisionError], and
    an index outside the list fails with the error of the lookup. *)
Theorem magnification_returns_iff (v : Z) (i : Instrument)
    (Hw : screen_width i <> 0) :
  ((exists i' : Instrument, magnification v i = Done i') <->
   (exists mag : Z, getitem (mags i) v = Done mag /\ mag <> 0%Z)) /\
  (getitem (mags i) v = Done 0%Z ->
   magnification v i = Failed (Arithmetic ZeroDivisionError)) /\
  (forall f : failure,
     getitem (mags i) v = Failed f -> magnification v i = Failed f).
Proof.
  assert (Hrun : forall mag : Z, getitem (mags i) v = Done mag ->
            magnification v i =
              (_ <~ of_result
                      (pydiv (screen_width i * 1000 * (672 / 10) / 768)
                         (IZR mag)) ;;
               Done (set_mags i
                       (with_beam (scope i)
                          (with_scale (beam (scope i))
                             (IZR (fst (resolution (scope i))) * IZR mag
                              / screen_width i)
                             (size (beam (scope i)))))
                       (mags i) v))).
  { intros mag Hmag. unfold magnification, pixel_scale, update_datazone.
    rewrite Hmag. cbn [obind]. rewrite (pydiv_ok _ _ Hw).
    cbn [of_result obind mags curr_mag set_mags screen_width].
    rewrite Hmag. cbn [obind mags curr_mag set_mags screen_width].
    rewrite Hmag. cbn [obind]. reflexivity. }
  split; [split | split].
  - intros [i' H].
    destruct (getitem (mags i) v) as [mag | f] eqn:E.
    + exists mag. split; [reflexivity |]. intros H0. subst mag.
      rewrite (Hrun 0%Z eq_refl) in H.
      rewrite (pydiv_zero _ _ eq_refl) in H. discriminate H.
    + unfold magnification, pixel_scale in H. rewrite E in H.
      discriminate H.
  - intros (mag & Hmag & Hne). rewrite (Hrun mag Hmag).
    assert (Hm : IZR mag <> 0) by (apply not_0_IZR; exact Hne).
    rewrite (pydiv_ok _ _ Hm). eexists. reflexivity.
  - intros H0. rewrite (Hrun 0%Z H0).
    rewrite (pydiv_zero _ _ eq_refl). reflexivity.
  - intros f Hf. unfold magnification, pixel_scale. rewrite Hf.
    reflexivity.
Qed.

Lemma magnification_returns_iff_witness :
  exists i' : Instrument, magnification 0 instrument0 = Done i'.
Proof.
  apply (magnification_returns_iff 0 instrument0).
  - cbn. lra.
  - exists 1%Z. split; [reflexivity | discriminate].
Defined.

End MagnificationSlot.

Section BeamSwitch.

Ltac osolve :=
  repeat match goal with
         | H : obind ?c _ = Done _ |- _ =>
             let E := fresh "E" in
             destruct c eqn:E; cbn [obind] in H; [| discriminate H]
         | H : update_datazone _ = Done _ |- _ =>
             apply update_datazone_inv in H; subst
         | H : Done _ = Done _ |- _ => injection H as H; subst
         end.

(** X26.  Switching the beam off sets the voltage to 0 and enables the
    vent button, but does not stop the high-voltage timer: the timer is
    as it was, and with a positive target its next timeout raises the
    voltage from 0 to the draw while the beam is off and the vent button
    enabled. *)
Theorem hv_rises_after_beam_off (r : R) (i i1 i2 : Instrument)
    (Hon : beam_on (scope i) = true)
    (Htarget : 0 < hv_target (scope i))
    (Hoff : handle Click_beamOn i = Done i1)
    (Htick : handle (Hv_timeout r) i1 = Done i2) :
  hv_timer_running i1 = hv_timer_running i /\
  h_v (scope i1) = 0 /\
  beam_on (scope i2) = false /\
  vent_pump_enabled i2 = true /\
  h_v (scope i2) = r.
Proof.
  cbn [handle] in Hoff, Htick. unfold beam_on_off in Hoff.
  rewrite Hon in Hoff. osolve.
  split; [reflexivity |]. split; [reflexivity |].
  unfold hv_rise in Htick. cbn in Htick.
  destruct (Rlt_dec 0 (hv_target (scope i))) as [_ | Hn];
    [| contradiction].
  osolve. cbn. repeat split; try reflexivity. lra.
Qed.

Lemma hv_rises_after_beam_off_witness :
  exists i1 i2 : Instrument,
    handle Click_beamOn instrument_on = Done i1 /\
    handle (Hv_timeout (1 / 2)) i1 = Done i2 /\
    hv_timer_running i1 = hv_timer_running instrument_on /\
    h_v (scope i1) = 0 /\
    beam_on (scope i2) = false /\
    vent_pump_enabled i2 = true /\
    h_v (scope i2) = 1 / 2.
Proof.
  set (j := set_scope instrument_on (with_hv (scope instrument_on) false 0)).
  set (i1 := set_hv j (scope j) (hv_timer_running j) true).
  assert (Hoff : handle Click_beamOn instrument_on = Done i1)
    by reflexivity.
  assert (Hlt : h_v (scope i1) < hv_target (scope i1)) by (cbn; lra).
  pose proof (hv_rise_rising (1 / 2) i1 1%Z eq_refl Hlt) as Htick.
  exists i1. eexists. split; [exact Hoff |]. split; [exact Htick |].
  apply (hv_rises_after_beam_off (1 / 2) instrument_on i1 _).
  - reflexivity.
  - cbn. lra.
  - exact Hoff.
  - exact Htick.
Defined.

End BeamSwitch.

Section PumpDown.

Lemma pump_high (r : R) (j : Instrument) :
  / 10 ^ 5 < pressure j ->
  pump r j =
    set_vacuum j (vent j) (pressure j * (5 / 10 + 5 / 10 * r))
      (pump_timer_running j) (beamOn_enabled j) (sample_enabled j).
Proof.
  intros Hhigh. unfold pump.
  destruct (Rlt_dec (/ 10 ^ 5) (pressure j)); [reflexivity | contradiction].
Qed.

Lemma pumps_lower (rs : list R) :
  forall j : Instrument,
    Forall unit_draw rs ->
    / 10 ^ 5 * 2 ^ List.length rs < 2 * pressure j ->
    beamOn_enabled (pumps rs j) = beamOn_enabled j /\
    pump_timer_running (pumps rs j) = pump_timer_running j /\
    pressure j / 2 ^ List.length rs <= pressure (pumps rs j) <= pressure j.
Proof.
  induction rs as [| r rs IH]; intros j Hdraws Hp.
  - cbn. repeat split; try reflexivity; lra.
  - inversion Hdraws as [| r' rs' [Hr0 Hr1] Hrest]; subst.
    cbn [List.length pow] in Hp.
    assert (Hpow : 1 <= 2 ^ List.length rs) by (apply pow_R1_Rle; lra).
    assert (Hinv : 0 < / 10 ^ 5).
    { apply Rinv_0_lt_compat. apply pow_lt. lra. }
    assert (Hhigh : / 10 ^ 5 < pressure j) by nra.
    cbn [pumps]. rewrite (pump_high r j Hhigh).
    set (j1 := set_vacuum j _ _ _ _ _).
    assert (Hp1 : pressure j1 = pressure j * (5 / 10 + 5 / 10 * r))
      by reflexivity.
    destruct (IH j1 Hrest) as (Hb & Ht & Hlo & Hhi).
    { rewrite Hp1. nra. }
    split; [rewrite Hb; reflexivity |].
    split; [rewrite Ht; reflexivity |].
    assert (Hpos : 0 < 2 ^ List.length rs) by lra.
    cbn [List.length pow]. split.
    + apply Rle_trans with (pressure j1 / 2 ^ List.length rs);
        [| exact Hlo].
      rewrite Hp1. unfold Rdiv.
      rewrite Rinv_mult.
      assert (Hi : 0 < / 2 ^ List.length rs)
        by (apply Rinv_0_lt_compat; exact Hpos).
      assert (Hpj : 0 < pressure j) by lra.
      assert (Hprod : 0 <= pressure j * / 2 ^ List.length rs * r).
      { apply Rmult_le_pos; [apply Rmult_le_pos |]; lra. }
      lra.
    + apply Rle_trans with (pressure j1); [exact Hhi |].
      rewrite Hp1. nra.
Qed.

(** X27.  Pumping down takes time: after the pump button is clicked on a
    vented chamber, through any 27 or fewer timeouts of the pump timer the
    pressure is at most 760 Torr and at least 760 Torr halved once per
    timeout, the pump timer keeps running, and the beam button is as it
    was before the click. *)
Theorem pump_down_takes_time (rs : list R) (i : Instrument)
    (Hvent : vent i = true) (Hdraws : Forall unit_draw rs)
    (Hlen : (List.length rs <= 27)%nat) :
  beamOn_enabled (pumps rs (vent_pump i)) = beamOn_enabled i /\
  pump_timer_running (pumps rs (vent_pump i)) = true /\
  760 / 2 ^ List.length rs <= pressure (pumps rs (vent_pump i)) <= 760.
Proof.
  assert (Hstart : vent_pump i
                   = set_vacuum i false 760 true (beamOn_enabled i) false).
  { unfold vent_pump. rewrite Hvent. reflexivity. }
  assert (Hpow : 2 ^ List.length rs <= 2 ^ 27) by (apply Rle_pow; [lra | exact Hlen]).
  assert (H27 : 2 ^ 27 = 134217728) by (simpl; ring).
  assert (H5 : / 10 ^ 5 = 1 / 100000) by (simpl; field).
  destruct (pumps_lower rs (vent_pump i) Hdraws) as (Hb & Ht & Hp).
  - rewrite Hstart. cbn [pressure set_vacuum]. rewrite H5.
    rewrite H27 in Hpow. lra.
  - rewrite Hb, Ht. rewrite Hstart in *. cbn [pressure set_vacuum] in Hp.
    repeat split; try reflexivity; apply Hp.
Qed.

Lemma pump_down_takes_time_witness :
  beamOn_enabled (pumps [1 / 2; 0] (vent_pump instrument0))
  = beamOn_enabled instrument0 /\
  pump_timer_running (pumps [1 / 2; 0] (vent_pump instrument0)) = true /\
  760 / 2 ^ List.length [1 / 2; 0]
  <= pressure (pumps [1 / 2; 0] (vent_pump instrument0)) <= 760.
Proof.
  apply (pump_down_takes_time [1 / 2; 0] instrument0).
  - reflexivity.
  - repeat constructor; unfold unit_draw; lra.
  - cbn. lia.
Defined.

End PumpDown.
